(** * The rotating file producer of gollum: embedding and verification

    Shallow embedding of [producer.File] (log rotation, compression of
    rotated logs, pruning) and of the pieces of the Go runtime and of the
    tgo helper library it calls.  Integers are [Z] with the wrap-around of
    their Go type written out, Go strings are [string] (byte sequences),
    maps are [gmap], pointers are addresses into an explicit store, and the
    operating system is an explicit record of answers together with a trace
    of the calls made. *)

From Stdlib Require Import ZArith Lia Bool Ascii String List Permutation Sorted DecimalString.
From Stdlib Require DecimalPos DecimalN.
From stdpp Require Import base option list gmap strings.

Local Open Scope string_scope.
Local Open Scope list_scope.
Local Open Scope Z_scope.

(** ** Go: fixed-width integers *)

Module GoInt.

(** [uint64(z)]: arithmetic on [uint64] is modulo [2^64]. *)
Definition uint64 (z : Z) : Z := z mod 2 ^ 64.

(** [int64(z)]: two's complement wrap-around into [-2^63, 2^63). *)
Definition int64 (z : Z) : Z := (z + 2 ^ 63) mod 2 ^ 64 - 2 ^ 63.

(** [int] is 64 bits wide on the platforms gollum is built for. *)
Definition int (z : Z) : Z := int64 z.

Definition in_int64 (z : Z) : Prop := - 2 ^ 63 <= z < 2 ^ 63.
Definition in_uint64 (z : Z) : Prop := 0 <= z < 2 ^ 64.

End GoInt.

(** ** Go: strings, strconv, path/filepath *)

Module GoString.

Definition chars (s : string) : list ascii := list_ascii_of_string s.
Definition str (l : list ascii) : string := string_of_list_ascii l.

Definition len (s : string) : Z := Z.of_nat (String.length s).

Definition isDigit (c : ascii) : bool :=
  ((48 <=? N_of_ascii c) && (N_of_ascii c <=? 57))%N.

Definition digitVal (c : ascii) : Z := Z.of_N (N_of_ascii c) - 48.

(** [strings.HasPrefix(s, prefix)] *)
Definition HasPrefix (s pre : string) : bool := String.prefix pre s.

(** [strings.IndexByte(s, c) != -1] *)
Fixpoint containsByte (c : ascii) (s : string) : bool :=
  match s with
  | EmptyString => false
  | String a r => if Ascii.eqb a c then true else containsByte c r
  end.

(** [s[n:]] for [0 <= n <= len(s)]; the callers establish the bound. *)
Fixpoint sliceFrom (n : nat) (s : string) : string :=
  match n, s with
  | O, _ => s
  | S k, String _ r => sliceFrom k r
  | S _, EmptyString => EmptyString
  end.

(** [strings.Split(s, sep)] for a one-byte separator: the pieces between
    the separators, one more than there are separators. *)
Fixpoint Split (s : string) (sep : ascii) : list string :=
  match s with
  | EmptyString => [EmptyString]
  | String a r =>
      if Ascii.eqb a sep then EmptyString :: Split r sep
      else match Split r sep with
           | h :: t => String a h :: t
           | [] => [String a EmptyString]
           end
  end.

(** [strings.Replace(s, "*", by, -1)] *)
Fixpoint ReplaceStar (s by_ : string) : string :=
  match s with
  | EmptyString => EmptyString
  | String a r =>
      if Ascii.eqb a "*" then by_ +:+ ReplaceStar r by_
      else String a (ReplaceStar r by_)
  end.

End GoString.

Module strconv.
Import GoString.

Inductive NumError := ErrSyntax | ErrRange.

Definition maxUint64 : Z := 2 ^ 64 - 1.

(** The digit loop of [strconv.ParseUint(s, 10, bitSize)]: the value read
    so far is [n]; an overflow is reported as soon as it is met, before
    the remaining bytes are looked at. *)
Fixpoint parseUintLoop (bitSize : Z) (s : string) (n : Z) : Z * option NumError :=
  match s with
  | EmptyString => (n, None)
  | String c r =>
      if negb (isDigit c) then (0, Some ErrSyntax)
      else if maxUint64 / 10 + 1 <=? n then (2 ^ bitSize - 1, Some ErrRange)
      else
        let n1 := n * 10 + digitVal c in
        if 2 ^ bitSize - 1 <? n1 then (2 ^ bitSize - 1, Some ErrRange)
        else parseUintLoop bitSize r n1
  end.

Definition ParseUint (s : string) (bitSize : Z) : Z * option NumError :=
  match s with
  | EmptyString => (0, Some ErrSyntax)
  | _ => parseUintLoop bitSize s 0
  end.

(** [strconv.ParseInt(s, 10, bitSize)] *)
Definition ParseInt (s : string) (bitSize : Z) : Z * option NumError :=
  match s with
  | EmptyString => (0, Some ErrSyntax)
  | String c r =>
      let neg := Ascii.eqb c "-" in
      let digits := if Ascii.eqb c "+" || neg then r else s in
      match ParseUint digits bitSize with
      | (_, Some ErrSyntax) => (0, Some ErrSyntax)
      | (un, _) =>
          let cutoff := 2 ^ (bitSize - 1) in
          if negb neg && (cutoff <=? un) then (cutoff - 1, Some ErrRange)
          else if neg && (cutoff <? un) then (- cutoff, Some ErrRange)
          else (if neg then - un else un, None)
      end
  end.

End strconv.

Module filepath.
Import GoString.

Definition isSep (c : ascii) : bool := Ascii.eqb c "/".

(** [filepath.Ext]: walking back from the end of the path, the suffix
    starting at the first dot met before any separator.  [r] is the path
    reversed, [acc] the bytes already walked over. *)
Fixpoint extRev (r acc : list ascii) : list ascii :=
  match r with
  | [] => []
  | c :: r' =>
      if isSep c then []
      else if Ascii.eqb c "." then c :: acc
      else extRev r' (c :: acc)
  end.

Definition Ext (path : string) : string := str (extRev (rev (chars path)) []).

Fixpoint dropSeps (r : list ascii) : list ascii :=
  match r with
  | c :: r' => if isSep c then dropSeps r' else r
  | [] => []
  end.

Fixpoint takeElem (r : list ascii) : list ascii :=
  match r with
  | c :: r' => if isSep c then [] else c :: takeElem r'
  | [] => []
  end.

Fixpoint dropElem (r : list ascii) : list ascii :=
  match r with
  | c :: r' => if isSep c then r else dropElem r'
  | [] => []
  end.

(** [filepath.Base] *)
Definition Base (path : string) : string :=
  match path with
  | EmptyString => "."
  | _ =>
      match rev (takeElem (dropSeps (rev (chars path)))) with
      | [] => "/"
      | e => str e
      end
  end.

(** The elements of a path, between separators. *)
Definition elements (p : string) : list string := Split p "/".

(** One step of [filepath.Clean] over the elements kept so far (most
    recent first). *)
Definition cleanStep (rooted : bool) (out : list string) (e : string) : list string :=
  if String.eqb e "" || String.eqb e "." then out
  else if String.eqb e ".." then
    match out with
    | top :: rest =>
        if String.eqb top ".." then e :: out else rest
    | [] => if rooted then out else [e]
    end
  else e :: out.

(** [filepath.Clean] *)
Definition Clean (path : string) : string :=
  match path with
  | EmptyString => "."
  | String c _ =>
      let rooted := isSep c in
      let out := rev (fold_left (cleanStep rooted) (elements path) []) in
      let body := String.concat "/" out in
      if rooted then "/" +:+ body
      else match out with [] => "." | _ => body end
  end.

(** [filepath.Dir]: everything up to the last separator, cleaned. *)
Definition Dir (path : string) : string :=
  Clean (str (rev (dropElem (rev (chars path))))).

End filepath.

(** ** Go: fmt, errors, os *)

Module GoFmt.

(** [%d]: the decimal digits of [n], with a minus sign when negative. *)
Definition itoa (n : Z) : string :=
  if n <? 0
  then "-" +:+ DecimalString.NilZero.string_of_uint (N.to_uint (Z.to_N (- n)))
  else DecimalString.NilZero.string_of_uint (N.to_uint (Z.to_N n)).

Fixpoint zeros (k : nat) : string :=
  match k with O => "" | S k' => "0" +:+ zeros k' end.

(** [%0kd]: at least [width] bytes, the sign counted, zeros after the sign. *)
Definition itoaPad (width : Z) (n : Z) : string :=
  let digits := DecimalString.NilZero.string_of_uint (N.to_uint (Z.to_N (Z.abs n))) in
  let sign := if n <? 0 then "-" else "" in
  let used := Z.of_nat (String.length digits) + Z.of_nat (String.length sign) in
  sign +:+ zeros (Z.to_nat (width - used)) +:+ digits.

End GoFmt.

(** Go's [error] values: [nil] is [None]; [io.EOF] is told apart from every
    other error, whose text is kept. *)
Inductive error := io_EOF | Errorf (msg : string).

Global Instance error_eq_dec : EqDecision error.
Proof. solve_decision. Defined.

(** [err.Error()] *)
Definition errorText (e : error) : string :=
  match e with
  | io_EOF => "EOF"
  | Errorf msg => msg
  end.

(** [os.FileInfo]: what a stat call answers, a snapshot. *)
Record FileInfo := {
  fi_Name : string;
  fi_Size : Z;
  fi_ModTime : Z;          (* UnixNano *)
  fi_IsRegular : bool
}.

(** ** tgo: the helpers of [github.com/trivago/tgo] that the producer calls *)

Module tgo.
Import GoString GoInt.

(** [tstrings.Btoi]: reads decimal digits up to the first byte that is no
    digit; [uint64] arithmetic. *)
Fixpoint BtoiLoop (s : string) (number : Z) : Z :=
  match s with
  | String c r =>
      if isDigit c then BtoiLoop r (uint64 (uint64 (number * 10) + digitVal c))
      else number
  | EmptyString => number
  end.

Definition Btoi (buffer : string) : Z := BtoiLoop buffer 0.

(** [tio.SplitPath]: directory, file name without extension, extension. *)
Definition SplitPath (filePath : string) : string * string * string :=
  let dir := filepath.Dir filePath in
  let ext := filepath.Ext filePath in
  let base := filepath.Base filePath in
  (dir, String.substring 0 (String.length base - String.length ext) base, ext).

End tgo.

(** ** The file producer *)

Module producer.
Import GoString GoInt GoFmt.

(** What the operating system holds behind an open [*os.File]: its path,
    its present length, and whether a stat of it fails at the moment. *)
Record osFile := {
  of_name : string;
  of_size : Z;
  of_modTime : Z;
  of_statErr : option error
}.

(** [file.Stat()] *)
Definition osStat (f : osFile) : FileInfo + error :=
  match of_statErr f with
  | Some e => inr e
  | None => inl {| fi_Name := filepath.Base (of_name f); fi_Size := of_size f;
                   fi_ModTime := of_modTime f; fi_IsRegular := true |}
  end.

(** [file.Write(p)]: appends [p]; [werr] is the failure the write meets,
    if any. *)
Definition osWrite (f : osFile) (p : string) (werr : option error)
  : osFile * (Z * option error) :=
  match werr with
  | Some e => (f, (0, Some e))
  | None =>
      ({| of_name := of_name f; of_size := of_size f + len p;
          of_modTime := of_modTime f; of_statErr := of_statErr f |},
       (len p, None))
  end.

(** *** fileStateWriterDisk *)

Record fileStateWriterDisk := {
  file : string;                 (* the path of the open [*os.File] *)
  compressOnClose : bool;
  stats : option FileInfo        (* [nil] until the first stat succeeds *)
}.

Definition setStats (w : fileStateWriterDisk) (s : FileInfo) : fileStateWriterDisk :=
  {| file := file w; compressOnClose := compressOnClose w; stats := Some s |}.

(** [w.Name()] *)
Definition Name (w : fileStateWriterDisk) : string := file w.

(** [w.getStats()] against the file as the operating system has it now. *)
Definition getStats (w : fileStateWriterDisk) (f : osFile)
  : fileStateWriterDisk * (FileInfo + error) :=
  match stats w with
  | Some s => (w, inl s)
  | None =>
      match osStat f with
      | inr e => (w, inr e)
      | inl s => (setStats w s, inl s)
      end
  end.

(** [w.Size()] *)
Definition Size (w : fileStateWriterDisk) (f : osFile) : fileStateWriterDisk * Z :=
  match getStats w f with
  | (w', inr _) => (w', 0)
  | (w', inl s) => (w', fi_Size s)
  end.

(** [w.IsAccessible()] *)
Definition IsAccessible (w : fileStateWriterDisk) (f : osFile)
  : fileStateWriterDisk * bool :=
  match getStats w f with
  | (w', inr _) => (w', false)
  | (w', inl _) => (w', true)
  end.

(** [w.Write(p)] *)
Definition Write (w : fileStateWriterDisk) (f : osFile) (p : string)
    (werr : option error) : fileStateWriterDisk * osFile * (Z * option error) :=
  let '(f', r) := osWrite f p werr in (w, f', r).

(** What may happen to a writer and its file between two calls of
    [Size]: the producer writes, asks for the size or for accessibility,
    and the file's health changes under it. *)
Inductive writerOp :=
| OpWrite (p : string) (werr : option error)
| OpSize
| OpIsAccessible
| OpHealth (statErr : option error).

Definition stepWriter (st : fileStateWriterDisk * osFile) (op : writerOp)
  : fileStateWriterDisk * osFile :=
  let '(w, f) := st in
  match op with
  | OpWrite p werr => let '(w', f', _) := Write w f p werr in (w', f')
  | OpSize => (fst (Size w f), f)
  | OpIsAccessible => (fst (IsAccessible w f), f)
  | OpHealth e =>
      (w, {| of_name := of_name f; of_size := of_size f;
             of_modTime := of_modTime f; of_statErr := e |})
  end.

Definition runWriter (st : fileStateWriterDisk * osFile) (ops : list writerOp)
  : fileStateWriterDisk * osFile :=
  fold_left stepWriter ops st.

(** *** Compression of a rotated log *)

Inductive Handle := HSource | HGzipWriter | HTarget.

Inductive compressEvent :=
| CvOpenTarget (path : string) (err : option error)
| CvLogError (what : string)
| CvLogInfo (what : string)
| CvLogWarning (what : string)
| CvSeekStart
| CvCopyN (round : nat) (err : option error)
| CvYield
| CvClose (h : Handle)
| CvRemove (path : string) (err : option error).

(** The answers of the operating system during one compression run. *)
Record compressOS := {
  c_openTarget : option error;        (* [os.OpenFile] of the target *)
  c_sourceSize : Z;                   (* bytes in the source file *)
  c_copyFault : nat -> option string; (* an I/O failure in that round of [io.CopyN] *)
  c_remove : string -> option error;  (* a failure of [os.Remove], beyond a missing file *)
  c_close : option error              (* what [w.file.Close()] answers *)
}.

(** [os.Remove(path)] on the set of existing paths. *)
Definition osRemove (os : compressOS) (fs : gset string) (path : string)
  : gset string * option error :=
  if bool_decide (path ∈ fs) then
    match c_remove os path with
    | Some e => (fs, Some e)
    | None => (fs ∖ {[path]}, None)
    end
  else (fs, Some (Errorf "no such file or directory")).

Definition chunk : Z := Z.shiftl 1 20.

(** The copy loop [for err == nil { _, err = io.CopyN(..., 1<<20); spin.Yield() }]:
    a round that meets no failure copies a full chunk and goes on while
    [full] chunks remain, and ends the loop with [io.EOF] on the short
    last chunk. *)
Fixpoint copyLoop (os : compressOS) (full : nat) (round : nat)
  : error * list compressEvent :=
  match c_copyFault os round with
  | Some m => (Errorf m, [CvCopyN round (Some (Errorf m)); CvYield])
  | None =>
      match full with
      | O => (io_EOF, [CvCopyN round (Some io_EOF); CvYield])
      | S k =>
          let '(e, t) := copyLoop os k (S round) in
          (e, CvCopyN round None :: CvYield :: t)
      end
  end.

Definition targetFileNameOf (sourceFileName : string) : string :=
  let '(sourceDir, sourceBase, _) := tgo.SplitPath sourceFileName in
  sourceDir +:+ "/" +:+ sourceBase +:+ ".gz".

(** [w.compressAndCloseLog()]: the error returned, the paths that exist
    afterwards, and the calls made, in order. *)
Definition compressAndCloseLog (w : fileStateWriterDisk) (os : compressOS)
    (fs : gset string) : option error * gset string * list compressEvent :=
  let sourceFileName := Name w in
  let targetFileName := targetFileNameOf sourceFileName in
  match c_openTarget os with
  | Some err =>
      (Some err, fs,
       [CvOpenTarget targetFileName (Some err); CvLogError "Compress error:";
        CvClose HSource])
  | None =>
      let fs1 := fs ∪ {[targetFileName]} in
      let '(err, copied) :=
        copyLoop os (Z.to_nat (c_sourceSize os / chunk)) 0 in
      let t1 :=
        [CvOpenTarget targetFileName None; CvLogInfo ("Compressing " +:+ sourceFileName);
         CvSeekStart] ++ copied
        ++ [CvClose HSource; CvClose HGzipWriter; CvClose HTarget] in
      if bool_decide (err ≠ io_EOF) then
        let '(fs2, rerr) := osRemove os fs1 targetFileName in
        (rerr, fs2,
         t1 ++ [CvLogWarning "Compression failed:"; CvRemove targetFileName rerr]
            ++ match rerr with
               | Some _ => [CvLogError "Compressed file remove failed:"]
               | None => []
               end)
      else
        let '(fs2, rerr) := osRemove os fs1 sourceFileName in
        (rerr, fs2,
         t1 ++ [CvRemove sourceFileName rerr]
            ++ match rerr with
               | Some _ => [CvLogError "Uncompressed file remove failed:"]
               | None => []
               end)
  end.


(** The handles closed by a run, in the order of closing. *)
Fixpoint closes (t : list compressEvent) : list Handle :=
  match t with
  | CvClose h :: r => h :: closes r
  | _ :: r => closes r
  | [] => []
  end.

(** The removals attempted by a run, each with its result. *)
Fixpoint removals (t : list compressEvent) : list (string * option error) :=
  match t with
  | CvRemove path err :: r => (path, err) :: removals r
  | _ :: r => removals r
  | [] => []
  end.

(** A call that may end in a run-time panic of Go (index out of range). *)
Inductive outcome (A : Type) :=
| Done (a : A)
| Panic (why : string).
Arguments Done {A} a.
Arguments Panic {A} why.

(** *** Rotation and pruning configuration *)

(** Modelled from the spec: [fileRotateConfig], declared in file_state.go,
    which is not part of the files at hand (spec section 3,
    RotationPolicy); the fields are those the producer and the pruner
    read. *)
Record fileRotateConfig := {
  enabled : bool;
  timeout : Z;
  sizeByte : Z;
  atHour : Z;
  atMinute : Z;
  zeroPad : Z;
  compress : bool
}.

Record filePruner := {
  pruneCount : Z;         (* int,   Prune/Count *)
  pruneHours : Z;         (* int,   Prune/AfterHours *)
  pruneSize : Z;          (* int64, Prune/TotalSizeMB, held in bytes *)
  pruner_rotate : fileRotateConfig
}.

(** [pruner.Configure(conf)] *)
Definition pruner_Configure (pruner : filePruner) : filePruner :=
  if (0 <? pruneSize pruner) && (0 <? sizeByte (pruner_rotate pruner)) then
    let size := int64 (pruneSize pruner - Z.shiftr (sizeByte (pruner_rotate pruner)) 20) in
    if size <=? 0 then
      {| pruneCount := 1; pruneHours := pruneHours pruner; pruneSize := 0;
         pruner_rotate := pruner_rotate pruner |}
    else
      {| pruneCount := pruneCount pruner; pruneHours := pruneHours pruner;
         pruneSize := size; pruner_rotate := pruner_rotate pruner |}
  else pruner.

(** *** The directory a pruner sweeps *)

(** The answers of the operating system during one sweep: the clock,
    whether listing the directory fails, which names the pattern (a
    regular expression of Go's [regexp]) matches, and which removals
    fail. *)
Record pruneOS := {
  p_now : Z;
  p_listErr : option error;
  p_matchString : string -> string -> bool;
  p_remove : string -> option error
}.

Inductive pruneEvent :=
| PvRemove (path : string) (err : option error)
| PvLogError (what : string)
| PvLogInfo (what : string).

(** [FilesByDate.Less]: by modification time, then by name. *)
Definition Less (a b : FileInfo) : bool :=
  if fi_ModTime a =? fi_ModTime b then String.ltb (fi_Name a) (fi_Name b)
  else fi_ModTime a <? fi_ModTime b.

Fixpoint insertByDate (x : FileInfo) (l : list FileInfo) : list FileInfo :=
  match l with
  | [] => [x]
  | y :: r => if Less y x then y :: insertByDate x r else x :: l
  end.

(** [sort.Sort(FilesByDate(files))]; the names in a directory differ, so
    the order is total and the sorted list is the same for every sorting
    algorithm. *)
Fixpoint sortByDate (l : list FileInfo) : list FileInfo :=
  match l with
  | [] => []
  | x :: r => insertByDate x (sortByDate r)
  end.

Definition keepMatching (os : pruneOS) (pattern : string) (f : FileInfo) : bool :=
  fi_IsRegular f && p_matchString os pattern (fi_Name f).

(** [tio.ListFilesByDateMatching(directory, pattern)] over the entries of
    the directory. *)
Definition ListFilesByDateMatching (os : pruneOS) (entries : list FileInfo)
    (pattern : string) : list FileInfo + error :=
  match p_listErr os with
  | Some e => inr e
  | None => inl (List.filter (keepMatching os pattern) (sortByDate entries))
  end.

Definition otherName (name : string) (f : FileInfo) : bool :=
  negb (String.eqb (fi_Name f) name).

(** The entries that bear none of the names of [gone]. *)
Definition notRemoved (gone : list FileInfo) (e : FileInfo) : bool :=
  forallb (fun f => otherName (fi_Name f) e) gone.

(** [a] was not modified after [b]. *)
Definition notNewer (a b : FileInfo) : Prop := fi_ModTime a <= fi_ModTime b.

(** [os.Remove(baseDir/name)] on the entries of [baseDir]. *)
Definition removeEntry (os : pruneOS) (entries : list FileInfo) (baseDir name : string)
  : list FileInfo * list pruneEvent :=
  let filePath := baseDir +:+ "/" +:+ name in
  match p_remove os filePath with
  | Some e =>
      (entries, [PvRemove filePath (Some e); PvLogError ("Failed to prune " +:+ filePath)])
  | None =>
      (List.filter (otherName name) entries,
       [PvRemove filePath None; PvLogInfo ("Pruned " +:+ filePath)])
  end.

Definition patternOf (baseFilePath : string) : string * string :=
  let '(baseDir, baseName, _) := tgo.SplitPath baseFilePath in
  (baseDir, baseName +:+ ".*").

(** The loop of [pruneByHour]: files from the oldest on, while they are
    older than [pruneDate]. *)
Fixpoint hourLoop (os : pruneOS) (baseDir : string) (pruneDate : Z)
    (files : list FileInfo) (entries : list FileInfo)
  : list FileInfo * list pruneEvent :=
  match files with
  | [] => (entries, [])
  | f :: r =>
      if fi_ModTime f <? pruneDate then
        let '(entries1, t1) := removeEntry os entries baseDir (fi_Name f) in
        let '(entries2, t2) := hourLoop os baseDir pruneDate r entries1 in
        (entries2, t1 ++ t2)
      else (entries, [])
  end.

Definition Hour : Z := 3600 * 1000000000.

(** [pruner.pruneByHour(baseFilePath, hours)] *)
Definition pruneByHour (os : pruneOS) (entries : list FileInfo)
    (baseFilePath : string) (hours : Z) : list FileInfo * list pruneEvent :=
  let '(baseDir, pattern) := patternOf baseFilePath in
  match ListFilesByDateMatching os entries pattern with
  | inr _ => (entries, [PvLogError "Error pruning files: "])
  | inl files =>
      let pruneDate := p_now os + int64 (int64 (- hours) * Hour) in
      hourLoop os baseDir pruneDate files entries
  end.

(** The loop of [pruneByCount]: [files[i]] for [i] below
    [numFilesToPrune]; indexing past the end of [files] panics. *)
Fixpoint countLoop (os : pruneOS) (baseDir : string) (numFilesToPrune : nat)
    (files : list FileInfo) (entries : list FileInfo)
  : outcome (list FileInfo * list pruneEvent) :=
  match numFilesToPrune with
  | O => Done (entries, [])
  | S k =>
      match files with
      | [] => Panic "index out of range"
      | f :: r =>
          let '(entries1, t1) := removeEntry os entries baseDir (fi_Name f) in
          match countLoop os baseDir k r entries1 with
          | Done (entries2, t2) => Done (entries2, t1 ++ t2)
          | Panic why => Panic why
          end
      end
  end.

(** [pruner.pruneByCount(baseFilePath, count)] *)
Definition pruneByCount (os : pruneOS) (entries : list FileInfo)
    (baseFilePath : string) (count : Z)
  : outcome (list FileInfo * list pruneEvent) :=
  let '(baseDir, pattern) := patternOf baseFilePath in
  match ListFilesByDateMatching os entries pattern with
  | inr _ => Done (entries, [PvLogError "Error pruning files: "])
  | inl files =>
      let numFilesToPrune := int (Z.of_nat (length files) - count) in
      if numFilesToPrune <? 1 then Done (entries, [])
      else countLoop os baseDir (Z.to_nat numFilesToPrune) files entries
  end.

(** The second loop of [pruneToSize]. *)
Fixpoint sizeLoop (os : pruneOS) (baseDir : string) (maxSize totalSize : Z)
    (files : list FileInfo) (entries : list FileInfo)
  : list FileInfo * list pruneEvent :=
  match files with
  | [] => (entries, [])
  | f :: r =>
      if totalSize <=? maxSize then (entries, [])
      else
        let '(entries1, t1) := removeEntry os entries baseDir (fi_Name f) in
        let totalSize1 :=
          match p_remove os (baseDir +:+ "/" +:+ fi_Name f) with
          | Some _ => totalSize
          | None => int64 (totalSize - fi_Size f)
          end in
        let '(entries2, t2) := sizeLoop os baseDir maxSize totalSize1 r entries1 in
        (entries2, t1 ++ t2)
  end.

(** [pruner.pruneToSize(baseFilePath, maxSize)] *)
Definition pruneToSize (os : pruneOS) (entries : list FileInfo)
    (baseFilePath : string) (maxSize : Z) : list FileInfo * list pruneEvent :=
  let '(baseDir, pattern) := patternOf baseFilePath in
  match ListFilesByDateMatching os entries pattern with
  | inr _ => (entries, [PvLogError "Error pruning files: "])
  | inl files =>
      let totalSize := fold_left (fun acc f => int64 (acc + fi_Size f)) files 0 in
      sizeLoop os baseDir maxSize totalSize files entries
  end.

(** [pruner.Prune(baseFilePath)] *)
Definition Prune (pruner : filePruner) (os : pruneOS) (entries : list FileInfo)
    (baseFilePath : string) : outcome (list FileInfo * list pruneEvent) :=
  let '(entries1, t1) :=
    if 0 <? pruneHours pruner
    then pruneByHour os entries baseFilePath (pruneHours pruner)
    else (entries, []) in
  match (if 0 <? pruneCount pruner
         then pruneByCount os entries1 baseFilePath (pruneCount pruner)
         else Done (entries1, [])) with
  | Panic why => Panic why
  | Done (entries2, t2) =>
      let '(entries3, t3) :=
        if 0 <? pruneSize pruner
        then pruneToSize os entries2 baseFilePath (pruneSize pruner)
        else (entries2, []) in
      Done (entries3, t1 ++ t2 ++ t3)
  end.

(** The paths removed by a sweep, in the order of removal. *)
Fixpoint removed (t : list pruneEvent) : list string :=
  match t with
  | PvRemove path None :: r => path :: removed r
  | _ :: r => removed r
  | [] => []
  end.

(** *** Messages and batches *)

Record Message := {
  msg_streamID : Z;
  msg_data : string
}.

(** Modelled from the spec: [core.MessageBatch], whose source is not part
    of the files at hand (spec sections 3 and 4.1): a bounded, ordered
    buffer of pending messages.  The buffer holds pointers to messages,
    here the addresses of the messages in the message store. *)
Record MessageBatch := {
  capacity : Z;
  items : list nat;
  lastAppendedAt : Z
}.

(** *** fileState *)

(** Modelled from the spec: [fileState], declared in file_state.go, which
    is not part of the files at hand (spec section 3, DestinationState);
    the fields are those the producer reads and writes. *)
Record fileState := {
  writer : option fileStateWriterDisk;
  fileCreated : Z;
  batch : MessageBatch
}.

Definition setWriter (st : fileState) (w : option fileStateWriterDisk) : fileState :=
  {| writer := w; fileCreated := fileCreated st; batch := batch st |}.

Definition setFileCreated (st : fileState) (t : Z) : fileState :=
  {| writer := writer st; fileCreated := t; batch := batch st |}.

Definition setBatch (st : fileState) (b : MessageBatch) : fileState :=
  {| writer := writer st; fileCreated := fileCreated st; batch := b |}.

(** Modelled from the spec: [newFileState] (file_state.go is not part of
    the files at hand; spec section 3, DestinationState): no writer yet,
    an empty batch of the given capacity. *)
Definition newFileState (maxMessageCount : Z) : fileState :=
  {| writer := None; fileCreated := 0;
     batch := {| capacity := maxMessageCount; items := []; lastAppendedAt := 0 |} |}.

(** *** The producer *)

Record File := {
  filesByStream : gmap Z nat;       (* map[core.MessageStreamID]*fileState *)
  files : gmap string nat;          (* map[string]*fileState *)
  store : gmap nat fileState;       (* the fileState objects pointed to *)
  rotate : fileRotateConfig;
  timestamp : string;
  fileDir : string;
  fileName : string;
  fileExt : string;
  batchTimeout : Z;
  batchMaxCount : Z;
  batchFlushCount : Z;
  flushTimeout : Z;
  wildcardPath : bool;
  overwriteFile : bool;
  filePermissions : Z;
  folderPermissions : Z;
  Pruner : filePruner
}.

Definition setMaps (prod : File) (byStream : gmap Z nat) (byPath : gmap string nat)
    (st : gmap nat fileState) : File :=
  {| filesByStream := byStream; files := byPath; store := st;
     rotate := rotate prod; timestamp := timestamp prod;
     fileDir := fileDir prod; fileName := fileName prod; fileExt := fileExt prod;
     batchTimeout := batchTimeout prod; batchMaxCount := batchMaxCount prod;
     batchFlushCount := batchFlushCount prod; flushTimeout := flushTimeout prod;
     wildcardPath := wildcardPath prod; overwriteFile := overwriteFile prod;
     filePermissions := filePermissions prod;
     folderPermissions := folderPermissions prod; Pruner := Pruner prod |}.

Definition setStore (prod : File) (st : gmap nat fileState) : File :=
  setMaps prod (filesByStream prod) (files prod) st.

(** **** Configuration *)

(** [core.PluginConfigReader]: the options given, by key. *)
Definition GetString (conf : gmap string string) (key default : string) : string :=
  match conf !! key with
  | Some v => v
  | None => default
  end.

(** The struct tags of the configurable fields of [File] and
    [filePruner], as written in the source. *)
Record fieldTag := {
  tag_config : string;
  tag_default : string;
  tag_metric : string
}.

Definition tag_timestamp :=
  {| tag_config := "Rotation/Timestamp"; tag_default := "2006-01-02_15"; tag_metric := "" |}.
Definition tag_batchTimeout :=
  {| tag_config := "Batch/TimeoutSec"; tag_default := "5"; tag_metric := "sec" |}.
Definition tag_batchMaxCount :=
  {| tag_config := "Batch/MaxCount"; tag_default := "8192"; tag_metric := "" |}.
Definition tag_batchFlushCount :=
  {| tag_config := "Batch/FlushCount"; tag_default := "4096"; tag_metric := "" |}.
Definition tag_flushTimeout :=
  {| tag_config := "FlushTimeoutSec"; tag_default := "5"; tag_metric := "sec" |}.
Definition tag_overwriteFile :=
  {| tag_config := "FileOverwrite"; tag_default := ""; tag_metric := "" |}.
Definition tag_filePermissions :=
  {| tag_config := "Permissions"; tag_default := "0644"; tag_metric := "" |}.
Definition tag_folderPermissions :=
  {| tag_config := "FolderPermissions"; tag_default := "0755"; tag_metric := "" |}.
Definition tag_pruneCount :=
  {| tag_config := "Prune/Count"; tag_default := "0"; tag_metric := "" |}.
Definition tag_pruneHours :=
  {| tag_config := "Prune/AfterHours"; tag_default := "0"; tag_metric := "" |}.
Definition tag_pruneSize :=
  {| tag_config := "Prune/TotalSizeMB"; tag_default := "0"; tag_metric := "mb" |}.

Definition Second : Z := 1000000000.

(** Modelled from the spec: the binding of configuration options to
    tagged struct fields, done by the core package before [Configure]
    runs (spec section 9, "struct-tag-driven config binding"): a field
    takes the option registered under its [config] key, and the tag's
    [default] when the option is not given; the metric [sec] counts
    seconds (a [time.Duration] holds nanoseconds), [mb] counts MiB. *)
Definition metricUnit (metric : string) : Z :=
  if String.eqb metric "sec" then Second
  else if String.eqb metric "mb" then Z.shiftl 1 20
  else 1.

(** Modelled from the spec: the binding of an integer or duration field
    (see [metricUnit]). *)
Definition boundInt (conf : gmap string string) (tag : fieldTag) : Z :=
  int64 (fst (strconv.ParseInt (GetString conf (tag_config tag) (tag_default tag)) 64)
         * metricUnit (tag_metric tag)).

(** The value of a string of octal digits. *)
Fixpoint octal (s : string) (n : Z) : Z :=
  match s with
  | String c r => if isDigit c then octal r (n * 8 + digitVal c) else n
  | EmptyString => n
  end.

(** Modelled from the spec: the binding of an [os.FileMode] field, given
    as an octal number string (spec section 6). *)
Definition boundMode (conf : gmap string string) (tag : fieldTag) : Z :=
  octal (GetString conf (tag_config tag) (tag_default tag)) 0.

(** Modelled from the spec: the binding of a boolean and of a string
    field. *)
Definition boundBool (conf : gmap string string) (tag : fieldTag) : bool :=
  String.eqb (GetString conf (tag_config tag) (tag_default tag)) "true".

Definition boundString (conf : gmap string string) (tag : fieldTag) : string :=
  GetString conf (tag_config tag) (tag_default tag).

(** Modelled from the spec: the producer as the core package hands it to
    [Configure], tagged fields bound (see [metricUnit]), everything else
    at Go's zero value; the rotation settings are bound the same way in
    file_state.go and are taken as given. *)
Definition boundFile (conf : gmap string string) (rot : fileRotateConfig) : File :=
  {| filesByStream := ∅; files := ∅; store := ∅;
     rotate := rot;
     timestamp := boundString conf tag_timestamp;
     fileDir := ""; fileName := ""; fileExt := "";
     batchTimeout := boundInt conf tag_batchTimeout;
     batchMaxCount := boundInt conf tag_batchMaxCount;
     batchFlushCount := boundInt conf tag_batchFlushCount;
     flushTimeout := boundInt conf tag_flushTimeout;
     wildcardPath := false;
     overwriteFile := boundBool conf tag_overwriteFile;
     filePermissions := boundMode conf tag_filePermissions;
     folderPermissions := boundMode conf tag_folderPermissions;
     Pruner := {| pruneCount := boundInt conf tag_pruneCount;
                  pruneHours := boundInt conf tag_pruneHours;
                  pruneSize := boundInt conf tag_pruneSize;
                  pruner_rotate := rot |} |}.

(** [s[:n]]: panics unless [0 <= n <= len(s)]. *)
Definition sliceTo (s : string) (n : Z) : outcome string :=
  if (n <? 0) || (len s <? n) then Panic "slice bounds out of range"
  else Done (String.substring 0 (Z.to_nat n) s).

(** [parts[i]]: panics past the end of the slice. *)
Definition index (parts : list string) (i : nat) : outcome string :=
  match nth_error parts i with
  | Some p => Done p
  | None => Panic "index out of range"
  end.

Definition setRotateAt (rot : fileRotateConfig) (h m : Z) : fileRotateConfig :=
  {| enabled := enabled rot; timeout := timeout rot; sizeByte := sizeByte rot;
     atHour := h; atMinute := m; zeroPad := zeroPad rot; compress := compress rot |}.

(** The part of [Configure] that reads [Rotation/At]: the hour and the
    minute to rotate at, [-1] when not set. *)
Definition parseRotateAt (rotateAt : string) : outcome (Z * Z) :=
  if String.eqb rotateAt "" then Done (-1, -1)
  else
    let parts := Split rotateAt ":" in
    match index parts 0 with
    | Panic why => Panic why
    | Done p0 =>
        let rotateAtHour := fst (strconv.ParseInt p0 8) in
        match index parts 1 with
        | Panic why => Panic why
        | Done p1 =>
            let rotateAtMin := fst (strconv.ParseInt p1 8) in
            Done (int rotateAtHour, int rotateAtMin)
        end
    end.

(** [prod.Configure(conf)]; the logger it hands to the pruner and the
    callbacks it registers hold no data and are left out. *)
Definition Configure (conf : gmap string string) (prod : File) : outcome File :=
  let flushCount := Z.min (batchFlushCount prod) (batchMaxCount prod) in
  let logFile := GetString conf "File" "/var/log/gollum.log" in
  let wildcard := containsByte "*" logFile in
  let dir := filepath.Dir logFile in
  let ext := filepath.Ext logFile in
  let base := filepath.Base logFile in
  match sliceTo base (len base - len ext) with
  | Panic why => Panic why
  | Done name =>
      match parseRotateAt (GetString conf "Rotation/At" "") with
      | Panic why => Panic why
      | Done (h, m) =>
          Done {| filesByStream := ∅; files := ∅; store := ∅;
                  rotate := setRotateAt (rotate prod) h m;
                  timestamp := timestamp prod;
                  fileDir := dir; fileName := name; fileExt := ext;
                  batchTimeout := batchTimeout prod;
                  batchMaxCount := batchMaxCount prod;
                  batchFlushCount := flushCount;
                  flushTimeout := flushTimeout prod;
                  wildcardPath := wildcard;
                  overwriteFile := overwriteFile prod;
                  filePermissions := filePermissions prod;
                  folderPermissions := folderPermissions prod;
                  Pruner := Pruner prod |}
      end
  end.

(** **** The collaborators of the producer *)

(** The answers of the operating system during one call of the producer. *)
Record OS := {
  os_now : Z;                                  (* [time.Now()], UnixNano *)
  os_Format : string -> string;                (* [time.Now().Format(layout)] *)
  os_MkdirAll : string -> option error;
  os_ReadDir : string -> list string;          (* the names in a directory; none when reading fails *)
  os_OpenFile : string -> Z -> option error;
  os_Write : string -> option error            (* a failure of writing to the open file *)
}.

(** What the producer takes from the core package and from
    file_state.go, neither part of the files at hand: the stream
    registry, the producer's life cycle, and [fileState.needsRotate],
    which may stat the writer (and so fill its cache) and answers whether
    to rotate, or an error. *)
Record Core := {
  WildcardStreamID : Z;
  GetStreamName : Z -> string;
  IsActiveOrStopping : bool;
  needsRotate : fileState -> fileRotateConfig -> bool -> fileState * (bool * option error)
}.

(** A [needsRotate] that leaves the batch of the state alone: it may stat
    the writer, and has no business with the messages buffered. *)
Definition keepsBatch (core : Core) : Prop :=
  forall st rot force, batch (fst (needsRotate core st rot force)) = batch st.


Inductive Event :=
| EvLogInfo (what : string)
| EvLogError (what : string)
| EvMkdirAll (dir : string) (perm : Z) (err : option error)
| EvReadDir (dir : string)
| EvGoClose (w : fileStateWriterDisk)          (* [go currentLog.Close()] *)
| EvOpenFile (path : string) (flags perm : Z) (err : option error)
| EvSymlink (oldname newname : string)
| EvRename (oldpath newpath : string)
| EvGoPrune (baseFilePath : string)            (* [go prod.Pruner.Prune(...)] *)
| EvTryFallback (msg : nat)
| EvWrite (path : string) (data : string) (err : option error).

Definition O_RDWR : Z := 2.
Definition O_CREATE : Z := 64.
Definition O_TRUNC : Z := 512.
Definition O_APPEND : Z := 1024.

(** **** The name of the next log file *)

(** The counter read off an existing file name that starts with
    [signature]: the digits after the byte that follows the signature. *)
Definition counterOf (signature name : string) : Z :=
  if (String.length signature <? String.length name)%nat
  then tgo.Btoi (sliceFrom (S (String.length signature)) name)
  else 0.

(** One round of the loop over the directory. *)
Definition suffixStep (signature : string) (maxSuffix : Z) (name : string) : Z :=
  if HasPrefix name signature then
    let counter := counterOf signature name in
    if maxSuffix <=? counter then uint64 (counter + 1) else maxSuffix
  else maxSuffix.

Definition maxSuffixOf (signature : string) (names : list string) : Z :=
  fold_left (suffixStep signature) names 0.

(** The counter component of the new name: none when [maxSuffix == 0],
    otherwise [int(maxSuffix)]. *)
Definition counterChosen (signature : string) (names : list string) : option Z :=
  let maxSuffix := maxSuffixOf signature names in
  if maxSuffix =? 0 then None else Some (int maxSuffix).

Definition signatureOf (prod : File) (os : OS) (name : string) : string :=
  name +:+ "_" +:+ os_Format os (timestamp prod).

Definition logFileNameOf (prod : File) (os : OS) (dir name ext : string) : string :=
  if negb (enabled (rotate prod)) then name +:+ ext
  else
    let signature := signatureOf prod os name in
    match counterChosen signature (os_ReadDir os dir) with
    | None => signature +:+ ext
    | Some n =>
        signature +:+ "_"
        +:+ (if 0 <? zeroPad (rotate prod) then itoaPad (zeroPad (rotate prod)) n
             else itoa n)
        +:+ ext
    end.

(** **** getFileState *)

Definition resolveNames (core : Core) (prod : File) (streamID : Z)
  : string * string * string :=
  if wildcardPath prod then
    let streamName :=
      if streamID =? WildcardStreamID core then "ALL"
      else GetStreamName core streamID in
    (ReplaceStar (fileDir prod) streamName,
     ReplaceStar (fileName prod) streamName,
     ReplaceStar (fileExt prod) streamName)
  else (fileDir prod, fileName prod, fileExt prod).

(** [logFileBasePath], the key of [prod.files] for a stream. *)
Definition logFileBasePathOf (core : Core) (prod : File) (streamID : Z) : string :=
  let '(dir, name, ext) := resolveNames core prod streamID in
  dir +:+ "/" +:+ name +:+ ext.

Definition newFileStateWriterDisk (prod : File) (path : string) : fileStateWriterDisk :=
  {| file := path; compressOnClose := compress (rotate prod); stats := None |}.

(** [state.needsRotate(prod.rotate, forceRotate)] through the pointer
    [a]; a pointer to nothing cannot arise in Go and is a panic here. *)
Definition consult (core : Core) (prod : File) (a : nat) (forceRotate : bool)
  : outcome (File * (bool * option error)) :=
  match store prod !! a with
  | None => Panic "invalid memory address or nil pointer dereference"
  | Some st =>
      let '(st', r) := needsRotate core st (rotate prod) forceRotate in
      Done (setStore prod (<[a := st']> (store prod)), r)
  end.

Definition openFlags (prod : File) : Z :=
  Z.lor (Z.lor (Z.lor O_RDWR O_CREATE) O_APPEND)
        (if overwriteFile prod then O_TRUNC else O_APPEND).

(** The second half of [getFileState], from "Assure path is existing"
    on: [a] points to the state for [logFileBasePath]. *)
Definition openLog (os : OS) (prod : File) (a : nat)
    (dir name ext logFileBasePath : string)
  : outcome (File * list Event * (option nat * option error)) :=
  match os_MkdirAll os dir with
  | Some err =>
      Done (prod, [EvMkdirAll dir (folderPermissions prod) (Some err)],
            (None, Some (Errorf ("Failed to create " +:+ dir +:+ " because of "
                                 +:+ errorText err))))
  | None =>
      let logFileName := logFileNameOf prod os dir name ext in
      let logFilePath := dir +:+ "/" +:+ logFileName in
      match store prod !! a with
      | None => Panic "invalid memory address or nil pointer dereference"
      | Some st =>
          let t1 :=
            [EvMkdirAll dir (folderPermissions prod) None]
            ++ (if enabled (rotate prod) then [EvReadDir dir] else [])
            ++ match writer st with
               | Some currentLog =>
                   [EvLogInfo ("Rotated " +:+ Name currentLog +:+ " -> " +:+ logFilePath);
                    EvGoClose currentLog]
               | None => []
               end in
          let st1 := setWriter st None in
          match os_OpenFile os logFilePath (openFlags prod) with
          | Some err =>
              Done (setStore prod (<[a := st1]> (store prod)),
                    t1 ++ [EvOpenFile logFilePath (openFlags prod) (filePermissions prod) (Some err)],
                    (Some a, Some err))
          | None =>
              let st2 :=
                setFileCreated (setWriter st1 (Some (newFileStateWriterDisk prod logFilePath)))
                               (os_now os) in
              let symLinkName := dir +:+ "/" +:+ name +:+ "_current" +:+ ext in
              let symLinkNameTemporary := symLinkName +:+ ".tmp" in
              Done (setStore prod (<[a := st2]> (store prod)),
                    t1 ++ [EvOpenFile logFilePath (openFlags prod) (filePermissions prod) None]
                       ++ (if enabled (rotate prod)
                           then [EvSymlink logFileName symLinkNameTemporary;
                                 EvRename symLinkNameTemporary symLinkName]
                           else [])
                       ++ [EvGoPrune logFileBasePath],
                    (Some a, None))
          end
      end
  end.

(** The first half, from the computation of the base path on: "Assure
    the file is correctly mapped". *)
Definition mapAndOpen (core : Core) (os : OS) (prod : File) (streamID : Z)
    (forceRotate : bool)
  : outcome (File * list Event * (option nat * option error)) :=
  let '(dir, name, ext) := resolveNames core prod streamID in
  let logFileBasePath := dir +:+ "/" +:+ name +:+ ext in
  match files prod !! logFileBasePath with
  | None =>
      let a := fresh (dom (store prod)) in
      let prod1 :=
        setMaps prod (<[streamID := a]> (filesByStream prod))
                (<[logFileBasePath := a]> (files prod))
                (<[a := newFileState (batchMaxCount prod)]> (store prod)) in
      openLog os prod1 a dir name ext logFileBasePath
  | Some a =>
      match filesByStream prod !! streamID with
      | Some _ => openLog os prod a dir name ext logFileBasePath
      | None =>
          let prod1 :=
            setMaps prod (<[streamID := a]> (filesByStream prod)) (files prod) (store prod) in
          match consult core prod1 a forceRotate with
          | Panic why => Panic why
          | Done (prod2, (rot, err)) =>
              if negb rot then Done (prod2, [], (Some a, err))
              else openLog os prod2 a dir name ext logFileBasePath
          end
      end
  end.

(** [prod.getFileState(streamID, forceRotate)]: the producer afterwards,
    the calls made, and the pair returned. *)
Definition getFileState (core : Core) (os : OS) (prod : File) (streamID : Z)
    (forceRotate : bool)
  : outcome (File * list Event * (option nat * option error)) :=
  match filesByStream prod !! streamID with
  | Some a =>
      match consult core prod a forceRotate with
      | Panic why => Panic why
      | Done (prod1, (rot, err)) =>
          if negb rot then Done (prod1, [], (Some a, err))
          else mapAndOpen core os prod1 streamID forceRotate
      end
  | None => mapAndOpen core os prod streamID forceRotate
  end.

(** Modelled from the spec: [fileState.needsRotate] as section 4.5 of
    the spec gives it, for running the producer on concrete inputs.
    [look] is the file behind a path as the operating system has it,
    [crossed] whether the wall clock has passed the hour and minute to
    rotate at since the file was created. *)
Definition needsRotateSpec (now : Z) (look : string -> osFile)
    (crossed : Z -> Z -> Z -> bool)
    (st : fileState) (rot : fileRotateConfig) (force : bool)
  : fileState * (bool * option error) :=
  if force then (st, (true, None))
  else if negb (enabled rot) then (st, (false, None))
  else
    match writer st with
    | None => (st, (true, None))
    | Some w =>
        let '(w1, ok) := IsAccessible w (look (file w)) in
        if negb ok then (setWriter st (Some w1), (true, None))
        else
          let '(w2, size) := Size w1 (look (file w)) in
          let st2 := setWriter st (Some w2) in
          if (0 <? sizeByte rot) && (sizeByte rot <=? size) then (st2, (true, None))
          else if (0 <? timeout rot) && (timeout rot <=? now - fileCreated st)
          then (st2, (true, None))
          else if (0 <=? atHour rot) && crossed (fileCreated st) (atHour rot) (atMinute rot)
          then (st2, (true, None))
          else (st2, (false, None))
    end.

(** **** Buffering and writing *)

Definition payloadOf (msgs : gmap nat Message) (p : nat) : string :=
  match msgs !! p with
  | Some m => msg_data m
  | None => ""
  end.

(** Modelled from the spec: [fileState.flush] (spec section 4.6): drains
    the batch and writes the payloads, in order, to the writer; a flush
    without a writer is a programming error and fatal (section 7); when
    the write fails the drained messages go to the fallback. *)
Definition flush (os : OS) (msgs : gmap nat Message) (st : fileState)
  : outcome (fileState * list Event) :=
  match writer st with
  | None => Panic "invalid memory address or nil pointer dereference"
  | Some w =>
      let drained := items (batch st) in
      let st' :=
        setBatch st {| capacity := capacity (batch st); items := [];
                       lastAppendedAt := lastAppendedAt (batch st) |} in
      let data := String.concat "" (map (payloadOf msgs) drained) in
      match os_Write os (file w) with
      | None => Done (st', [EvWrite (file w) data None])
      | Some e => Done (st', EvWrite (file w) data (Some e) :: map EvTryFallback drained)
      end
  end.

(** Modelled from the spec: the append of [AppendOrFlush], which also
    updates [lastAppendedAt], and its test for room (spec section 4.1). *)
Definition append (now : Z) (st : fileState) (msg : nat) : fileState :=
  setBatch st {| capacity := capacity (batch st);
                 items := items (batch st) ++ [msg];
                 lastAppendedAt := now |}.

Definition hasRoom (st : fileState) : bool :=
  Z.of_nat (length (items (batch st))) <? capacity (batch st).

(** Modelled from the spec: [MessageBatch.AppendOrFlush] (spec section
    4.1): appends when there is room; a full batch is flushed first while
    the producer is active, and the message goes to the fallback when the
    producer is no longer active or no room can be made. *)
Definition AppendOrFlush (core : Core) (os : OS) (msgs : gmap nat Message)
    (st : fileState) (msg : nat) : outcome (fileState * list Event) :=
  if hasRoom st then Done (append (os_now os) st msg, [])
  else if IsActiveOrStopping core then
    match flush os msgs st with
    | Panic why => Panic why
    | Done (st1, t1) =>
        if hasRoom st1 then Done (append (os_now os) st1 msg, t1)
        else Done (st1, t1 ++ [EvTryFallback msg])
    end
  else Done (st, [EvTryFallback msg]).

(** [msg.Clone()]: a new message object with the contents of [msg], at
    an address not in use. *)
Definition Clone (msgs : gmap nat Message) (msg : nat)
  : outcome (gmap nat Message * nat) :=
  match msgs !! msg with
  | None => Panic "invalid memory address or nil pointer dereference"
  | Some m => let c := fresh (dom msgs) in Done (<[c := m]> msgs, c)
  end.

(** [prod.writeMessage(msg)]: the producer and the message store
    afterwards, and the calls made. *)
Definition writeMessage (core : Core) (os : OS) (prod : File)
    (msgs : gmap nat Message) (msg : nat)
  : outcome (File * gmap nat Message * list Event) :=
  match Clone msgs msg with
  | Panic why => Panic why
  | Done (msgs1, streamMsg) =>
      let streamID :=
        match msgs1 !! streamMsg with
        | Some m => msg_streamID m
        | None => 0
        end in
      match getFileState core os prod streamID false with
      | Panic why => Panic why
      | Done (prod1, t, (_, Some err)) =>
          Done (prod1, msgs1, t ++ [EvLogError "Write error: "; EvTryFallback msg])
      | Done (prod1, t, (None, None)) =>
          Panic "invalid memory address or nil pointer dereference"
      | Done (prod1, t, (Some a, None)) =>
          match store prod1 !! a with
          | None => Panic "invalid memory address or nil pointer dereference"
          | Some st =>
              match AppendOrFlush core os msgs1 st msg with
              | Panic why => Panic why
              | Done (st', t') =>
                  Done (setStore prod1 (<[a := st']> (store prod1)), msgs1, t ++ t')
              end
          end
      end
  end.

(** The messages buffered in the state at an address, and for the log at
    [logFileBasePath]. *)
Definition itemsAt (states : gmap nat fileState) (a : nat) : list nat :=
  match states !! a with
  | Some st => items (batch st)
  | None => []
  end.

Definition buffered (prod : File) (logFileBasePath : string) : list nat :=
  match files prod !! logFileBasePath with
  | Some a => itemsAt (store prod) a
  | None => []
  end.

(** *** The properties under scrutiny, as the specification words them *)

(** The error the copy loop of a compression run ends with. *)
Definition copyOutcome (os : compressOS) : error :=
  fst (copyLoop os (Z.to_nat (c_sourceSize os / chunk)) 0).

(** "If copy failed with any error other than end-of-input: delete the
    partial .gz, return the error.  On success: delete the source file.
    Exactly one of <name>.gz or <name> remains; never both." *)
Definition compressionLeavesOne (w : fileStateWriterDisk) (os : compressOS)
    (fs : gset string) : Prop :=
  let '(ret, fs', _) := compressAndCloseLog w os fs in
  let source := Name w in
  let target := targetFileNameOf source in
  (copyOutcome os ≠ io_EOF ->
     (target ∉ fs') /\ ret = Some (copyOutcome os) /\ (source ∈ fs'))
  /\ (copyOutcome os = io_EOF -> source ∉ fs')
  /\ (((target ∈ fs') /\ (source ∉ fs')) \/ ((target ∉ fs') /\ (source ∈ fs'))).

(** "Close gzip writer, target file, source file in that order." *)
Definition closesGzipTargetSource (w : fileStateWriterDisk) (os : compressOS)
    (fs : gset string) : Prop :=
  closes (snd (compressAndCloseLog w os fs)) = [HGzipWriter; HTarget; HSource].

(** The counter of a file name by the grammar of the specification,
    [<name>_<timestamp>[_<counter>]<ext>], [signature] being
    [<name>_<timestamp>].  This follows the words of the specification,
    not the code: [counterOf] above is what the code reads. *)

(** The number that the decimal digits at the front of [s] spell, with
    [n] for the digits before them; a number, not a [uint64]. *)
Fixpoint digitsValue (s : string) (n : Z) : Z :=
  match s with
  | String c r => if isDigit c then digitsValue r (n * 10 + digitVal c) else n
  | EmptyString => n
  end.

(** The counter component of [name]: the digits that follow the
    signature and an underscore.  A name that goes on otherwise after the
    signature (with the extension, or not at all) has no counter
    component, which counts as 0. *)
Definition counterFound (signature name : string) : Z :=
  match sliceFrom (String.length signature) name with
  | String c rest => if Ascii.eqb c "_" then digitsValue rest 0 else 0
  | EmptyString => 0
  end.

(** A name on which the counter cannot be mistaken: after the signature
    it does not go on with a byte other than the underscore that is
    followed by a digit, as an extension like [.7z] does. *)
Definition counterPlain (signature name : string) : Prop :=
  match sliceFrom (String.length signature) name with
  | String c (String d _) => c = "_"%char \/ isDigit d = false
  | _ => True
  end.

(** "<counter> is the smallest integer strictly greater than the maximum
    counter found on existing files sharing the prefix; absent only when
    no such file exists." *)
Definition counterIsNextFree (signature : string) (names : list string) : Prop :=
  (counterChosen signature names = None <->
     forall name, In name names -> HasPrefix name signature = false)
  /\ forall c, counterChosen signature names = Some c ->
       (forall name, In name names -> HasPrefix name signature = true ->
                     counterFound signature name < c)
       /\ (forall c', (forall name, In name names -> HasPrefix name signature = true ->
                                    counterFound signature name < c') -> c <= c').


End producer.

(** ** Concrete runs *)

Module Scenario.
Import producer.

Definition rotation : fileRotateConfig :=
  {| enabled := true; timeout := 0; sizeByte := 0; atHour := -1; atMinute := -1;
     zeroPad := 0; compress := false |}.

(** A directory that holds two logs of the year 2001 already. *)
Definition os2001 : OS :=
  {| os_now := 1000;
     os_Format := fun _ => "2001";
     os_MkdirAll := fun _ => None;
     os_ReadDir := fun _ => ["log_2001.log"; "log_2001_1.log"; "other"];
     os_OpenFile := fun _ _ => None;
     os_Write := fun _ => None |}.


Definition healthy (path : string) : osFile :=
  {| of_name := path; of_size := 10; of_modTime := 0; of_statErr := None |}.

Definition core : Core :=
  {| WildcardStreamID := 7;
     GetStreamName := fun _ => "A";
     IsActiveOrStopping := true;
     needsRotate := needsRotateSpec 1000 healthy (fun _ _ _ => false) |}.

Definition conf : gmap string string := {[ "File" := "/tmp/log.log" ]}.

(** The producer after configuration. *)
Definition configured : File :=
  match Configure conf (boundFile conf rotation) with
  | Done prod => prod
  | Panic _ => boundFile conf rotation
  end.

(** One message of stream 3 at address 0. *)
Definition msgs : gmap nat Message :=
  {[ 0%nat := {| msg_streamID := 3; msg_data := "hello" |} ]}.


Definition rotatedLog : fileStateWriterDisk :=
  {| file := "/var/log/x_2001.log"; compressOnClose := true; stats := None |}.

(** A compression run of a file of three chunks and five bytes in which
    nothing fails, one in which the source cannot be removed, and one in
    which the second round of copying fails. *)
Definition smooth : compressOS :=
  {| c_openTarget := None; c_sourceSize := 3 * 1048576 + 5;
     c_copyFault := fun _ => None; c_remove := fun _ => None; c_close := None |}.

Definition stuckSource : compressOS :=
  {| c_openTarget := None; c_sourceSize := 3 * 1048576 + 5;
     c_copyFault := fun _ => None;
     c_remove := fun _ => Some (Errorf "operation not permitted"); c_close := None |}.

Definition brokenCopy : compressOS :=
  {| c_openTarget := None; c_sourceSize := 3 * 1048576 + 5;
     c_copyFault := fun i => if Nat.eqb i 1 then Some "input/output error" else None;
     c_remove := fun _ => None; c_close := None |}.

Definition logDir : gset string := {[ "/var/log/x_2001.log" ]}.

Definition entry (name : string) (size mtime : Z) : FileInfo :=
  {| fi_Name := name; fi_Size := size; fi_ModTime := mtime; fi_IsRegular := true |}.

(** A directory with four logs and a stranger, and a sweep of it in which
    every removal succeeds. *)
Definition entries : list FileInfo :=
  [entry "log_3.log" 10 30; entry "log_1.log" 10 10; entry "other" 1 1;
   entry "log_2.log" 10 20; entry "log_0.log" 5 10].

Definition sweep : pruneOS :=
  {| p_now := 100; p_listErr := None;
     p_matchString := fun _ name => String.prefix "log" name;
     p_remove := fun _ => None |}.

Definition byCount (c : Z) : filePruner :=
  {| pruneCount := c; pruneHours := 0; pruneSize := 0; pruner_rotate := rotation |}.

End Scenario.

(** ** The metric store *)

Module Log.
Import GoInt producer.

(** [metrics.store] is a [map[string]*int64].  [New] is the only place a
    pointer enters the map and it allocates the cell it stores, so no two
    names share a cell: the store is the map from the names to the values
    of their cells. *)

(** [met.New(name)] *)
Definition New (met : gmap string Z) (name : string) : gmap string Z :=
  <[name := 0]> met.

(** [atomic.StoreInt64(met.store[name], value)]: a name that is not in the
    map yields the nil pointer, and storing through it panics. *)
Definition Set_ (met : gmap string Z) (name : string) (value : Z)
  : outcome (gmap string Z) :=
  match met !! name with
  | None => Panic "invalid memory address or nil pointer dereference"
  | Some _ => Done (<[name := value]> met)
  end.

(** [met.SetI(name, value)]: [int64(value)] of an [int]. *)
Definition SetI (met : gmap string Z) (name : string) (value : Z)
  : outcome (gmap string Z) :=
  Set_ met name (int64 value).

(** [met.Add(name, value)]: [atomic.AddInt64] wraps around. *)
Definition Add (met : gmap string Z) (name : string) (value : Z)
  : outcome (gmap string Z) :=
  match met !! name with
  | None => Panic "invalid memory address or nil pointer dereference"
  | Some old => Done (<[name := int64 (old + value)]> met)
  end.

(** [met.Sub(name, value)]: adds [-value], itself an [int64]. *)
Definition Sub (met : gmap string Z) (name : string) (value : Z)
  : outcome (gmap string Z) :=
  Add met name (int64 (- value)).

(** [met.Get(name)] *)
Definition Get (met : gmap string Z) (name : string) : Z * option error :=
  match met !! name with
  | None => (0, Some (Errorf ("Metric " +:+ name +:+ " not found.")))
  | Some val => (val, None)
  end.

(** Updates of one metric, and a run of them. *)
Inductive update :=
| ByAdd (value : Z)
| BySub (value : Z)
| BySet (value : Z).

Definition apply (met : gmap string Z) (name : string) (u : update)
  : outcome (gmap string Z) :=
  match u with
  | ByAdd v => Add met name v
  | BySub v => Sub met name v
  | BySet v => Set_ met name v
  end.

Fixpoint applyAll (met : gmap string Z) (name : string) (us : list update)
  : outcome (gmap string Z) :=
  match us with
  | [] => Done met
  | u :: rest =>
      match apply met name u with
      | Panic why => Panic why
      | Done met1 => applyAll met1 name rest
      end
  end.

(** What a run of updates amounts to, were integers unbounded. *)
Fixpoint total (start : Z) (us : list update) : Z :=
  match us with
  | [] => start
  | ByAdd v :: rest => total (start + v) rest
  | BySub v :: rest => total (start - v) rest
  | BySet v :: rest => total v rest
  end.

Definition valuesFit (us : list update) : Prop :=
  Forall (fun u => match u with
                   | ByAdd v | BySub v | BySet v => in_int64 v
                   end) us.

End Log.

(** ** Readings of the traces *)

Module Traces.
Import producer.

(** The rounds of [io.CopyN] and the yields of a compression run. *)
Fixpoint copyRounds (t : list compressEvent) : nat :=
  match t with
  | CvCopyN _ _ :: r => S (copyRounds r)
  | _ :: r => copyRounds r
  | [] => O
  end.

Fixpoint yields (t : list compressEvent) : nat :=
  match t with
  | CvYield :: r => S (yields r)
  | _ :: r => yields r
  | [] => O
  end.

(** How often a message was handed to [TryFallback]. *)
Fixpoint fallbacks (msg : nat) (t : list Event) : nat :=
  match t with
  | EvTryFallback m :: r => (if Nat.eqb m msg then 1 else 0) + fallbacks msg r
  | _ :: r => fallbacks msg r
  | [] => O
  end.

(** The files opened with success, in order. *)
Fixpoint opened (t : list Event) : list string :=
  match t with
  | EvOpenFile path _ _ None :: r => path :: opened r
  | _ :: r => opened r
  | [] => []
  end.

(** The writers handed to a background [Close], in order. *)
Fixpoint closedInBackground (t : list Event) : list fileStateWriterDisk :=
  match t with
  | EvGoClose w :: r => w :: closedInBackground r
  | _ :: r => closedInBackground r
  | [] => []
  end.

End Traces.

(** ** Readings of a sweep *)

Module Sweep.
Import GoInt producer.

(** Whether the operating system lets the file of an entry be removed. *)
Definition removes (os : pruneOS) (baseDir : string) (f : FileInfo) : bool :=
  match p_remove os (baseDir +:+ "/" +:+ fi_Name f) with
  | None => true
  | Some _ => false
  end.

(** The files at the head of a list that were modified before a date. *)
Fixpoint olderThan (date : Z) (files : list FileInfo) : list FileInfo :=
  match files with
  | f :: r => if fi_ModTime f <? date then f :: olderThan date r else []
  | [] => []
  end.

(** The date before which [pruneByHour] removes. *)
Definition pruneDateOf (os : pruneOS) (hours : Z) : Z :=
  p_now os + int64 (int64 (- hours) * Hour).

(** The sizes of files, summed without bound. *)
Fixpoint sizeSum (files : list FileInfo) : Z :=
  match files with
  | f :: r => fi_Size f + sizeSum r
  | [] => 0
  end.

(** The files at the head of a list that [pruneToSize] takes for too
    many, [total] being its running total. *)
Fixpoint overBudget (maxSize total : Z) (files : list FileInfo) : list FileInfo :=
  match files with
  | f :: r =>
      if total <=? maxSize then []
      else f :: overBudget maxSize (int64 (total - fi_Size f)) r
  | [] => []
  end.

(** The paths a sweep tried to remove, in the order of the tries. *)
Fixpoint attempts (t : list pruneEvent) : list string :=
  match t with
  | PvRemove path _ :: r => path :: attempts r
  | _ :: r => attempts r
  | [] => []
  end.

(** The path under which a sweep removes an entry. *)
Definition pathOf (baseDir : string) (f : FileInfo) : string :=
  baseDir +:+ "/" +:+ fi_Name f.

(** A directory swept two hours and fifteen ticks after the epoch. *)
Definition later : pruneOS :=
  {| p_now := 2 * Hour + 15; p_listErr := None;
     p_matchString := fun _ name => String.prefix "log" name;
     p_remove := fun _ => None |}.

(** A sweep in which the oldest log cannot be removed. *)
Definition stubborn : pruneOS :=
  {| p_now := 100; p_listErr := None;
     p_matchString := fun _ name => String.prefix "log" name;
     p_remove := fun path =>
       if String.eqb path "/tmp/log_0.log" then Some (Errorf "permission denied")
       else None |}.

End Sweep.

(** ** The shape of the producer's maps *)

Module Shape.
Import GoInt producer.

(** Every state a path is mapped to exists. *)
Definition allocated (prod : File) : Prop :=
  forall path a, files prod !! path = Some a -> is_Some (store prod !! a).

(** A stream is mapped to the state of its own base path. *)
Definition mapped (core : Core) (prod : File) : Prop :=
  forall streamID a,
    filesByStream prod !! streamID = Some a ->
    files prod !! logFileBasePathOf core prod streamID = Some a.

(** The maps of [prod'] extend those of [prod], and the base paths of
    the streams are the same. *)
Definition extends (prod prod' : File) : Prop :=
  (forall path a, files prod !! path = Some a -> files prod' !! path = Some a)
  /\ (forall streamID a, filesByStream prod !! streamID = Some a ->
                         filesByStream prod' !! streamID = Some a)
  /\ (forall core streamID, logFileBasePathOf core prod' streamID
                            = logFileBasePathOf core prod streamID).




End Shape.

(** ** Readings of file names *)

Module Names.
Import GoString.

(** Whether a string starts with a decimal digit. *)
Definition startsWithDigit (s : string) : bool :=
  match s with
  | String c _ => isDigit c
  | EmptyString => false
  end.

End Names.

(** ** Rolling over *)

Module Roll.
Import producer.

(** [prod.rotateLog()]: [getFileState(streamID, true)] for the streams of
    [prod.filesByStream].  Go fixes no order for the range over a map;
    [order] is the order taken, with the answers of the operating system
    at the time of each call. *)
Fixpoint rotateLog (core : Core) (prod : File) (order : list (Z * OS))
  : outcome (File * list Event) :=
  match order with
  | [] => Done (prod, [])
  | (streamID, os) :: rest =>
      match getFileState core os prod streamID true with
      | Panic why => Panic why
      | Done (prod1, t, (_, err)) =>
          let t1 :=
            t ++ match err with
                 | Some _ => [EvLogError "Rotate error: "]
                 | None => []
                 end in
          match rotateLog core prod1 rest with
          | Panic why => Panic why
          | Done (prod2, t2) => Done (prod2, t1 ++ t2)
          end
      end
  end.

(** The range visits every stream of the map once. *)
Definition visitsAll (prod : File) (order : list (Z * OS)) : Prop :=
  Permutation (map fst order) (map fst (map_to_list (filesByStream prod))).

(** A [needsRotate] that says yes when the rotation is forced. *)
Definition honoursForce (core : Core) : Prop :=
  forall st rot, fst (snd (needsRotate core st rot true)) = true.

(** An operating system that makes every directory and opens every file. *)
Definition obliging (os : OS) : Prop :=
  (forall dir, os_MkdirAll os dir = None)
  /\ (forall path flags, os_OpenFile os path flags = None).

(** The producer of the scenarios after streams 3 and 4 have asked for
    their state: both write to the one log. *)
Definition oneStream : File :=
  match getFileState Scenario.core Scenario.os2001 Scenario.configured 3 false with
  | Done (prod, _, _) => prod
  | Panic _ => Scenario.configured
  end.

Definition twoStreams : File :=
  match getFileState Scenario.core Scenario.os2001 oneStream 4 false with
  | Done (prod, _, _) => prod
  | Panic _ => oneStream
  end.

End Roll.

(** ** A configuration with a double extension *)

Module Settings.
Import producer.

(** A log that ends in two extensions, a flush count above the maximum
    count of a batch, and a time of day that no clock shows. *)
Definition conf : gmap string string :=
  {[ "File" := "/var/log/app.d/out.log.gz";
     "Rotation/At" := "300:99";
     "Batch/FlushCount" := "9000" ]}.

Definition bound : File := boundFile conf Scenario.rotation.

End Settings.

(** ** Go: slices of bytes *)

Module GoSlice.
Import GoInt producer.

(** [len(s)] *)
Definition len (s : list ascii) : Z := Z.of_nat (length s).

(** [copy(dst, src)]: as many bytes as both hold go from the front of
    [src] to the front of [dst]; [dst] afterwards, and the number copied. *)
Definition copy (dst src : list ascii) : list ascii * Z :=
  let n := Nat.min (length dst) (length src) in
  (firstn n src ++ skipn n dst, Z.of_nat n).

(** [copy(s[offset:], src)], seen from [s]: the slice expression panics
    unless [0 <= offset <= len(s)]; the bytes before [offset] stay. *)
Definition copyAt (s : list ascii) (offset : Z) (src : list ascii)
  : outcome (list ascii * Z) :=
  if (offset <? 0) || (len s <? offset)
  then Panic "slice bounds out of range"
  else
    let '(d, n) := copy (skipn (Z.to_nat offset) s) src in
    Done (firstn (Z.to_nat offset) s ++ d, n).

End GoSlice.

(** ** The formatters Runlength and Double *)

Module format.
Import GoInt GoString GoFmt producer GoSlice.

Record Runlength := {
  separator : list ascii;
  storeRunlengthOnly : bool
}.

(** [format.ApplyFormatter(msg)]: from the content that
    [GetAppliedContent] hands out to the payload handed to
    [SetAppliedContent].  [pool] is [core.MessageDataPool.Get], which
    answers with a slice of the length asked for, whatever it holds. *)
Definition ApplyFormatter (format : Runlength) (pool : Z -> list ascii)
    (content : list ascii) : outcome (list ascii) :=
  let contentLen := GoSlice.len content in
  let lengthStr := chars (itoa contentLen) in
  if negb (storeRunlengthOnly format) then
    let dataSize := int (int (GoSlice.len lengthStr + GoSlice.len (separator format))
                         + contentLen) in
    let payload := pool dataSize in
    let '(payload1, offset) := copy payload lengthStr in
    match copyAt payload1 offset (separator format) with
    | Panic why => Panic why
    | Done (payload2, n) =>
        let offset2 := int (offset + n) in
        match copyAt payload2 offset2 content with
        | Panic why => Panic why
        | Done (payload3, _) => Done payload3
        end
    end
  else Done lengthStr.

(** What [Double] reads and writes of a [core.Message]. *)
Record Msg := {
  data : list ascii;
  streamID : Z
}.

Record Double := {
  d_separator : list ascii;
  leftStreamID : bool;
  left : list (Msg -> Msg);
  right : list (Msg -> Msg)
}.

(** [for _, formatter := range formatters { formatter.Format(m) }] *)
Definition applyAll (formatters : list (Msg -> Msg)) (m : Msg) : Msg :=
  fold_left (fun acc f => f acc) formatters m.

(** [format.Format(msg)]: the message afterwards.  [resize] is
    [msg.Resize], which makes the payload of the message a slice of the
    length asked for, whatever it holds. *)
Definition Format (format : Double) (resize : Msg -> Z -> list ascii) (msg : Msg)
  : outcome Msg :=
  let leftMsg := applyAll (left format) msg in
  let rightMsg := applyAll (right format) msg in
  let dataSize := int (int (GoSlice.len (data leftMsg) + GoSlice.len (d_separator format))
                       + GoSlice.len (data rightMsg)) in
  let payload := resize msg dataSize in
  let '(payload1, offset) := copy payload (data leftMsg) in
  match copyAt payload1 offset (d_separator format) with
  | Panic why => Panic why
  | Done (payload2, n) =>
      let offset2 := int (offset + n) in
      match copyAt payload2 offset2 (data rightMsg) with
      | Panic why => Panic why
      | Done (payload3, _) =>
          Done {| data := payload3;
                  streamID := if leftStreamID format then streamID leftMsg
                              else streamID rightMsg |}
      end
  end.

(** A pool that hands out slices full of the byte [x]. *)
Definition stale (n : Z) : list ascii := repeat "x"%char (Z.to_nat n).

End format.

(** ** The byte buffer of the S3 producer *)

Module awss3.
Import GoInt GoFmt producer GoSlice.

(** An [s3ByteBuffer] that does not compress ([compress] is false; the
    gzip side of the buffer is left out).  The slice [bytes] is the first
    [blen] bytes of its backing array [arr], whose length is the capacity
    of the slice. *)
Record s3ByteBuffer := {
  position : Z;
  arr : list ascii;
  blen : nat
}.

(** The bytes of the slice [buf.bytes]. *)
Definition bytesOf (buf : s3ByteBuffer) : list ascii := firstn (blen buf) (arr buf).

(** [newS3ByteBuffer()] *)
Definition newS3ByteBuffer : s3ByteBuffer :=
  {| position := 0; arr := []; blen := 0 |}.

(** [buf.Bytes()] and [buf.Size()] *)
Definition Bytes (buf : s3ByteBuffer) : list ascii * option error :=
  (bytesOf buf, None).

Definition Size (buf : s3ByteBuffer) : Z * option error :=
  (Z.of_nat (blen buf), None).

(** [buf.CloseAndDelete()] *)
Definition CloseAndDelete (buf : s3ByteBuffer) : s3ByteBuffer * option error :=
  ({| position := 0; arr := []; blen := 0 |}, None).

(** [buf.Read(p)]: the buffer and [p] afterwards, and the pair returned.
    [buf.bytes[buf.position:]] panics unless the position lies within the
    slice. *)
Definition Read (buf : s3ByteBuffer) (p : list ascii)
  : outcome (s3ByteBuffer * list ascii * (Z * option error)) :=
  if (position buf <? 0) || (Z.of_nat (blen buf) <? position buf)
  then Panic "slice bounds out of range"
  else
    let '(p', n) := copy p (skipn (Z.to_nat (position buf)) (bytesOf buf)) in
    let position' := int64 (position buf + int64 n) in
    Done ({| position := position'; arr := arr buf; blen := blen buf |}, p',
          (n, if position' =? int64 (Z.of_nat (blen buf)) then Some io_EOF else None)).

(** [buf.Write(p)].  [buf.bytes[:buf.position]] panics unless the
    position lies within the capacity; [append] writes into the backing
    array while it has room and moves to a new one otherwise, [spare]
    being the room the runtime leaves at the end of the new array. *)
Definition Write (spare : nat -> nat -> nat) (buf : s3ByteBuffer) (p : list ascii)
  : outcome (s3ByteBuffer * (Z * option error)) :=
  if (position buf <? 0) || (Z.of_nat (length (arr buf)) <? position buf)
  then Panic "slice bounds out of range"
  else
    let pos := Z.to_nat (position buf) in
    let needed := (pos + length p)%nat in
    let arr' :=
      if (needed <=? length (arr buf))%nat
      then firstn pos (arr buf) ++ p ++ skipn needed (arr buf)
      else firstn pos (arr buf) ++ p
           ++ repeat "000"%char (spare (length (arr buf)) needed) in
    Done ({| position := int64 (position buf + int64 (GoSlice.len p));
             arr := arr'; blen := needed |},
          (GoSlice.len p, None)).

(** [buf.Seek(offset, whence)] *)
Definition Seek (buf : s3ByteBuffer) (offset whence : Z)
  : s3ByteBuffer * (Z * option error) :=
  let position' :=
    if whence =? 0 then offset
    else if whence =? 1 then int64 (position buf + offset)
    else if whence =? 2 then int64 (int64 (Z.of_nat (blen buf)) + offset)
    else 0 in
  if position' <? 0
  then (buf, (0, Some (Errorf ("S3Buffer bad seek result " +:+ itoa position'))))
  else ({| position := position'; arr := arr buf; blen := blen buf |},
        (position', None)).

(** The slice lies within its backing array. *)
Definition wellFormed (buf : s3ByteBuffer) : Prop :=
  (blen buf <= length (arr buf))%nat.

(** Writing chunk after chunk. *)
Fixpoint writeAll (spare : nat -> nat -> nat) (buf : s3ByteBuffer)
    (chunks : list (list ascii)) : outcome s3ByteBuffer :=
  match chunks with
  | [] => Done buf
  | p :: rest =>
      match Write spare buf p with
      | Panic why => Panic why
      | Done (buf1, _) => writeAll spare buf1 rest
      end
  end.

(** A runtime that leaves as much room again as was needed. *)
Definition doubling (oldCap needed : nat) : nat := needed.

End awss3.

(** * Verification *)

Import GoInt GoString GoFmt producer.

(** ** Fixed-width integers *)

Lemma uint64_range z : in_uint64 (uint64 z).
Proof. unfold in_uint64, uint64. apply Z.mod_pos_bound. lia. Qed.

Lemma uint64_id z : in_uint64 z -> uint64 z = z.
Proof. unfold in_uint64, uint64. intros H. apply Z.mod_small. lia. Qed.

Lemma int64_range z : in_int64 (int64 z).
Proof.
  unfold in_int64, int64.
  pose proof (Z.mod_pos_bound (z + 2 ^ 63) (2 ^ 64)). lia.
Qed.

Lemma int64_id z : in_int64 z -> int64 z = z.
Proof.
  unfold in_int64, int64. intros H.
  rewrite Z.mod_small; lia.
Qed.

(** ** Configuration *)

Lemma shiftr_20 z : Z.shiftr z 20 = z / 2 ^ 20.
Proof. rewrite Z.shiftr_div_pow2; lia. Qed.

(** C5: when both the total-size limit and the rotation size threshold are
    positive, [pruner.Configure] subtracts the threshold counted in MiB
    from the limit; a result that is not positive turns the policy into
    [pruneCount = 1] with the size limit off, and a positive result is the
    new limit. *)
Theorem pruner_Configure_reserves_headroom (pruner : filePruner) :
  in_int64 (pruneSize pruner) ->
  in_int64 (sizeByte (pruner_rotate pruner)) ->
  0 < pruneSize pruner ->
  0 < sizeByte (pruner_rotate pruner) ->
  let reduced := pruneSize pruner - sizeByte (pruner_rotate pruner) / 2 ^ 20 in
  (reduced <= 0 ->
     pruneCount (pruner_Configure pruner) = 1
     /\ pruneSize (pruner_Configure pruner) = 0)
  /\ (0 < reduced ->
        pruneCount (pruner_Configure pruner) = pruneCount pruner
        /\ pruneSize (pruner_Configure pruner) = reduced).
Proof.
  intros Hp Hs Hp0 Hs0 reduced.
  assert (Hred : int64 (pruneSize pruner
                        - Z.shiftr (sizeByte (pruner_rotate pruner)) 20) = reduced).
  { rewrite shiftr_20. apply int64_id. unfold in_int64 in *. subst reduced.
    assert (0 <= sizeByte (pruner_rotate pruner) / 2 ^ 20 <= sizeByte (pruner_rotate pruner)).
    { split; [apply Z.div_pos; lia |].
      apply Z.div_le_upper_bound; lia. }
    lia. }
  unfold pruner_Configure.
  destruct (Z.ltb_spec 0 (pruneSize pruner)); [| lia].
  destruct (Z.ltb_spec 0 (sizeByte (pruner_rotate pruner))); [| lia].
  cbn [andb]. rewrite Hred.
  destruct (Z.leb_spec reduced 0); cbn; split; intros; try lia; auto.
Qed.

Lemma pruner_Configure_reserves_headroom_witness :
  let pruner := {| pruneCount := 0; pruneHours := 0; pruneSize := 3 * 2 ^ 20;
                   pruner_rotate := {| enabled := true; timeout := 0;
                                       sizeByte := 5 * 2 ^ 20; atHour := -1;
                                       atMinute := -1; zeroPad := 0;
                                       compress := false |} |} in
  pruneCount (pruner_Configure pruner) = 0
  /\ pruneSize (pruner_Configure pruner) = 3 * 2 ^ 20 - 5.
Proof.
  intros pruner.
  refine (proj2 (pruner_Configure_reserves_headroom pruner _ _ _ _) _);
    subst pruner; vm_compute; easy.
Defined.

(** C8: the struct tag of [flushTimeout] gives the default 5, counted in
    seconds; so when [FlushTimeoutSec] is not given, the flush timeout of
    the producer is five seconds, and [Configure] leaves it so; it is not
    the 0 of the documentation. *)
Theorem flushTimeout_default_is_five_seconds
    (conf : gmap string string) (rot : fileRotateConfig) :
  conf !! "FlushTimeoutSec" = None ->
  tag_default tag_flushTimeout = "5"
  /\ tag_metric tag_flushTimeout = "sec"
  /\ flushTimeout (boundFile conf rot) = 5 * Second
  /\ flushTimeout (boundFile conf rot) <> 0
  /\ forall prod, Configure conf (boundFile conf rot) = Done prod ->
                  flushTimeout prod = 5 * Second.
Proof.
  intros Hnone.
  assert (H5 : flushTimeout (boundFile conf rot) = 5 * Second).
  { cbn. unfold boundInt, GetString. cbn. rewrite Hnone. reflexivity. }
  split; [reflexivity |]. split; [reflexivity |].
  split; [exact H5 |]. split; [rewrite H5; discriminate |].
  intros prod Hc. unfold Configure in Hc.
  destruct (sliceTo _ _); [| discriminate].
  destruct (parseRotateAt _) as [[h m] |]; [| discriminate].
  inversion Hc. cbn [flushTimeout]. exact H5.
Qed.

Lemma flushTimeout_default_is_five_seconds_witness :
  flushTimeout (boundFile ∅ Scenario.rotation) = 5000000000
  /\ flushTimeout (boundFile ∅ Scenario.rotation) <> 0.
Proof.
  pose proof (flushTimeout_default_is_five_seconds ∅ Scenario.rotation eq_refl)
    as (_ & _ & H5 & Hne & _).
  split; [exact H5 | exact Hne].
Defined.

(** *** [Rotation/At] *)

Lemma Split_without_sep (s : string) (c : ascii) :
  containsByte c s = false -> Split s c = [s].
Proof.
  induction s as [| a r IH]; cbn; [reflexivity |].
  destruct (Ascii.eqb a c); [discriminate |].
  intros H. rewrite (IH H). reflexivity.
Qed.

Lemma Split_with_sep (s : string) (c : ascii) :
  containsByte c s = true -> exists p0 p1 rest, Split s c = p0 :: p1 :: rest.
Proof.
  induction s as [| a r IH]; cbn; [discriminate |].
  destruct (Ascii.eqb a c).
  - intros _. destruct r as [| b r']; cbn.
    + eauto.
    + destruct (Ascii.eqb b c); [eauto |].
      destruct (Split r' c); eauto.
  - intros H. destruct (IH H) as (p0 & p1 & rest & ->). eauto.
Qed.

Lemma length_str (l : list ascii) : String.length (str l) = length l.
Proof. unfold str. induction l as [| a l IH]; cbn; [reflexivity | now rewrite IH]. Qed.

Lemma length_chars (s : string) : length (chars s) = String.length s.
Proof. unfold chars. induction s as [| a s IH]; cbn; [reflexivity | now rewrite IH]. Qed.

Lemma extRev_length (r acc : list ascii) :
  (length (filepath.extRev r acc) <= length acc + length (filepath.takeElem r))%nat.
Proof.
  revert acc. induction r as [| c r IH]; intros acc; cbn; [lia |].
  destruct (filepath.isSep c); cbn; [lia |].
  destruct (Ascii.eqb c "."); cbn; [lia |].
  specialize (IH (c :: acc)). cbn in IH. lia.
Qed.

Lemma extRev_after_sep (c : ascii) (r acc : list ascii) :
  filepath.isSep c = true -> filepath.extRev (c :: r) acc = [].
Proof. intros H. cbn. rewrite H. reflexivity. Qed.

(** The extension is never longer than the base name, so the slice
    [fileName[:len(fileName)-len(fileExt)]] of [Configure] is in range. *)
Lemma Ext_not_longer_than_Base (path : string) :
  (String.length (filepath.Ext path) <= String.length (filepath.Base path))%nat.
Proof.
  unfold filepath.Ext, filepath.Base.
  destruct path as [| a p]; [cbn; lia |].
  rewrite length_str.
  remember (rev (chars (String a p))) as r eqn:Hr.
  destruct r as [| c r'].
  - cbn. lia.
  - destruct (filepath.isSep c) eqn:Hc.
    + rewrite extRev_after_sep by exact Hc. cbn. lia.
    + pose proof (extRev_length (c :: r') []) as Hlen.
      cbn [filepath.dropSeps]. rewrite Hc.
      cbn [length] in Hlen.
      destruct (rev (filepath.takeElem (c :: r'))) as [| x e] eqn:He.
      * apply (f_equal (@length ascii)) in He. rewrite length_rev in He.
        cbn in *. lia.
      * rewrite length_str, <- He, length_rev. lia.
Qed.

Lemma sliceTo_base_in_range (path : string) :
  exists name,
    sliceTo (filepath.Base path)
            (len (filepath.Base path) - len (filepath.Ext path)) = Done name.
Proof.
  pose proof (Ext_not_longer_than_Base path) as H.
  unfold sliceTo, len.
  destruct (Z.ltb_spec (Z.of_nat (String.length (filepath.Base path))
                        - Z.of_nat (String.length (filepath.Ext path))) 0); [lia |].
  destruct (Z.ltb_spec (Z.of_nat (String.length (filepath.Base path)))
                       (Z.of_nat (String.length (filepath.Base path))
                        - Z.of_nat (String.length (filepath.Ext path)))); [lia |].
  cbn. eauto.
Qed.

Lemma parseRotateAt_panics (rotateAt : string) :
  rotateAt <> "" -> containsByte ":" rotateAt = false ->
  parseRotateAt rotateAt = Panic "index out of range".
Proof.
  intros Hne Hc. unfold parseRotateAt.
  destruct (String.eqb_spec rotateAt ""); [contradiction |].
  rewrite (Split_without_sep _ _ Hc). reflexivity.
Qed.

Lemma parseRotateAt_returns (rotateAt : string) :
  rotateAt = "" \/ containsByte ":" rotateAt = true ->
  exists h m, parseRotateAt rotateAt = Done (h, m).
Proof.
  intros H. unfold parseRotateAt.
  destruct (String.eqb_spec rotateAt ""); [eauto |].
  destruct H as [H | H]; [contradiction |].
  destruct (Split_with_sep _ _ H) as (p0 & p1 & rest & ->). cbn. eauto.
Qed.

(** C10: with a [Rotation/At] that is not empty and holds no colon, the
    split has one element and [Configure] panics on [parts[1]] (index out
    of range), returning nothing; with a [Rotation/At] that is empty or
    holds a colon, [Configure] returns. *)
Theorem Configure_panics_without_colon (conf : gmap string string) (prod : File) :
  let rotateAt := GetString conf "Rotation/At" "" in
  (rotateAt <> "" /\ containsByte ":" rotateAt = false ->
     length (Split rotateAt ":") = 1%nat
     /\ Configure conf prod = Panic "index out of range")
  /\ (rotateAt = "" \/ containsByte ":" rotateAt = true ->
        exists prod', Configure conf prod = Done prod').
Proof.
  intros rotateAt.
  destruct (sliceTo_base_in_range (GetString conf "File" "/var/log/gollum.log"))
    as [name Hname].
  split.
  - intros [Hne Hc]. split.
    + rewrite (Split_without_sep _ _ Hc). reflexivity.
    + unfold Configure. rewrite Hname.
      fold rotateAt. rewrite (parseRotateAt_panics _ Hne Hc). reflexivity.
  - intros H. destruct (parseRotateAt_returns _ H) as (h & m & Hp).
    unfold Configure. rewrite Hname. fold rotateAt. rewrite Hp. eauto.
Qed.

Lemma Configure_panics_without_colon_witness :
  Configure {[ "Rotation/At" := "1230" ]} Scenario.configured
  = Panic "index out of range".
Proof.
  refine (proj2 (proj1 (Configure_panics_without_colon
                          {[ "Rotation/At" := "1230" ]} Scenario.configured) _)).
  vm_compute. split; [discriminate | reflexivity].
Defined.

(** ** The stat cache of the disk writer *)

Lemma getStats_cached (w : fileStateWriterDisk) (f : osFile) (s : FileInfo) :
  stats w = Some s -> getStats w f = (w, inl s).
Proof. intros H. unfold getStats. rewrite H. reflexivity. Qed.

Lemma Size_cached (w : fileStateWriterDisk) (f : osFile) (s : FileInfo) :
  stats w = Some s -> Size w f = (w, fi_Size s).
Proof. intros H. unfold Size. rewrite (getStats_cached w f s H). reflexivity. Qed.

Lemma IsAccessible_cached (w : fileStateWriterDisk) (f : osFile) (s : FileInfo) :
  stats w = Some s -> IsAccessible w f = (w, true).
Proof. intros H. unfold IsAccessible. rewrite (getStats_cached w f s H). reflexivity. Qed.

Lemma stepWriter_keeps_cache (w : fileStateWriterDisk) (f : osFile) (s : FileInfo)
    (op : writerOp) :
  stats w = Some s -> stats (fst (stepWriter (w, f) op)) = Some s.
Proof.
  intros H. destruct op as [p werr | | | e]; cbn.
  - unfold Write. destruct (osWrite f p werr). exact H.
  - rewrite (Size_cached w f s H). exact H.
  - rewrite (IsAccessible_cached w f s H). exact H.
  - exact H.
Qed.

Lemma runWriter_keeps_cache (ops : list writerOp) :
  forall (w : fileStateWriterDisk) (f : osFile) (s : FileInfo),
    stats w = Some s -> stats (fst (runWriter (w, f) ops)) = Some s.
Proof.
  unfold runWriter.
  induction ops as [| op ops IH]; intros w f s H; cbn [fold_left]; [exact H |].
  destruct (stepWriter (w, f) op) as [w1 f1] eqn:Hstep.
  apply IH. pose proof (stepWriter_keeps_cache w f s op H) as Hk.
  rewrite Hstep in Hk. exact Hk.
Qed.

Lemma first_stat_fills_cache (w : fileStateWriterDisk) (f : osFile) :
  stats w = None -> of_statErr f = None ->
  exists s, fi_Size s = of_size f
            /\ getStats w f = (setStats w s, inl s).
Proof.
  intros Hw Hf. unfold getStats, osStat. rewrite Hw, Hf.
  eexists. split; [| reflexivity]. reflexivity.
Qed.

(** C9: the stat result is cached for the life of the writer.  Once
    [Size] or [IsAccessible] has made the first stat and it succeeded,
    every later [Size], whatever was written and whatever became of the
    file in between, answers the length the file had at that first stat;
    and [Size] answers 0, caching nothing, when the stat fails and no
    cache exists. *)
Theorem Size_answers_first_stat (w : fileStateWriterDisk) (f : osFile)
    (ops : list writerOp) :
  (stats w = None /\ of_statErr f = None ->
     snd (Size w f) = of_size f
     /\ snd (IsAccessible w f) = true
     /\ (let '(w', f') := runWriter (fst (Size w f), f) ops in
         snd (Size w' f') = of_size f)
     /\ (let '(w', f') := runWriter (fst (IsAccessible w f), f) ops in
         snd (Size w' f') = of_size f))
  /\ (stats w = None /\ of_statErr f <> None -> Size w f = (w, 0)).
Proof.
  split.
  - intros [Hw Hf].
    destruct (first_stat_fills_cache w f Hw Hf) as (s & Hs & Hg).
    assert (Hlater : forall w1, stats w1 = Some s ->
              let '(w', f') := runWriter (w1, f) ops in snd (Size w' f') = of_size f).
    { intros w1 H1. pose proof (runWriter_keeps_cache ops w1 f s H1) as Hk.
      destruct (runWriter (w1, f) ops) as [w' f']. cbn in Hk.
      rewrite (Size_cached w' f' s Hk). cbn. exact Hs. }
    unfold Size, IsAccessible. rewrite Hg. cbn [fst snd].
    repeat split; try exact Hs; apply Hlater; reflexivity.
  - intros [Hw Hf]. unfold Size, getStats, osStat. rewrite Hw.
    destruct (of_statErr f); [reflexivity | contradiction].
Qed.

Lemma Size_answers_first_stat_witness :
  let w := {| file := "/tmp/log.log"; compressOnClose := false; stats := None |} in
  let f := Scenario.healthy "/tmp/log.log" in
  let ops := [OpWrite "hello" None; OpSize; OpHealth (Some (Errorf "stale"));
              OpWrite "world" None] in
  of_size (snd (runWriter (fst (Size w f), f) ops)) = 20
  /\ (let '(w', f') := runWriter (fst (Size w f), f) ops in
      snd (Size w' f') = 10).
Proof.
  intros w f ops. split; [reflexivity |].
  refine (proj1 (proj2 (proj2 (proj1 (Size_answers_first_stat w f ops) _)))).
  split; reflexivity.
Defined.

(** ** Compression *)

Lemma closes_app (t1 t2 : list compressEvent) :
  closes (t1 ++ t2) = closes t1 ++ closes t2.
Proof.
  induction t1 as [| e t1 IH]; [reflexivity |].
  destruct e; cbn; rewrite ?IH; reflexivity.
Qed.

Lemma removals_app (t1 t2 : list compressEvent) :
  removals (t1 ++ t2) = removals t1 ++ removals t2.
Proof.
  induction t1 as [| e t1 IH]; [reflexivity |].
  destruct e; cbn; rewrite ?IH; reflexivity.
Qed.

(** The copy loop closes and removes nothing, and it ends: with [io.EOF]
    or with the failure of a round. *)
Lemma copyLoop_quiet (os : compressOS) (full : nat) :
  forall round,
    closes (snd (copyLoop os full round)) = []
    /\ removals (snd (copyLoop os full round)) = [].
Proof.
  induction full as [| k IH]; intros round; cbn.
  - destruct (c_copyFault os round); cbn; auto.
  - destruct (c_copyFault os round); cbn; auto.
    specialize (IH (S round)).
    destruct (copyLoop os k (S round)) as [e t]. cbn in *. exact IH.
Qed.

Lemma copyLoop_not_EOF (os : compressOS) (full : nat) :
  forall round,
    fst (copyLoop os full round) <> io_EOF ->
    exists m, fst (copyLoop os full round) = Errorf m.
Proof.
  induction full as [| k IH]; intros round; cbn.
  - destruct (c_copyFault os round); cbn; [eauto | congruence].
  - destruct (c_copyFault os round); cbn; [eauto |].
    specialize (IH (S round)).
    destruct (copyLoop os k (S round)) as [e t]. cbn in *. exact IH.
Qed.

(** C7, as the code has it: in every compression run whose target could
    be opened, the copy rounds are followed by the closing of the source
    file, then of the gzip writer, then of the target file, and nothing
    else is closed. *)
Theorem closes_source_gzip_target (w : fileStateWriterDisk) (os : compressOS)
    (fs : gset string) :
  c_openTarget os = None ->
  closes (snd (compressAndCloseLog w os fs)) = [HSource; HGzipWriter; HTarget]
  /\ exists opening cleanup,
       snd (compressAndCloseLog w os fs)
       = opening
           ++ snd (copyLoop os (Z.to_nat (c_sourceSize os / chunk)) 0)
           ++ [CvClose HSource; CvClose HGzipWriter; CvClose HTarget]
           ++ cleanup
       /\ closes opening = [] /\ closes cleanup = []
       /\ forall round err, ~ In (CvCopyN round err) cleanup.
Proof.
  intros Hopen. unfold compressAndCloseLog. rewrite Hopen.
  pose proof (copyLoop_quiet os (Z.to_nat (c_sourceSize os / chunk)) 0) as [Hq _].
  destruct (copyLoop os (Z.to_nat (c_sourceSize os / chunk)) 0) as [err copied].
  cbn [snd] in *.
  case_bool_decide.
  - destruct (osRemove os _ _) as [fs2 rerr]. cbn [snd]. split.
    + rewrite !closes_app, Hq. destruct rerr; reflexivity.
    + eexists [_; _; _], _. split.
      * rewrite <- !app_assoc. reflexivity.
      * split; [reflexivity |]. split; [destruct rerr; reflexivity |].
        intros round e Hin. destruct rerr; cbn in Hin;
          repeat destruct Hin as [Hin | Hin]; try discriminate; auto.
  - destruct (osRemove os _ _) as [fs2 rerr]. cbn [snd]. split.
    + rewrite !closes_app, Hq. destruct rerr; reflexivity.
    + eexists [_; _; _], _. split.
      * rewrite <- !app_assoc. reflexivity.
      * split; [reflexivity |]. split; [destruct rerr; reflexivity |].
        intros round e Hin. destruct rerr; cbn in Hin;
          repeat destruct Hin as [Hin | Hin]; try discriminate; auto.
Qed.

Lemma closes_source_gzip_target_witness :
  closes (snd (compressAndCloseLog Scenario.rotatedLog Scenario.smooth Scenario.logDir))
  = [HSource; HGzipWriter; HTarget].
Proof.
  refine (proj1 (closes_source_gzip_target Scenario.rotatedLog Scenario.smooth
                   Scenario.logDir _)).
  reflexivity.
Defined.

(** C7, as the specification words it, fails on a run in which nothing
    goes wrong: the source file is closed first, not last. *)
Lemma closes_not_gzip_target_source :
  ~ closesGzipTargetSource Scenario.rotatedLog Scenario.smooth Scenario.logDir.
Proof.
  unfold closesGzipTargetSource. vm_compute. discriminate.
Qed.

Lemma osRemove_present (os : compressOS) (fs : gset string) (path : string) :
  path ∈ fs ->
  osRemove os fs path
  = match c_remove os path with
    | Some e => (fs, Some e)
    | None => (fs ∖ {[path]}, None)
    end.
Proof.
  intros H. unfold osRemove. rewrite bool_decide_eq_true_2 by exact H. reflexivity.
Qed.

Lemma removed_is_gone (X : gset string) (p : string) : p ∉ X ∖ {[p]}.
Proof.
  intros Hin. apply elem_of_difference in Hin as [_ Hn].
  apply Hn, elem_of_singleton. reflexivity.
Qed.

(** C3, as the code has it: in every compression run whose target could
    be opened, on a source that exists and is not itself the target: when
    the copy loop fails with an error other than end-of-input, exactly the
    removal of the partial target is attempted and the source is retained;
    when the copy succeeds, exactly the removal of the source is attempted,
    its result is what the run returns, and the target is retained; and
    whenever the attempted removal succeeds, exactly one of target and
    source remains. *)
Theorem compression_leaves_one_if_removed (w : fileStateWriterDisk)
    (os : compressOS) (fs : gset string) :
  c_openTarget os = None ->
  Name w ∈ fs ->
  targetFileNameOf (Name w) <> Name w ->
  let '(ret, fs', t) := compressAndCloseLog w os fs in
  let source := Name w in
  let target := targetFileNameOf source in
  (copyOutcome os <> io_EOF ->
     (source ∈ fs')
     /\ exists rerr, removals t = [(target, rerr)]
                     /\ (rerr = None -> target ∉ fs'))
  /\ (copyOutcome os = io_EOF ->
        (target ∈ fs')
        /\ removals t = [(source, ret)]
        /\ (ret = None -> source ∉ fs'))
  /\ (forall path, removals t = [(path, None)] ->
        ((target ∈ fs') /\ (source ∉ fs')) \/ ((target ∉ fs') /\ (source ∈ fs'))).
Proof.
  intros Hopen Hsrc Hne.
  unfold compressAndCloseLog, copyOutcome. rewrite Hopen.
  pose proof (copyLoop_quiet os (Z.to_nat (c_sourceSize os / chunk)) 0) as [_ Hq].
  destruct (copyLoop os (Z.to_nat (c_sourceSize os / chunk)) 0) as [err copied].
  cbn [fst snd] in *.
  set (source := Name w) in *. set (target := targetFileNameOf source) in *.
  assert (Hshape : forall tail,
            removals
              (([CvOpenTarget target None; CvLogInfo ("Compressing " +:+ source);
                 CvSeekStart] ++ copied
                ++ [CvClose HSource; CvClose HGzipWriter; CvClose HTarget])
               ++ tail) = removals tail).
  { intros tail. rewrite !removals_app, Hq. reflexivity. }
  case_bool_decide as Herr.
  - rewrite osRemove_present by set_solver.
    destruct (c_remove os target) as [e |] eqn:Hrm; rewrite Hshape; cbn [removals app].
    + split; [intros _ | split; [intros Heof; contradiction | intros path Hp; discriminate]].
      split; [set_solver |].
      exists (Some e). split; [reflexivity | discriminate].
    + split; [intros _ | split; [intros Heof; contradiction | intros path _]].
      * split; [set_solver |].
        exists None. split; [reflexivity |]. intros _. apply removed_is_gone.
      * right. split; [apply removed_is_gone | set_solver].
  - assert (err = io_EOF) as ->
      by (destruct (decide (err = io_EOF)); [auto | contradiction]).
    rewrite osRemove_present by set_solver.
    destruct (c_remove os source) as [e |] eqn:Hrm; rewrite Hshape; cbn [removals app].
    + split; [intros Hn; congruence | split; [intros _ | intros path Hp; discriminate]].
      split; [set_solver |]. split; [reflexivity | discriminate].
    + split; [intros Hn; congruence | split; [intros _ | intros path _]].
      * split; [set_solver |]. split; [reflexivity |]. intros _. apply removed_is_gone.
      * left. split; [set_solver | apply removed_is_gone].
Qed.

Lemma compression_leaves_one_if_removed_witness :
  let '(ret, fs', t) :=
    compressAndCloseLog Scenario.rotatedLog Scenario.smooth Scenario.logDir in
  let source := Name Scenario.rotatedLog in
  let target := targetFileNameOf source in
  (copyOutcome Scenario.smooth <> io_EOF ->
     (source ∈ fs')
     /\ exists rerr, removals t = [(target, rerr)]
                     /\ (rerr = None -> target ∉ fs'))
  /\ (copyOutcome Scenario.smooth = io_EOF ->
        (target ∈ fs')
        /\ removals t = [(source, ret)]
        /\ (ret = None -> source ∉ fs'))
  /\ (forall path, removals t = [(path, None)] ->
        ((target ∈ fs') /\ (source ∉ fs')) \/ ((target ∉ fs') /\ (source ∈ fs'))).
Proof.
  apply (compression_leaves_one_if_removed
           Scenario.rotatedLog Scenario.smooth Scenario.logDir).
  - reflexivity.
  - apply elem_of_singleton. reflexivity.
  - vm_compute. discriminate.
Defined.

Lemma compress_result_copied (w : fileStateWriterDisk) (os : compressOS)
    (fs : gset string) :
  c_openTarget os = None -> copyOutcome os = io_EOF -> Name w ∈ fs ->
  fst (compressAndCloseLog w os fs)
  = match c_remove os (Name w) with
    | Some e => (Some e, fs ∪ {[targetFileNameOf (Name w)]})
    | None => (None, (fs ∪ {[targetFileNameOf (Name w)]}) ∖ {[Name w]})
    end.
Proof.
  intros Hopen Hcopy Hsrc. unfold compressAndCloseLog, copyOutcome in *.
  rewrite Hopen.
  destruct (copyLoop os (Z.to_nat (c_sourceSize os / chunk)) 0) as [err copied].
  cbn [fst] in Hcopy. subst err.
  rewrite bool_decide_eq_false_2 by (intros H; apply H; reflexivity).
  rewrite osRemove_present by set_solver.
  destruct (c_remove os (Name w)); reflexivity.
Qed.

Lemma compress_result_failed (w : fileStateWriterDisk) (os : compressOS)
    (fs : gset string) :
  c_openTarget os = None -> copyOutcome os <> io_EOF ->
  fst (compressAndCloseLog w os fs)
  = match c_remove os (targetFileNameOf (Name w)) with
    | Some e => (Some e, fs ∪ {[targetFileNameOf (Name w)]})
    | None => (None, (fs ∪ {[targetFileNameOf (Name w)]})
                       ∖ {[targetFileNameOf (Name w)]})
    end.
Proof.
  intros Hopen Hcopy. unfold compressAndCloseLog, copyOutcome in *.
  rewrite Hopen.
  destruct (copyLoop os (Z.to_nat (c_sourceSize os / chunk)) 0) as [err copied].
  cbn [fst] in Hcopy.
  rewrite bool_decide_eq_true_2 by exact Hcopy.
  rewrite osRemove_present by set_solver.
  destruct (c_remove os (targetFileNameOf (Name w))); reflexivity.
Qed.

(** C3, as the specification words it, fails twice: when the source
    cannot be removed after a copy that succeeded, target and source both
    remain; and when the copy fails and the partial target is removed, the
    run returns no error. *)
Lemma compression_may_leave_both :
  ~ compressionLeavesOne Scenario.rotatedLog Scenario.stuckSource Scenario.logDir
  /\ ~ compressionLeavesOne Scenario.rotatedLog Scenario.brokenCopy Scenario.logDir.
Proof.
  split; unfold compressionLeavesOne.
  - assert (Hcopy : copyOutcome Scenario.stuckSource = io_EOF) by reflexivity.
    assert (Hsrc : Name Scenario.rotatedLog ∈ Scenario.logDir)
      by (apply elem_of_singleton; reflexivity).
    pose proof (compress_result_copied Scenario.rotatedLog Scenario.stuckSource
                  Scenario.logDir eq_refl Hcopy Hsrc) as Hres.
    destruct (compressAndCloseLog _ Scenario.stuckSource _) as [[ret fs'] t].
    cbn in Hres. injection Hres as -> ->.
    intros (_ & Hgone & _). apply (Hgone Hcopy).
    apply elem_of_union_l. exact Hsrc.
  - assert (Hcopy : copyOutcome Scenario.brokenCopy <> io_EOF)
      by (vm_compute; discriminate).
    pose proof (compress_result_failed Scenario.rotatedLog Scenario.brokenCopy
                  Scenario.logDir eq_refl Hcopy) as Hres.
    destruct (compressAndCloseLog _ Scenario.brokenCopy _) as [[ret fs'] t].
    cbn in Hres. injection Hres as -> ->.
    intros (Hfail & _). destruct (Hfail Hcopy) as (_ & Hret & _).
    discriminate Hret.
Qed.

(** ** The counter of a rotated file name *)

Lemma BtoiLoop_range (s : string) :
  forall n, in_uint64 n -> in_uint64 (tgo.BtoiLoop s n).
Proof.
  induction s as [| c r IH]; intros n Hn; cbn; [exact Hn |].
  destruct (isDigit c); [| exact Hn].
  apply IH, uint64_range.
Qed.

Lemma counterOf_range (signature name : string) :
  in_uint64 (counterOf signature name).
Proof.
  unfold counterOf.
  destruct (String.length signature <? String.length name)%nat.
  - apply BtoiLoop_range. unfold in_uint64. lia.
  - unfold in_uint64. lia.
Qed.

(** The loop over the directory, as long as no counter reaches
    [2^63 - 1]: the result bounds every counter met from above, and it is
    the start value or the successor of a counter met. *)
Lemma suffix_loop (signature : string) (names : list string) :
  forall acc,
    0 <= acc <= 2 ^ 63 - 1 ->
    (forall name, In name names -> HasPrefix name signature = true ->
                  counterOf signature name < 2 ^ 63 - 1) ->
    let r := fold_left (suffixStep signature) names acc in
    acc <= r <= 2 ^ 63 - 1
    /\ (forall name, In name names -> HasPrefix name signature = true ->
                     counterOf signature name < r)
    /\ (r = acc
        \/ exists name, In name names /\ HasPrefix name signature = true
                        /\ r = counterOf signature name + 1).
Proof.
  induction names as [| n names IH]; intros acc Hacc Hbound; cbn [fold_left].
  - cbn. split; [lia |]. split; [intros name [] | left; reflexivity].
  - assert (Hstep : 0 <= suffixStep signature acc n <= 2 ^ 63 - 1
                    /\ acc <= suffixStep signature acc n
                    /\ (HasPrefix n signature = true ->
                        counterOf signature n < suffixStep signature acc n)
                    /\ (suffixStep signature acc n = acc
                        \/ (HasPrefix n signature = true
                            /\ suffixStep signature acc n = counterOf signature n + 1))).
    { unfold suffixStep. destruct (HasPrefix n signature) eqn:Hp.
      - pose proof (counterOf_range signature n) as Hc. unfold in_uint64 in Hc.
        pose proof (Hbound n (or_introl eq_refl) Hp) as Hlt.
        destruct (Z.leb_spec acc (counterOf signature n)).
        + rewrite uint64_id by (unfold in_uint64; lia).
          split; [lia |]. split; [lia |]. split; [intros _; lia |].
          right. split; reflexivity.
        + split; [lia |]. split; [lia |]. split; [intros _; lia |].
          left. reflexivity.
      - split; [lia |]. split; [lia |]. split; [discriminate |].
        left. reflexivity. }
    destruct Hstep as (Hr & Hle & Hgt & Hor).
    specialize (IH (suffixStep signature acc n) Hr
                   (fun name Hin => Hbound name (or_intror Hin))).
    cbn zeta in IH. destruct IH as (Hrange & Hall & Hlast).
    split; [lia |]. split.
    + intros name [<- | Hin] Hp; [specialize (Hgt Hp); lia | apply Hall; assumption].
    + destruct Hlast as [Heq | (name & Hin & Hp & Heq)].
      * rewrite Heq. destruct Hor as [Hsame | [Hp Hnew]].
        -- left. exact Hsame.
        -- right. exists n. split; [left; reflexivity | split; assumption].
      * right. exists name. split; [right; exact Hin | split; assumption].
Qed.

(** The digits the code reads with [uint64] arithmetic spell the number
    they stand for as long as that number fits. *)
Lemma digitsValue_grows (s : string) :
  forall n, 0 <= n -> n <= digitsValue s n.
Proof.
  induction s as [| c r IH]; intros n Hn; cbn [digitsValue]; [lia |].
  destruct (isDigit c) eqn:Hd; [| lia].
  assert (Hv : 0 <= digitVal c).
  { unfold isDigit in Hd. unfold digitVal.
    apply andb_prop in Hd as [Hlo _]. apply N.leb_le in Hlo. lia. }
  specialize (IH (n * 10 + digitVal c) ltac:(lia)). lia.
Qed.

Lemma BtoiLoop_is_digitsValue (s : string) :
  forall n, 0 <= n -> digitsValue s n < 2 ^ 64 ->
            tgo.BtoiLoop s n = digitsValue s n.
Proof.
  induction s as [| c r IH]; intros n Hn Hfit; cbn [tgo.BtoiLoop digitsValue] in *;
    [reflexivity |].
  destruct (isDigit c) eqn:Hd; [| reflexivity].
  assert (Hv : 0 <= digitVal c).
  { unfold isDigit in Hd. unfold digitVal.
    apply andb_prop in Hd as [Hlo _]. apply N.leb_le in Hlo. lia. }
  pose proof (digitsValue_grows r (n * 10 + digitVal c) ltac:(lia)) as Hg.
  rewrite (uint64_id (n * 10)) by (unfold in_uint64; lia).
  rewrite uint64_id by (unfold in_uint64; lia).
  apply IH; [lia | exact Hfit].
Qed.

Lemma sliceFrom_end (s : string) :
  forall n, (String.length s <= n)%nat -> sliceFrom n s = "".
Proof.
  induction s as [| c r IH]; intros n Hn; [destruct n; reflexivity |].
  destruct n as [| n]; cbn in *; [lia |]. apply IH. lia.
Qed.

Lemma sliceFrom_step (s : string) :
  forall n, (n < String.length s)%nat ->
            exists c, sliceFrom n s = String c (sliceFrom (S n) s).
Proof.
  induction s as [| c r IH]; intros n Hn; cbn in Hn; [lia |].
  destruct n as [| n].
  - exists c. destruct r; reflexivity.
  - cbn [sliceFrom]. destruct (IH n ltac:(lia)) as [c' Hc']. exists c'.
    rewrite Hc'. destruct r; [cbn in Hn; lia | reflexivity].
Qed.

(** On a name on which the counter cannot be mistaken, and whose
    counter fits a [uint64], the code reads the counter of the grammar. *)
Lemma counterOf_is_counterFound (signature name : string) :
  counterPlain signature name ->
  counterFound signature name < 2 ^ 64 ->
  counterOf signature name = counterFound signature name.
Proof.
  unfold counterPlain, counterFound, counterOf. intros Hplain Hfit.
  destruct (Nat.ltb_spec (String.length signature) (String.length name)) as [Hlt | Hge].
  - destruct (sliceFrom_step name (String.length signature) Hlt) as [c Hc].
    rewrite Hc in *. unfold tgo.Btoi.
    destruct (Ascii.eqb_spec c "_") as [-> | Hother].
    + apply BtoiLoop_is_digitsValue; [lia | exact Hfit].
    + destruct (sliceFrom (S (String.length signature)) name) as [| d r];
        [reflexivity |].
      destruct Hplain as [Hu | Hd]; [contradiction |].
      cbn [tgo.BtoiLoop]. rewrite Hd. reflexivity.
  - rewrite (sliceFrom_end name _ Hge). reflexivity.
Qed.

Lemma counterFound_nonneg (signature name : string) : 0 <= counterFound signature name.
Proof.
  unfold counterFound. destruct (sliceFrom _ name) as [| c r]; [lia |].
  destruct (Ascii.eqb c "_"); [apply digitsValue_grows |]; lia.
Qed.

(** C4, as the code has it: in a directory in which, among the files that
    share the prefix, no counter can be mistaken and no counter reaches
    [2^63 - 1], the name carries no counter exactly when no file shares
    the prefix, and otherwise the counter is the smallest integer strictly
    greater than the counter of every such file, a file without the
    counter component counting as 0. *)
Theorem counter_is_next_free (signature : string) (names : list string) :
  (forall name, In name names -> HasPrefix name signature = true ->
                counterPlain signature name
                /\ counterFound signature name < 2 ^ 63 - 1) ->
  counterIsNextFree signature names.
Proof.
  intros Hnames.
  assert (Hread : forall name, In name names -> HasPrefix name signature = true ->
            counterOf signature name = counterFound signature name).
  { intros name Hin Hp. destruct (Hnames name Hin Hp) as [Hplain Hlt].
    apply counterOf_is_counterFound; [exact Hplain | lia]. }
  assert (Hbound : forall name, In name names -> HasPrefix name signature = true ->
            counterOf signature name < 2 ^ 63 - 1).
  { intros name Hin Hp. rewrite (Hread name Hin Hp). apply (Hnames name Hin Hp). }
  pose proof (suffix_loop signature names 0 ltac:(lia) Hbound) as Hloop.
  cbn zeta in Hloop. destruct Hloop as (Hrange & Hall & Hlast).
  unfold counterIsNextFree, counterChosen.
  fold (maxSuffixOf signature names) in *.
  set (r := maxSuffixOf signature names) in *.
  split.
  - split.
    + destruct (Z.eqb_spec r 0) as [Hz | Hnz]; [| discriminate].
      intros _ name Hin. destruct (HasPrefix name signature) eqn:Hp; [| reflexivity].
      pose proof (Hall name Hin Hp) as Hlt. rewrite (Hread name Hin Hp) in Hlt.
      pose proof (counterFound_nonneg signature name). lia.
    + intros Hnone. destruct (Z.eqb_spec r 0) as [Hz | Hnz]; [reflexivity |].
      destruct Hlast as [Heq | (name & Hin & Hp & _)]; [contradiction |].
      rewrite (Hnone name Hin) in Hp. discriminate.
  - intros c Hc. destruct (Z.eqb_spec r 0) as [Hz | Hnz]; [discriminate |].
    injection Hc as <-.
    assert (Hint : int r = r) by (apply int64_id; unfold in_int64; lia).
    rewrite Hint. split.
    + intros name Hin Hp. rewrite <- (Hread name Hin Hp). apply Hall; assumption.
    + intros c' Hc'. destruct Hlast as [Heq | (name & Hin & Hp & Heq)]; [contradiction |].
      specialize (Hc' name Hin Hp). rewrite <- (Hread name Hin Hp) in Hc'. lia.
Qed.

Lemma counter_is_next_free_witness :
  counterChosen "log_2001" ["log_2001.log"; "log_2001_1.log"; "other"] = Some 2
  /\ counterIsNextFree "log_2001" ["log_2001.log"; "log_2001_1.log"; "other"].
Proof.
  split; [vm_compute; reflexivity |].
  apply counter_is_next_free.
  intros name [<- | [<- | [<- | []]]] _;
    (split; [vm_compute; auto | vm_compute; reflexivity]).
Defined.

(** C4, as the specification words it, fails twice.  In a directory that
    holds a file with the counter [2^63 - 1] the next counter is [2^63]
    as a [uint64] and enters the name as [int(maxSuffix)], which is
    [-2^63].  And in a directory that holds [log_2001.7z] and nothing
    else, where no file has a counter, the code reads the 7 of the
    extension for one and puts 8 into the new name, where 1 is the
    smallest integer above every counter found. *)
Lemma counter_may_wrap_or_be_misread :
  ~ counterIsNextFree "log_2001" ["log_2001_9223372036854775807.log"]
  /\ ~ counterIsNextFree "log_2001" ["log_2001.7z"]
  /\ counterChosen "log_2001" ["log_2001.7z"] = Some 8
  /\ counterFound "log_2001" "log_2001.7z" = 0.
Proof.
  split; [| split; [| split; vm_compute; reflexivity]].
  - intros [_ Hnext].
    destruct (Hnext (- 2 ^ 63) eq_refl) as [Hgt _].
    specialize (Hgt "log_2001_9223372036854775807.log" (or_introl eq_refl) eq_refl).
    vm_compute in Hgt. discriminate.
  - intros [_ Hnext].
    destruct (Hnext 8 eq_refl) as [_ Hleast].
    assert (Hone : 8 <= 1).
    { apply Hleast. intros name [<- | []] _. vm_compute. reflexivity. }
    lia.
Qed.

(** With a file counter of [2^64 - 1] the successor wraps to 0 and the new
    name carries no counter, although a file shares the prefix. *)
Lemma counter_absent_after_wrap :
  counterChosen "log_2001" ["log_2001_18446744073709551615.log"] = None
  /\ HasPrefix "log_2001_18446744073709551615.log" "log_2001" = true.
Proof. split; vm_compute; reflexivity. Qed.

(** ** getFileState *)









(** ** writeMessage *)

(** The clone is a new object: its address differs from that of the
    message cloned. *)
Lemma Clone_is_fresh (msgs msgs1 : gmap nat Message) (msg streamMsg : nat) :
  Clone msgs msg = Done (msgs1, streamMsg) ->
  streamMsg <> msg /\ msgs1 !! streamMsg = msgs !! msg /\ msgs1 !! msg = msgs !! msg.
Proof.
  unfold Clone. destruct (msgs !! msg) as [m |] eqn:Hm; [| discriminate].
  intros H. injection H as <- <-.
  assert (Hne : fresh (dom msgs) <> msg).
  { intros Heq. apply (is_fresh (dom msgs)). rewrite Heq.
    apply elem_of_dom. eauto. }
  split; [exact Hne |]. split.
  - rewrite lookup_insert_eq. reflexivity.
  - rewrite lookup_insert_ne by exact Hne. exact Hm.
Qed.

(** C1 fails on the code: for the message at address 0, written to a
    producer that has no log open yet, [writeMessage] makes the clone at
    address 1 and then hands the message at address 0, the original, to
    the batch of the log; the clone is never buffered. *)
Theorem writeMessage_buffers_the_original :
  exists prod' msgs' t,
    writeMessage Scenario.core Scenario.os2001 Scenario.configured Scenario.msgs 0
    = Done (prod', msgs', t)
    /\ Clone Scenario.msgs 0 = Done (msgs', 1%nat)
    /\ buffered prod' "/tmp/log.log" = [0%nat]
    /\ ~ In 1%nat (buffered prod' "/tmp/log.log").
Proof.
  destruct (writeMessage Scenario.core Scenario.os2001 Scenario.configured
              Scenario.msgs 0) as [[[prod' msgs'] t] | why] eqn:Hrun.
  - exists prod', msgs', t. split; [reflexivity |].
    vm_compute in Hrun. injection Hrun as <- <- <-.
    split; [vm_compute; reflexivity |].
    vm_compute. split; [reflexivity |]. intros [H | []]. discriminate.
  - vm_compute in Hrun. discriminate.
Qed.

(** ** Pruning *)

Lemma insertByDate_perm (x : FileInfo) (l : list FileInfo) :
  Permutation (insertByDate x l) (x :: l).
Proof.
  induction l as [| y l IH]; cbn; [reflexivity |].
  destruct (Less y x); [| reflexivity].
  rewrite IH. apply perm_swap.
Qed.

Lemma sortByDate_perm (l : list FileInfo) : Permutation (sortByDate l) l.
Proof.
  induction l as [| x l IH]; cbn; [reflexivity |].
  rewrite insertByDate_perm, IH. reflexivity.
Qed.

Lemma filter_perm {A : Type} (p : A -> bool) (l l' : list A) :
  Permutation l l' -> Permutation (List.filter p l) (List.filter p l').
Proof.
  induction 1 as [| x l l' _ IH | x y l | l l' l'' _ IH1 _ IH2]; cbn.
  - reflexivity.
  - destruct (p x); [rewrite IH |]; [reflexivity | exact IH].
  - destruct (p x), (p y); try reflexivity. apply perm_swap.
  - etransitivity; eassumption.
Qed.

Lemma filter_filter {A : Type} (p q : A -> bool) (l : list A) :
  List.filter p (List.filter q l) = List.filter (fun x => q x && p x) l.
Proof.
  induction l as [| x l IH]; cbn; [reflexivity |].
  destruct (q x); cbn; [destruct (p x) |]; rewrite IH; reflexivity.
Qed.

Lemma filter_swap {A : Type} (p q : A -> bool) (l : list A) :
  List.filter p (List.filter q l) = List.filter q (List.filter p l).
Proof.
  rewrite !filter_filter. apply filter_ext. intros x. apply andb_comm.
Qed.

Lemma NoDup_names_filter (q : FileInfo -> bool) (l : list FileInfo) :
  List.NoDup (map fi_Name l) -> List.NoDup (map fi_Name (List.filter q l)).
Proof.
  induction l as [| x l IH]; cbn; [auto |].
  intros H. apply List.NoDup_cons_iff in H as [Hx Hl].
  destruct (q x); cbn; [| auto].
  apply List.NoDup_cons; [| auto].
  intros Hin. apply Hx. apply in_map_iff in Hin as (y & Hy & Hin).
  apply filter_In in Hin as [Hin _]. apply in_map_iff. eauto.
Qed.

(** Removing the entry of a name from a directory whose names differ takes
    exactly that entry away. *)
Lemma remove_takes_one (p : FileInfo -> bool) (f : FileInfo) (es : list FileInfo) :
  List.NoDup (map fi_Name es) -> In f es -> p f = true ->
  S (length (List.filter p (List.filter (otherName (fi_Name f)) es)))
  = length (List.filter p es).
Proof.
  induction es as [| e es IH]; cbn [map List.filter]; [intros _ [] |].
  intros Hnd Hin Hp. apply List.NoDup_cons_iff in Hnd as [He Hes].
  destruct Hin as [-> | Hin].
  - unfold otherName at 1. rewrite String.eqb_refl. cbn [negb].
    rewrite Hp. cbn [length]. f_equal. f_equal.
    rewrite (forallb_filter_id (otherName (fi_Name f)) es); [reflexivity |].
    apply forallb_forall. intros g Hg. unfold otherName.
    destruct (String.eqb_spec (fi_Name g) (fi_Name f)) as [Heq |]; [| reflexivity].
    exfalso. apply He. rewrite <- Heq. apply in_map. exact Hg.
  - assert (Hne : otherName (fi_Name f) e = true).
    { unfold otherName. destruct (String.eqb_spec (fi_Name e) (fi_Name f)) as [Heq |];
        [| reflexivity].
      exfalso. apply He. rewrite Heq. apply in_map. exact Hin. }
    rewrite Hne. cbn [List.filter]. destruct (p e); cbn [length];
      rewrite <- (IH Hes Hin Hp); reflexivity.
Qed.

Lemma filter_true {A : Type} (l : list A) : List.filter (fun _ => true) l = l.
Proof. induction l as [| x l IH]; cbn; [reflexivity | now rewrite IH]. Qed.

(** Whatever a removal answers, the entries afterwards are a selection of
    the entries before. *)
Lemma removeEntry_selects (os : pruneOS) (es : list FileInfo) (baseDir name : string) :
  exists q, fst (removeEntry os es baseDir name) = List.filter q es.
Proof.
  unfold removeEntry. destruct (p_remove os _); cbn.
  - exists (fun _ => true). symmetry. apply filter_true.
  - eauto.
Qed.

Lemma hourLoop_selects (os : pruneOS) (baseDir : string) (pruneDate : Z)
    (files : list FileInfo) :
  forall es, exists q, fst (hourLoop os baseDir pruneDate files es) = List.filter q es.
Proof.
  induction files as [| f r IH]; intros es; cbn.
  - exists (fun _ => true). symmetry. apply filter_true.
  - destruct (fi_ModTime f <? pruneDate).
    + destruct (removeEntry_selects os es baseDir (fi_Name f)) as [q1 H1].
      destruct (removeEntry os es baseDir (fi_Name f)) as [es1 t1]. cbn in H1. subst es1.
      destruct (IH (List.filter q1 es)) as [q2 H2].
      destruct (hourLoop os baseDir pruneDate r (List.filter q1 es)) as [es2 t2].
      cbn in *. subst es2. rewrite filter_filter. eauto.
    + exists (fun _ => true). symmetry. apply filter_true.
Qed.

Lemma sizeLoop_selects (os : pruneOS) (baseDir : string) (maxSize : Z)
    (files : list FileInfo) :
  forall totalSize es,
    exists q, fst (sizeLoop os baseDir maxSize totalSize files es) = List.filter q es.
Proof.
  induction files as [| f r IH]; intros totalSize es; cbn.
  - exists (fun _ => true). symmetry. apply filter_true.
  - destruct (totalSize <=? maxSize).
    + exists (fun _ => true). symmetry. apply filter_true.
    + destruct (removeEntry_selects os es baseDir (fi_Name f)) as [q1 H1].
      destruct (removeEntry os es baseDir (fi_Name f)) as [es1 t1]. cbn in H1. subst es1.
      match goal with
      | |- context [sizeLoop os baseDir maxSize ?ts r (List.filter q1 es)] =>
          destruct (IH ts (List.filter q1 es)) as [q2 H2];
          destruct (sizeLoop os baseDir maxSize ts r (List.filter q1 es)) as [es2 t2]
      end.
      cbn in *. subst es2. rewrite filter_filter. eauto.
Qed.

Lemma pruneByHour_selects (os : pruneOS) (es : list FileInfo) (base : string) (hours : Z) :
  exists q, fst (pruneByHour os es base hours) = List.filter q es.
Proof.
  unfold pruneByHour. destruct (patternOf base) as [baseDir pattern].
  destruct (ListFilesByDateMatching os es pattern).
  - apply hourLoop_selects.
  - exists (fun _ => true). symmetry. apply filter_true.
Qed.

Lemma pruneToSize_selects (os : pruneOS) (es : list FileInfo) (base : string) (maxSize : Z) :
  exists q, fst (pruneToSize os es base maxSize) = List.filter q es.
Proof.
  unfold pruneToSize. destruct (patternOf base) as [baseDir pattern].
  destruct (ListFilesByDateMatching os es pattern).
  - apply sizeLoop_selects.
  - exists (fun _ => true). symmetry. apply filter_true.
Qed.

(** The loop of [pruneByCount] when every removal succeeds: it removes the
    first [k] files of the list, each removal takes one matching entry out
    of the directory, and the entries left are those that bear none of the
    names removed. *)
Lemma countLoop_removes (os : pruneOS) (baseDir : string) (p : FileInfo -> bool) :
  (forall path, p_remove os path = None) ->
  forall (k : nat) (files es : list FileInfo),
    (k <= length files)%nat ->
    List.NoDup (map fi_Name es) ->
    List.NoDup (map fi_Name files) ->
    (forall f, In f files -> In f es /\ p f = true) ->
    exists t,
      countLoop os baseDir k files es
      = Done (List.filter (notRemoved (firstn k files)) es, t)
      /\ removed t = map (fun f => baseDir +:+ "/" +:+ fi_Name f) (firstn k files)
      /\ (length (List.filter p (List.filter (notRemoved (firstn k files)) es)) + k)%nat
         = length (List.filter p es).
Proof.
  intros Hrm. induction k as [| k IH]; intros files es Hk Hes Hfiles Hin.
  - exists []. cbn. unfold notRemoved. cbn. rewrite filter_true.
    split; [reflexivity |]. split; [reflexivity | lia].
  - destruct files as [| f r]; [cbn in Hk; lia |].
    cbn [countLoop]. unfold removeEntry. rewrite Hrm.
    cbn [map] in Hfiles. apply List.NoDup_cons_iff in Hfiles as [Hf Hr].
    destruct (Hin f (or_introl eq_refl)) as [Hfes Hpf].
    destruct (IH r (List.filter (otherName (fi_Name f)) es)) as (t & Hrun & Hrem & Hlen).
    + cbn in Hk. lia.
    + apply NoDup_names_filter. exact Hes.
    + exact Hr.
    + intros g Hg. destruct (Hin g (or_intror Hg)) as [Hges Hpg].
      split; [| exact Hpg]. apply filter_In. split; [exact Hges |].
      unfold otherName. destruct (String.eqb_spec (fi_Name g) (fi_Name f)) as [Heq |];
        [| reflexivity].
      exfalso. apply Hf. rewrite <- Heq. apply in_map. exact Hg.
    + assert (Hcomb : List.filter (notRemoved (firstn k r))
                        (List.filter (otherName (fi_Name f)) es)
                      = List.filter (notRemoved (firstn (S k) (f :: r))) es)
        by (rewrite filter_filter; reflexivity).
      rewrite Hcomb in Hrun, Hlen. rewrite Hrun.
      eexists. split; [reflexivity |]. split.
      * cbn. rewrite Hrem. reflexivity.
      * pose proof (remove_takes_one p f es Hes Hfes Hpf). lia.
Qed.

Lemma less_notNewer (y x : FileInfo) :
  (Less y x = true -> notNewer y x) /\ (Less y x = false -> notNewer x y).
Proof.
  unfold Less, notNewer.
  destruct (Z.eqb_spec (fi_ModTime y) (fi_ModTime x)); [lia |].
  destruct (Z.ltb_spec (fi_ModTime y) (fi_ModTime x)); split; intros; try discriminate; lia.
Qed.

Lemma insertByDate_sorted (x : FileInfo) (l : list FileInfo) :
  StronglySorted notNewer l -> StronglySorted notNewer (insertByDate x l).
Proof.
  induction l as [| y l IH]; intros Hs; cbn.
  - constructor; constructor.
  - apply StronglySorted_inv in Hs as [Hl Hy].
    destruct (Less y x) eqn:Hless.
    + constructor; [apply IH; exact Hl |].
      eapply Permutation_Forall; [symmetry; apply insertByDate_perm |].
      constructor; [apply (proj1 (less_notNewer y x)); exact Hless | exact Hy].
    + constructor; [constructor; assumption |].
      assert (Hxy : notNewer x y) by (apply (proj2 (less_notNewer y x)); exact Hless).
      constructor; [exact Hxy |].
      eapply Forall_impl; [exact Hy |]. unfold notNewer in *. intros z Hz. lia.
Qed.

Lemma sortByDate_sorted (l : list FileInfo) : StronglySorted notNewer (sortByDate l).
Proof.
  induction l as [| x l IH]; cbn; [constructor | apply insertByDate_sorted, IH].
Qed.

Lemma filter_sorted (p : FileInfo -> bool) (l : list FileInfo) :
  StronglySorted notNewer l -> StronglySorted notNewer (List.filter p l).
Proof.
  induction l as [| x l IH]; intros Hs; cbn; [constructor |].
  apply StronglySorted_inv in Hs as [Hl Hx].
  destruct (p x); [| apply IH; exact Hl].
  constructor; [apply IH; exact Hl |].
  apply List.Forall_forall. intros y Hy. apply filter_In in Hy as [Hy _].
  revert y Hy. apply List.Forall_forall. exact Hx.
Qed.

(** The list a sweep works on: sorted by modification time, oldest first;
    its files are the matching entries, and their names differ when those
    of the directory do. *)
Lemma listing_facts (os : pruneOS) (es : list FileInfo) (pattern : string)
    (files : list FileInfo) :
  ListFilesByDateMatching os es pattern = inl files ->
  StronglySorted notNewer files
  /\ Permutation files (List.filter (keepMatching os pattern) es)
  /\ (forall f, In f files -> In f es /\ keepMatching os pattern f = true)
  /\ (List.NoDup (map fi_Name es) -> List.NoDup (map fi_Name files)).
Proof.
  unfold ListFilesByDateMatching. destruct (p_listErr os); [discriminate |].
  intros H. injection H as <-.
  pose proof (sortByDate_perm es) as Hperm.
  split; [apply filter_sorted, sortByDate_sorted |].
  split; [apply filter_perm; exact Hperm |]. split.
  - intros f Hf. apply filter_In in Hf as [Hf Hk]. split; [| exact Hk].
    eapply Permutation_in; eassumption.
  - intros Hnd. apply NoDup_names_filter.
    eapply Permutation_NoDup; [| exact Hnd].
    apply Permutation_map. symmetry. exact Hperm.
Qed.

Lemma listing_exists (os : pruneOS) (es : list FileInfo) (pattern : string) :
  p_listErr os = None ->
  exists files, ListFilesByDateMatching os es pattern = inl files.
Proof. intros H. unfold ListFilesByDateMatching. rewrite H. eauto. Qed.

Lemma selection_matches_fewer (p q : FileInfo -> bool) (es : list FileInfo) :
  (length (List.filter p (List.filter q es)) <= length (List.filter p es))%nat.
Proof. rewrite filter_swap. apply filter_length_le. Qed.

Lemma listing_no_error (os : pruneOS) (es : list FileInfo) (pattern : string)
    (files : list FileInfo) :
  ListFilesByDateMatching os es pattern = inl files -> p_listErr os = None.
Proof.
  unfold ListFilesByDateMatching. destruct (p_listErr os); [discriminate | reflexivity].
Qed.

Lemma notRemoved_gone (gone l : list FileInfo) :
  (forall f, In f l -> In f gone) ->
  List.filter (notRemoved gone) l = [].
Proof.
  intros Hin. induction l as [| f l IH]; cbn; [reflexivity |].
  assert (Hf : notRemoved gone f = false).
  { unfold notRemoved. apply not_true_is_false. intros Hall.
    assert (Hg : In f gone) by (apply Hin; left; reflexivity).
    pose proof (proj1 (forallb_forall _ _) Hall f Hg) as Hself.
    unfold otherName in Hself. rewrite String.eqb_refl in Hself. discriminate. }
  rewrite Hf. apply IH. intros g Hg. apply Hin. right. exact Hg.
Qed.

Lemma notRemoved_kept (gone l : list FileInfo) :
  (forall g f, In g l -> In f gone -> fi_Name g <> fi_Name f) ->
  List.filter (notRemoved gone) l = l.
Proof.
  intros Hne. apply forallb_filter_id, forallb_forall. intros g Hg.
  unfold notRemoved. apply forallb_forall. intros f Hf. unfold otherName.
  destruct (String.eqb_spec (fi_Name g) (fi_Name f)) as [Heq |]; [| reflexivity].
  exfalso. exact (Hne g f Hg Hf Heq).
Qed.

Lemma NoDup_app_apart {A : Type} (l1 l2 : list A) :
  List.NoDup (l1 ++ l2) -> forall x, In x l1 -> ~ In x l2.
Proof.
  induction l1 as [| a l1 IH]; cbn; intros Hnd x Hx; [destruct Hx |].
  apply List.NoDup_cons_iff in Hnd as [Ha Hnd].
  destruct Hx as [-> | Hx]; [| apply IH; assumption].
  intros H2. apply Ha. apply in_or_app. right. exact H2.
Qed.

(** Among files whose names differ, dropping those that bear the name of
    one of the first [k] leaves the files after the first [k]. *)
Lemma notRemoved_skipn (k : nat) (files : list FileInfo) :
  List.NoDup (map fi_Name files) ->
  List.filter (notRemoved (firstn k files)) files = skipn k files.
Proof.
  intros Hnd.
  rewrite <- (firstn_skipn k files) at 2.
  rewrite <- (firstn_skipn k files) in Hnd. rewrite map_app in Hnd.
  rewrite List.filter_app, notRemoved_gone by auto.
  rewrite notRemoved_kept; [reflexivity |].
  intros g f Hg Hf Heq.
  apply (NoDup_app_apart _ _ Hnd (fi_Name f)); [apply in_map; exact Hf |].
  rewrite <- Heq. apply in_map. exact Hg.
Qed.

Lemma pruneByCount_removes_oldest (os : pruneOS) (es : list FileInfo)
    (base : string) (c : Z) (files : list FileInfo) :
  0 < c -> in_int64 c ->
  Z.of_nat (length es) < 2 ^ 63 ->
  List.NoDup (map fi_Name es) ->
  (forall path, p_remove os path = None) ->
  ListFilesByDateMatching os es (snd (patternOf base)) = inl files ->
  let k := (length files - Z.to_nat c)%nat in
  exists t files',
    pruneByCount os es base c
    = Done (List.filter (notRemoved (firstn k files)) es, t)
    /\ removed t
       = map (fun f => fst (patternOf base) +:+ "/" +:+ fi_Name f) (firstn k files)
    /\ ListFilesByDateMatching os (List.filter (notRemoved (firstn k files)) es)
         (snd (patternOf base)) = inl files'
    /\ Permutation files' (skipn k files).
Proof.
  intros Hc Hcr Hlen Hnd Hrm Hlist k.
  unfold pruneByCount. destruct (patternOf base) as [baseDir pattern].
  cbn [fst snd] in *. rewrite Hlist.
  destruct (listing_facts os es pattern files Hlist) as (_ & Hperm & Hin & Hndf).
  pose proof (filter_length_le (keepMatching os pattern) es) as Hle.
  pose proof (Permutation_length Hperm) as Hcount.
  assert (Hint : int (Z.of_nat (length files) - c) = Z.of_nat (length files) - c).
  { apply int64_id. unfold in_int64 in *. lia. }
  rewrite Hint.
  destruct (listing_exists os (List.filter (notRemoved (firstn k files)) es) pattern
              (listing_no_error _ _ _ _ Hlist)) as [files' Hlist'].
  assert (Hleft : Permutation files' (skipn k files)).
  { destruct (listing_facts _ _ _ _ Hlist') as (_ & Hperm' & _).
    rewrite Hperm', filter_swap.
    rewrite <- (notRemoved_skipn k files (Hndf Hnd)).
    apply filter_perm. symmetry. exact Hperm. }
  destruct (Z.ltb_spec (Z.of_nat (length files) - c) 1) as [Hfew | Hmany].
  - exists [], files'. assert (Hk0 : k = 0%nat) by lia.
    assert (Hsame : List.filter (notRemoved (firstn k files)) es = es).
    { rewrite Hk0. cbn. unfold notRemoved. cbn. apply filter_true. }
    split; [rewrite Hsame; reflexivity |].
    split; [rewrite Hk0; reflexivity |].
    split; [exact Hlist' | exact Hleft].
  - assert (Hk : Z.to_nat (Z.of_nat (length files) - c) = k) by lia.
    rewrite Hk.
    destruct (countLoop_removes os baseDir (keepMatching os pattern) Hrm
                k files es ltac:(lia) Hnd (Hndf Hnd) Hin)
      as (t & Hrun & Hrem & _).
    exists t, files'. split; [exact Hrun |]. split; [exact Hrem |].
    split; [exact Hlist' | exact Hleft].
Qed.

(** C6: in a directory whose names differ, when every removal succeeds,
    the count step of [Prune] with limit [c > 0] lists the matching files
    sorted by modification time, oldest first, and removes exactly the
    first [len - c] of the [len] files listed (none when [len <= c]): the
    matching files afterwards are the files listed after those, at most
    [c] of them.  [Prune] as a whole, whatever its other limits, leaves at
    most [c], hence at most [c + 1], matching files, and with the other
    limits off [Prune] is the count step. *)
Theorem Prune_keeps_count (pruner : filePruner) (os : pruneOS)
    (entries : list FileInfo) (base : string) :
  0 < pruneCount pruner -> in_int64 (pruneCount pruner) ->
  Z.of_nat (length entries) < 2 ^ 63 ->
  List.NoDup (map fi_Name entries) ->
  p_listErr os = None ->
  (forall path, p_remove os path = None) ->
  let c := pruneCount pruner in
  let baseDir := fst (patternOf base) in
  let pattern := snd (patternOf base) in
  (forall files,
     ListFilesByDateMatching os entries pattern = inl files ->
     let k := (length files - Z.to_nat c)%nat in
     StronglySorted notNewer files
     /\ exists entries' t files',
          pruneByCount os entries base c = Done (entries', t)
          /\ removed t = map (fun f => baseDir +:+ "/" +:+ fi_Name f) (firstn k files)
          /\ ListFilesByDateMatching os entries' pattern = inl files'
          /\ Permutation files' (skipn k files)
          /\ length files' = (length files - k)%nat
          /\ Z.of_nat (length files') <= c + 1)
  /\ (exists entries' t files',
        Prune pruner os entries base = Done (entries', t)
        /\ ListFilesByDateMatching os entries' pattern = inl files'
        /\ Z.of_nat (length files') <= c + 1)
  /\ (pruneHours pruner <= 0 -> pruneSize pruner <= 0 ->
      exists entries' t,
        pruneByCount os entries base c = Done (entries', t)
        /\ Prune pruner os entries base = Done (entries', t)).
Proof.
  intros Hc Hcr Hlen Hnd Hlist Hrm c baseDir pattern.
  split; [| split].
  - intros files Hfiles k.
    destruct (listing_facts _ _ _ _ Hfiles) as (Hsorted & _).
    split; [exact Hsorted |].
    destruct (pruneByCount_removes_oldest os entries base c files
                Hc Hcr Hlen Hnd Hrm Hfiles)
      as (t & files' & Hrun & Hrem & Hlist' & Hleft).
    fold k in Hrun, Hrem, Hlist', Hleft.
    pose proof (Permutation_length Hleft) as Hn. rewrite length_skipn in Hn.
    eexists _, t, files'. split; [exact Hrun |]. split; [exact Hrem |].
    split; [exact Hlist' |]. split; [exact Hleft |]. split; [exact Hn |].
    subst k c. lia.
  - unfold Prune. fold c.
    (* by age *)
    assert (Hage : exists q1,
              fst (if 0 <? pruneHours pruner
                   then pruneByHour os entries base (pruneHours pruner)
                   else (entries, [])) = List.filter q1 entries).
    { destruct (0 <? pruneHours pruner); [apply pruneByHour_selects |].
      exists (fun _ => true). symmetry. apply filter_true. }
    destruct Hage as [q1 Hq1].
    destruct (if 0 <? pruneHours pruner
              then pruneByHour os entries base (pruneHours pruner)
              else (entries, [])) as [entries1 t1].
    cbn [fst] in Hq1. subst entries1.
    (* by count *)
    destruct (Z.ltb_spec 0 c) as [_ | Hno]; [| lia].
    destruct (listing_exists os (List.filter q1 entries) pattern Hlist) as [files1 Hfiles1].
    destruct (pruneByCount_removes_oldest os (List.filter q1 entries) base c files1
                Hc Hcr) as (t2 & files2 & Hrun & _ & Hlist2 & Hleft).
    { pose proof (filter_length_le q1 entries). lia. }
    { apply NoDup_names_filter. exact Hnd. }
    { exact Hrm. }
    { exact Hfiles1. }
    rewrite Hrun.
    pose proof (Permutation_length Hleft) as Hn2. rewrite length_skipn in Hn2.
    (* by size *)
    match type of Hlist2 with
    | ListFilesByDateMatching os ?es2 _ = _ => set (entries2 := es2) in *
    end.
    assert (Hsize : exists q3,
              fst (if 0 <? pruneSize pruner
                   then pruneToSize os entries2 base (pruneSize pruner)
                   else (entries2, [])) = List.filter q3 entries2).
    { destruct (0 <? pruneSize pruner); [apply pruneToSize_selects |].
      exists (fun _ => true). symmetry. apply filter_true. }
    destruct Hsize as [q3 Hq3].
    destruct (if 0 <? pruneSize pruner
              then pruneToSize os entries2 base (pruneSize pruner)
              else (entries2, [])) as [entries3 t3].
    cbn [fst] in Hq3. subst entries3.
    destruct (listing_exists os (List.filter q3 entries2) pattern Hlist) as [files3 Hfiles3].
    eexists _, _, files3. split; [reflexivity |]. split; [exact Hfiles3 |].
    destruct (listing_facts _ _ _ _ Hfiles3) as (_ & Hperm3 & _).
    destruct (listing_facts _ _ _ _ Hlist2) as (_ & Hperm2 & _).
    apply Permutation_length in Hperm3, Hperm2.
    pose proof (selection_matches_fewer (keepMatching os pattern) q3 entries2).
    subst pattern c. lia.
  - intros Hh Hs. unfold Prune. fold c.
    destruct (Z.ltb_spec 0 (pruneHours pruner)); [lia |].
    destruct (Z.ltb_spec 0 (pruneSize pruner)); [lia |].
    destruct (Z.ltb_spec 0 c); [| lia].
    destruct (listing_exists os entries pattern Hlist) as [files Hfiles].
    destruct (pruneByCount_removes_oldest os entries base c files
                Hc Hcr Hlen Hnd Hrm Hfiles) as (t & _ & Hrun & _).
    eexists _, t. split; [exact Hrun |].
    rewrite Hrun. cbn [app]. rewrite app_nil_r. reflexivity.
Qed.

Lemma Prune_keeps_count_witness :
  exists entries' t files',
    Prune (Scenario.byCount 2) Scenario.sweep Scenario.entries "/var/log/log.log"
    = Done (entries', t)
    /\ ListFilesByDateMatching Scenario.sweep entries'
         (snd (patternOf "/var/log/log.log")) = inl files'
    /\ Z.of_nat (length files') <= 2 + 1.
Proof.
  refine (proj1 (proj2 (Prune_keeps_count (Scenario.byCount 2) Scenario.sweep
                          Scenario.entries "/var/log/log.log" _ _ _ _ _ _))).
  - reflexivity.
  - vm_compute. split; [discriminate | reflexivity].
  - reflexivity.
  - repeat (apply List.NoDup_cons; [cbn; intuition discriminate |]).
    apply List.NoDup_nil.
  - reflexivity.
  - intros path. reflexivity.
Defined.

(** *** Which message reaches the batch, on every input *)

Lemma itemsAt_insert (states : gmap nat fileState) (a a' : nat) (st st' : fileState) :
  states !! a = Some st -> batch st' = batch st ->
  itemsAt (<[a := st']> states) a' = itemsAt states a'.
Proof.
  intros Hst Hb. unfold itemsAt.
  destruct (decide (a = a')) as [<- | Hne].
  - rewrite lookup_insert_eq, Hst, Hb. reflexivity.
  - rewrite lookup_insert_ne by exact Hne. reflexivity.
Qed.

Lemma itemsAt_fresh (states : gmap nat fileState) (a' : nat) (n : Z) :
  itemsAt (<[fresh (dom states) := newFileState n]> states) a' = itemsAt states a'.
Proof.
  unfold itemsAt. destruct (decide (fresh (dom states) = a')) as [<- | Hne].
  - rewrite lookup_insert_eq.
    assert (Hnone : states !! fresh (dom states) = None).
    { apply not_elem_of_dom, is_fresh. }
    rewrite Hnone. reflexivity.
  - rewrite lookup_insert_ne by exact Hne. reflexivity.
Qed.

Lemma consult_frame (core : Core) (prod prod1 : File) (a : nat) (force : bool)
    (r : bool * option error) :
  keepsBatch core ->
  consult core prod a force = Done (prod1, r) ->
  files prod1 = files prod
  /\ filesByStream prod1 = filesByStream prod
  /\ forall a', itemsAt (store prod1) a' = itemsAt (store prod) a'.
Proof.
  intros Hkeep. unfold consult.
  destruct (store prod !! a) as [st |] eqn:Hst; [| discriminate].
  pose proof (Hkeep st (rotate prod) force) as Hb.
  destruct (needsRotate core st (rotate prod) force) as [st' r'].
  intros H. injection H as <- <-. cbn.
  split; [reflexivity |]. split; [reflexivity |].
  intros a'. apply (itemsAt_insert _ _ _ st); assumption.
Qed.

Lemma openLog_frame (os : OS) (prod prod' : File) (a : nat)
    (dir name ext base : string) (t : list Event) (r : option nat * option error) :
  openLog os prod a dir name ext base = Done (prod', t, r) ->
  files prod' = files prod
  /\ forall a', itemsAt (store prod') a' = itemsAt (store prod) a'.
Proof.
  unfold openLog.
  destruct (os_MkdirAll os dir).
  { intros H. injection H as <- <- <-. auto. }
  destruct (store prod !! a) as [st |] eqn:Hst; [| discriminate].
  destruct (os_OpenFile os _ _); intros H; injection H as <- <- <-; cbn;
    (split; [reflexivity |]); intros a';
    apply (itemsAt_insert _ _ _ st); auto.
Qed.

Lemma buffered_frame (prod prod' : File) :
  files prod' = files prod ->
  (forall a', itemsAt (store prod') a' = itemsAt (store prod) a') ->
  forall base, buffered prod' base = buffered prod base.
Proof.
  intros Hf Hi base. unfold buffered. rewrite Hf.
  destruct (files prod !! base); [apply Hi | reflexivity].
Qed.

Lemma mapAndOpen_frame (core : Core) (os : OS) (prod prod' : File) (streamID : Z)
    (force : bool) (t : list Event) (r : option nat * option error) :
  keepsBatch core ->
  mapAndOpen core os prod streamID force = Done (prod', t, r) ->
  forall base, buffered prod' base = buffered prod base.
Proof.
  intros Hkeep. unfold mapAndOpen.
  destruct (resolveNames core prod streamID) as [[dir name] ext].
  destruct (files prod !! _) as [a |] eqn:Hfile.
  - destruct (filesByStream prod !! streamID).
    + intros H. apply openLog_frame in H as [Hf Hi]. apply buffered_frame; assumption.
    + destruct (consult core _ a force) as [[prod2 [rot err]] |] eqn:Hc; [| discriminate].
      apply consult_frame in Hc as (Hf2 & _ & Hi2); [| exact Hkeep].
      cbn in Hf2, Hi2.
      destruct rot; cbn [negb].
      * intros H. apply openLog_frame in H as [Hf Hi].
        apply buffered_frame; [congruence |]. intros a'. rewrite Hi. apply Hi2.
      * intros H. injection H as <- <- <-. apply buffered_frame; assumption.
  - intros H. apply openLog_frame in H as [Hf Hi]. cbn in Hf, Hi.
    intros base. unfold buffered. rewrite Hf.
    destruct (decide (dir +:+ "/" +:+ name +:+ ext = base)) as [<- | Hne].
    + rewrite lookup_insert_eq, Hfile, Hi.
      rewrite itemsAt_fresh. unfold itemsAt.
      assert (Hnone : store prod !! fresh (dom (store prod)) = None)
        by apply not_elem_of_dom, is_fresh.
      rewrite Hnone. reflexivity.
    + rewrite lookup_insert_ne by exact Hne.
      destruct (files prod !! base); [| reflexivity].
      rewrite Hi. apply itemsAt_fresh.
Qed.

(** [getFileState] buffers nothing and drops nothing from a batch. *)
Lemma getFileState_frame (core : Core) (os : OS) (prod prod' : File) (streamID : Z)
    (force : bool) (t : list Event) (r : option nat * option error) :
  keepsBatch core ->
  getFileState core os prod streamID force = Done (prod', t, r) ->
  forall base, buffered prod' base = buffered prod base.
Proof.
  intros Hkeep. unfold getFileState.
  destruct (filesByStream prod !! streamID) as [a |].
  - destruct (consult core prod a force) as [[prod1 [rot err]] |] eqn:Hc; [| discriminate].
    apply consult_frame in Hc as (Hf1 & _ & Hi1); [| exact Hkeep].
    destruct rot; cbn [negb].
    + intros H base. rewrite (mapAndOpen_frame _ _ _ _ _ _ _ _ Hkeep H).
      apply buffered_frame; assumption.
    + intros H. injection H as <- <- <-. apply buffered_frame; assumption.
  - apply mapAndOpen_frame. exact Hkeep.
Qed.

Lemma AppendOrFlush_adds_only (core : Core) (os : OS) (msgs : gmap nat Message)
    (st st' : fileState) (msg : nat) (t : list Event) :
  AppendOrFlush core os msgs st msg = Done (st', t) ->
  forall p, In p (items (batch st')) -> In p (items (batch st)) \/ p = msg.
Proof.
  unfold AppendOrFlush.
  destruct (hasRoom st).
  { intros H. injection H as <- <-. cbn. intros p Hp.
    apply in_app_or in Hp as [Hp | [Hp | []]]; auto. }
  destruct (IsActiveOrStopping core).
  - unfold flush. destruct (writer st); [| discriminate].
    destruct (os_Write os _); cbn.
    + match goal with
      | |- context [hasRoom ?s] => destruct (hasRoom s)
      end; intros H; injection H as <- <-; cbn; intros p Hp;
        [destruct Hp as [Hp | []]; auto | destruct Hp].
    + match goal with
      | |- context [hasRoom ?s] => destruct (hasRoom s)
      end; intros H; injection H as <- <-; cbn; intros p Hp;
        [destruct Hp as [Hp | []]; auto | destruct Hp].
  - intros H. injection H as <- <-. auto.
Qed.

(** On every input, a message that [writeMessage] adds to a batch is the
    message it was given, the original; its clone, a new object, is added
    to no batch. *)
Lemma writeMessage_never_buffers_clone (core : Core) (os : OS) (prod prod' : File)
    (msgs msgs' : gmap nat Message) (msg : nat) (t : list Event) :
  keepsBatch core ->
  writeMessage core os prod msgs msg = Done (prod', msgs', t) ->
  exists streamMsg,
    Clone msgs msg = Done (msgs', streamMsg)
    /\ streamMsg <> msg
    /\ (forall base p, In p (buffered prod' base) ->
                       In p (buffered prod base) \/ p = msg)
    /\ (forall base, In streamMsg (buffered prod' base) ->
                     In streamMsg (buffered prod base)).
Proof.
  intros Hkeep. unfold writeMessage.
  destruct (Clone msgs msg) as [[msgs1 streamMsg] |] eqn:Hclone; [| discriminate].
  destruct (Clone_is_fresh _ _ _ _ Hclone) as (Hne & _ & _).
  destruct (getFileState core os prod _ false) as [[[prod1 t1] [state err]] |] eqn:Hget;
    [| discriminate].
  pose proof (getFileState_frame _ _ _ _ _ _ _ _ Hkeep Hget) as Hframe.
  assert (Hmain : forall prodx,
            (forall base p, In p (buffered prodx base) ->
                            In p (buffered prod base) \/ p = msg) ->
            (forall base, In streamMsg (buffered prodx base) ->
                          In streamMsg (buffered prod base))).
  { intros prodx Hx base Hin. destruct (Hx base streamMsg Hin); [assumption | contradiction]. }
  assert (Hfallback : Done (prod1, msgs1, t1 ++ [EvLogError "Write error: "; EvTryFallback msg])
                      = Done (prod', msgs', t) ->
            exists streamMsg0,
              Done (msgs1, streamMsg) = Done (msgs', streamMsg0)
              /\ streamMsg0 <> msg
              /\ (forall base p, In p (buffered prod' base) ->
                                 In p (buffered prod base) \/ p = msg)
              /\ (forall base, In streamMsg0 (buffered prod' base) ->
                               In streamMsg0 (buffered prod base))).
  { intros H. injection H as <- <- <-. exists streamMsg.
    split; [reflexivity |]. split; [exact Hne |].
    assert (Hx : forall base p, In p (buffered prod1 base) ->
                                In p (buffered prod base) \/ p = msg).
    { intros base p Hp. rewrite Hframe in Hp. auto. }
    split; [exact Hx | exact (Hmain _ Hx)]. }
  destruct state as [a |], err as [e |]; try exact Hfallback; [| discriminate].
  clear Hfallback.
  - destruct (store prod1 !! a) as [st |] eqn:Hst; [| discriminate].
    destruct (AppendOrFlush core os msgs1 st msg) as [[st' t'] |] eqn:Happ; [| discriminate].
    intros H. injection H as <- <- <-. exists streamMsg.
    split; [reflexivity |]. split; [exact Hne |].
    assert (Hx : forall base p,
              In p (buffered (setStore prod1 (<[a := st']> (store prod1))) base) ->
              In p (buffered prod base) \/ p = msg).
    { intros base p. rewrite <- (Hframe base). unfold buffered. cbn.
      destruct (files prod1 !! base) as [a' |]; [| auto].
      unfold itemsAt. destruct (decide (a = a')) as [<- | Hna].
      - rewrite lookup_insert_eq, Hst. apply (AppendOrFlush_adds_only _ _ _ _ _ _ _ Happ).
      - rewrite lookup_insert_ne by exact Hna. auto. }
    split; [exact Hx | exact (Hmain _ Hx)].
Qed.

(** The [needsRotate] of the specification leaves the batch alone. *)
Lemma needsRotateSpec_keepsBatch (now : Z) (look : string -> osFile)
    (crossed : Z -> Z -> Z -> bool) (st : fileState) (rot : fileRotateConfig)
    (force : bool) :
  batch (fst (needsRotateSpec now look crossed st rot force)) = batch st.
Proof.
  unfold needsRotateSpec.
  destruct force; [reflexivity |].
  destruct (enabled rot); cbn [negb]; [| reflexivity].
  destruct (writer st) as [w |]; [| reflexivity].
  destruct (IsAccessible w (look (file w))) as [w1 ok].
  destruct ok; cbn [negb]; [| reflexivity].
  destruct (Size w1 (look (file w))) as [w2 size].
  repeat match goal with
         | |- context [if ?b then _ else _] => destruct b
         end; reflexivity.
Qed.

Lemma Scenario_core_keepsBatch : keepsBatch Scenario.core.
Proof. intros st rot force. apply needsRotateSpec_keepsBatch. Qed.

(** * More of the code *)

(** ** The metric store *)

Lemma int64_mod (z : Z) : int64 z mod 2 ^ 64 = z mod 2 ^ 64.
Proof.
  unfold int64.
  rewrite Zminus_mod, Zmod_mod, <- Zminus_mod.
  replace (z + 2 ^ 63 - 2 ^ 63) with z by lia. reflexivity.
Qed.

Lemma int64_congr (a b : Z) : a mod 2 ^ 64 = b mod 2 ^ 64 -> int64 a = int64 b.
Proof.
  intros H. unfold int64. f_equal.
  rewrite (Zplus_mod a), (Zplus_mod b), H. reflexivity.
Qed.

Lemma int64_add_l (a b : Z) : int64 (int64 a + b) = int64 (a + b).
Proof.
  apply int64_congr. rewrite Zplus_mod, int64_mod, <- Zplus_mod. reflexivity.
Qed.

Lemma int64_add_r (a b : Z) : int64 (a + int64 b) = int64 (a + b).
Proof. rewrite Z.add_comm, int64_add_l, Z.add_comm. reflexivity. Qed.

(** X1: A run of [Add], [Sub] and [Set] on a metric that exists never panics
    and leaves the metric at the unbounded total of the run wrapped into
    [int64]; the other metrics keep their values.  So [Sub] undoes [Add]
    for every value, the least [int64] included. *)
Theorem metric_updates_total (us : list Log.update) :
  forall (met : gmap string Z) (name : string) (start : Z),
    met !! name = Some start ->
    in_int64 start ->
    Log.valuesFit us ->
    exists met',
      Log.applyAll met name us = Done met'
      /\ Log.Get met' name = (int64 (Log.total start us), None)
      /\ forall other, other <> name -> met' !! other = met !! other.
Proof.
  induction us as [| u us IH]; intros met name start Hget Hstart Hfit.
  - exists met. cbn. unfold Log.Get. rewrite Hget, int64_id by exact Hstart. auto.
  - apply Forall_cons in Hfit as [Hu Hfit].
    assert (Hstep : forall v,
              met !! name = Some start ->
              exists met',
                Log.applyAll (<[name := int64 v]> met) name us = Done met'
                /\ Log.Get met' name = (int64 (Log.total v us), None)
                /\ forall other, other <> name -> met' !! other = met !! other).
    { intros v _.
      destruct (IH (<[name := int64 v]> met) name (int64 v)) as (met' & Hrun & Hval & Hframe).
      - apply lookup_insert_eq.
      - apply int64_range.
      - exact Hfit.
      - exists met'. split; [exact Hrun |]. split.
        + rewrite Hval. f_equal. clear.
          revert v. induction us as [| u' us' IHu]; intros v; cbn.
          * apply int64_congr, int64_mod.
          * destruct u'; [ | | reflexivity].
            -- rewrite <- (IHu (int64 v + value)), <- (IHu (v + value)).
               rewrite int64_add_l. reflexivity.
            -- rewrite <- (IHu (int64 v - value)), <- (IHu (v - value)).
               unfold Z.sub. rewrite int64_add_l. reflexivity.
        + intros other Hne. rewrite Hframe by exact Hne.
          apply lookup_insert_ne. congruence. }
    destruct u as [v | v | v]; cbn [Log.applyAll Log.apply Log.total].
    + unfold Log.Add. rewrite Hget. apply Hstep. exact Hget.
    + unfold Log.Sub, Log.Add. rewrite Hget.
      rewrite int64_add_r. apply Hstep. exact Hget.
    + unfold Log.Set_. rewrite Hget.
      replace (<[name := v]> met) with (<[name := int64 v]> met)
        by (rewrite int64_id by exact Hu; reflexivity).
      apply Hstep. exact Hget.
Qed.

Lemma metric_updates_total_witness :
  exists met',
    Log.applyAll {[ "sent" := 5; "lost" := 7 ]} "sent"
      [Log.ByAdd (- 2 ^ 63); Log.BySub (- 2 ^ 63)] = Done met'
    /\ Log.Get met' "sent" = (5, None)
    /\ forall other, other <> "sent" ->
         met' !! other = ({[ "sent" := 5; "lost" := 7 ]} : gmap string Z) !! other.
Proof.
  apply (metric_updates_total
           [Log.ByAdd (- 2 ^ 63); Log.BySub (- 2 ^ 63)]
           {[ "sent" := 5; "lost" := 7 ]} "sent" 5).
  - reflexivity.
  - vm_compute. split; [discriminate | reflexivity].
  - repeat constructor; vm_compute; discriminate.
Defined.

(** X2: A metric must be made with [New] before it is used: on a name that is
    not in the store, [Get] answers 0 with an error, and [Set], [SetI],
    [Add] and [Sub] panic on the nil pointer; after [New] the metric reads
    0 and takes updates, and a second [New] puts it back to 0. *)
Theorem metric_must_be_created (met : gmap string Z) (name : string) (v : Z) :
  met !! name = None ->
  in_int64 v ->
  (Log.Get met name = (0, Some (Errorf ("Metric " +:+ name +:+ " not found.")))
   /\ (exists why, Log.Set_ met name v = Panic why)
   /\ (exists why, Log.SetI met name v = Panic why)
   /\ (exists why, Log.Add met name v = Panic why)
   /\ (exists why, Log.Sub met name v = Panic why))
  /\ Log.Get (Log.New met name) name = (0, None)
  /\ (exists met',
        Log.Set_ (Log.New met name) name v = Done met'
        /\ Log.Get met' name = (v, None)
        /\ Log.Get (Log.New met' name) name = (0, None)
        /\ forall other, other <> name -> Log.Get (Log.New met' name) other = Log.Get met other).
Proof.
  intros Hnone Hv. split; [| split].
  - unfold Log.Get, Log.SetI, Log.Sub, Log.Add, Log.Set_. rewrite Hnone.
    repeat split; eauto.
  - unfold Log.Get, Log.New. rewrite lookup_insert_eq. reflexivity.
  - unfold Log.Set_, Log.New, Log.Get. rewrite lookup_insert_eq.
    eexists. split; [reflexivity |].
    rewrite !lookup_insert_eq. repeat split.
    intros other Hne. rewrite !lookup_insert_ne by congruence. reflexivity.
Qed.

Lemma metric_must_be_created_witness :
  Log.Get ∅ "sent" = (0, Some (Errorf "Metric sent not found."))
  /\ exists why, Log.Add ∅ "sent" 1 = Panic why.
Proof.
  pose proof (metric_must_be_created ∅ "sent" 1 eq_refl
                ltac:(vm_compute; split; [discriminate | reflexivity]))
    as [(Hget & _ & _ & Hadd & _) _].
  split; [exact Hget | exact Hadd].
Defined.

(** ** The disk writer beyond its size *)

(** X3: Once a stat has succeeded, [IsAccessible] answers true for the life of
    the writer, whatever becomes of the file: a log that is unlinked or
    whose stat starts to fail is never noticed. *)
Theorem IsAccessible_never_turns_false (w : fileStateWriterDisk) (f : osFile)
    (ops : list writerOp) :
  stats w = None ->
  of_statErr f = None ->
  let '(w', f') := runWriter (fst (IsAccessible w f), f) ops in
  snd (IsAccessible w' f') = true.
Proof.
  intros Hw Hf.
  destruct (first_stat_fills_cache w f Hw Hf) as (s & _ & Hg).
  assert (H1 : stats (fst (IsAccessible w f)) = Some s).
  { unfold IsAccessible. rewrite Hg. reflexivity. }
  pose proof (runWriter_keeps_cache ops _ f s H1) as Hk.
  destruct (runWriter (fst (IsAccessible w f), f) ops) as [w' f']. cbn in Hk.
  rewrite (IsAccessible_cached w' f' s Hk). reflexivity.
Qed.

Lemma IsAccessible_never_turns_false_witness :
  let w := {| file := "/tmp/log.log"; compressOnClose := false; stats := None |} in
  let f := Scenario.healthy "/tmp/log.log" in
  let ops := [OpWrite "hello" None; OpHealth (Some (Errorf "no such file or directory"))] in
  of_statErr (snd (runWriter (fst (IsAccessible w f), f) ops))
  = Some (Errorf "no such file or directory")
  /\ (let '(w', f') := runWriter (fst (IsAccessible w f), f) ops in
      snd (IsAccessible w' f') = true).
Proof.
  intros w f ops. split; [reflexivity |].
  apply (IsAccessible_never_turns_false w f ops); reflexivity.
Defined.

(** X4: A stat that fails is not cached: [IsAccessible] answers false, [Size]
    answers 0, the writer stays as it was, and the next call stats again,
    so that it sees the file once the stat succeeds. *)
Theorem failed_stat_is_retried (w : fileStateWriterDisk) (f f2 : osFile) (e : error) :
  stats w = None ->
  of_statErr f = Some e ->
  of_statErr f2 = None ->
  IsAccessible w f = (w, false)
  /\ Size w f = (w, 0)
  /\ snd (IsAccessible (fst (IsAccessible w f)) f2) = true
  /\ snd (Size (fst (Size w f)) f2) = of_size f2.
Proof.
  intros Hw Hf Hf2.
  assert (Hg : getStats w f = (w, inr e)).
  { unfold getStats, osStat. rewrite Hw, Hf. reflexivity. }
  destruct (first_stat_fills_cache w f2 Hw Hf2) as (s & Hs & Hg2).
  unfold IsAccessible, Size. rewrite Hg. cbn [fst]. rewrite Hg2. cbn.
  repeat split. exact Hs.
Qed.

Lemma failed_stat_is_retried_witness :
  let w := {| file := "/tmp/log.log"; compressOnClose := false; stats := None |} in
  let gone := {| of_name := "/tmp/log.log"; of_size := 0; of_modTime := 0;
                 of_statErr := Some (Errorf "no such file or directory") |} in
  Size w gone = (w, 0)
  /\ snd (Size (fst (Size w gone)) (Scenario.healthy "/tmp/log.log")) = 10.
Proof.
  intros w gone.
  pose proof (failed_stat_is_retried w gone (Scenario.healthy "/tmp/log.log")
                (Errorf "no such file or directory") eq_refl eq_refl eq_refl)
    as (_ & Hsize & _ & Hlater).
  split; [exact Hsize | exact Hlater].
Defined.

(** ** Compression beyond the order of closing *)

Lemma copyLoop_counts (os : compressOS) (full : nat) :
  forall round,
    Traces.yields (snd (copyLoop os full round))
    = Traces.copyRounds (snd (copyLoop os full round)).
Proof.
  induction full as [| k IH]; intros round; cbn.
  - destruct (c_copyFault os round); reflexivity.
  - destruct (c_copyFault os round); [reflexivity |].
    specialize (IH (S round)).
    destruct (copyLoop os k (S round)) as [e t]. cbn in *. congruence.
Qed.

Lemma copyLoop_to_the_end (os : compressOS) (full : nat) :
  forall round,
    (forall j, (j <= full)%nat -> c_copyFault os (round + j) = None) ->
    copyLoop os full round
    = (io_EOF, snd (copyLoop os full round))
    /\ Traces.copyRounds (snd (copyLoop os full round)) = S full.
Proof.
  induction full as [| k IH]; intros round Hok; cbn.
  - pose proof (Hok O ltac:(lia)) as H0. rewrite Nat.add_0_r in H0. rewrite H0. auto.
  - pose proof (Hok O ltac:(lia)) as H0. rewrite Nat.add_0_r in H0. rewrite H0.
    destruct (IH (S round)) as [Heq Hn].
    { intros j Hj. replace (S round + j)%nat with (round + S j)%nat by lia.
      apply Hok. lia. }
    destruct (copyLoop os k (S round)) as [e t]. cbn in *.
    injection Heq as ->. split; [reflexivity | congruence].
Qed.

Lemma copyLoop_to_the_fault (os : compressOS) (k : nat) (m : string) :
  forall full round,
    (k <= full)%nat ->
    (forall j, (j < k)%nat -> c_copyFault os (round + j) = None) ->
    c_copyFault os (round + k) = Some m ->
    copyLoop os full round
    = (Errorf m, snd (copyLoop os full round))
    /\ Traces.copyRounds (snd (copyLoop os full round)) = S k.
Proof.
  induction k as [| k IH]; intros full round Hk Hok Hfault.
  - rewrite Nat.add_0_r in Hfault. destruct full; cbn; rewrite Hfault; auto.
  - destruct full as [| full]; [lia |]. cbn.
    pose proof (Hok O ltac:(lia)) as H0. rewrite Nat.add_0_r in H0. rewrite H0.
    destruct (IH full (S round)) as [Heq Hn].
    { lia. }
    { intros j Hj. replace (S round + j)%nat with (round + S j)%nat by lia.
      apply Hok. lia. }
    { replace (S round + k)%nat with (round + S k)%nat by lia. exact Hfault. }
    destruct (copyLoop os full (S round)) as [e t]. cbn in *.
    injection Heq as ->. split; [reflexivity | congruence].
Qed.

Lemma counts_app (t1 t2 : list compressEvent) :
  Traces.copyRounds (t1 ++ t2) = (Traces.copyRounds t1 + Traces.copyRounds t2)%nat
  /\ Traces.yields (t1 ++ t2) = (Traces.yields t1 + Traces.yields t2)%nat.
Proof.
  induction t1 as [| e t1 [H1 H2]]; [auto |].
  destruct e; cbn; rewrite ?H1, ?H2; auto.
Qed.

Lemma trace_counts_of_run (w : fileStateWriterDisk) (os : compressOS) (fs : gset string) :
  c_openTarget os = None ->
  Traces.copyRounds (snd (compressAndCloseLog w os fs))
  = Traces.copyRounds (snd (copyLoop os (Z.to_nat (c_sourceSize os / chunk)) 0))
  /\ Traces.yields (snd (compressAndCloseLog w os fs))
     = Traces.yields (snd (copyLoop os (Z.to_nat (c_sourceSize os / chunk)) 0)).
Proof.
  intros Hopen. unfold compressAndCloseLog. rewrite Hopen.
  destruct (copyLoop os (Z.to_nat (c_sourceSize os / chunk)) 0) as [err copied].
  case_bool_decide; destruct (osRemove os _ _) as [fs2 rerr]; cbn [snd];
    rewrite !(proj1 (counts_app _ _)), !(proj2 (counts_app _ _));
    destruct rerr; cbn; lia.
Qed.

(** X5: The copy loop of a compression run whose target could be opened: when
    no round fails it makes one round for every full chunk of 1 MiB of the
    source and one more, which ends it with end-of-input; when rounds fail,
    the first failing round is the last; and the loop yields once a round. *)
Theorem copy_loop_rounds (w : fileStateWriterDisk) (os : compressOS)
    (fs : gset string) :
  c_openTarget os = None ->
  let full := Z.to_nat (c_sourceSize os / 2 ^ 20) in
  let t := snd (compressAndCloseLog w os fs) in
  Traces.yields t = Traces.copyRounds t
  /\ ((forall j, (j <= full)%nat -> c_copyFault os j = None) ->
      Traces.copyRounds t = S full /\ copyOutcome os = io_EOF)
  /\ (forall k m,
        (k <= full)%nat ->
        (forall j, (j < k)%nat -> c_copyFault os j = None) ->
        c_copyFault os k = Some m ->
        Traces.copyRounds t = S k /\ copyOutcome os = Errorf m).
Proof.
  intros Hopen full t.
  destruct (trace_counts_of_run w os fs Hopen) as [Hr Hy].
  assert (Hfull : Z.to_nat (c_sourceSize os / chunk) = full) by reflexivity.
  rewrite Hfull in Hr, Hy. subst t. split; [| split].
  - rewrite Hr, Hy. apply copyLoop_counts.
  - intros Hok. destruct (copyLoop_to_the_end os full 0 Hok) as [Heq Hn].
    split; [congruence |]. unfold copyOutcome. rewrite Hfull, Heq. reflexivity.
  - intros k m Hk Hok Hfault.
    destruct (copyLoop_to_the_fault os k m full 0 Hk Hok Hfault) as [Heq Hn].
    split; [congruence |]. unfold copyOutcome. rewrite Hfull, Heq. reflexivity.
Qed.

Lemma copy_loop_rounds_witness :
  Traces.copyRounds
    (snd (compressAndCloseLog Scenario.rotatedLog Scenario.smooth Scenario.logDir)) = 4%nat
  /\ Traces.copyRounds
       (snd (compressAndCloseLog Scenario.rotatedLog Scenario.brokenCopy Scenario.logDir))
     = 2%nat.
Proof.
  split.
  - refine (proj1 (proj1 (proj2 (copy_loop_rounds Scenario.rotatedLog Scenario.smooth
                                   Scenario.logDir eq_refl)) _)).
    intros j _. reflexivity.
  - refine (proj1 (proj2 (proj2 (copy_loop_rounds Scenario.rotatedLog Scenario.brokenCopy
                                   Scenario.logDir eq_refl)) 1%nat "input/output error" _ _ _)).
    + vm_compute. lia.
    + intros j Hj. assert (j = 0%nat) as -> by lia. reflexivity.
    + reflexivity.
Defined.

(** X6: The source of a compression run is removed only after the copy has
    run to end-of-input: when the source is not itself the target and is
    gone after the run, then the target was opened, the copy loop ended
    with end-of-input, the run returned no error, and a file of the
    target's name is there.  The code does not look at what closing the
    gzip writer and the target answers, so this says nothing on the
    target being complete. *)
Theorem source_removed_only_after_full_copy (w : fileStateWriterDisk)
    (os : compressOS) (fs : gset string) :
  targetFileNameOf (Name w) <> Name w ->
  Name w ∈ fs ->
  Name w ∉ snd (fst (compressAndCloseLog w os fs)) ->
  c_openTarget os = None
  /\ copyOutcome os = io_EOF
  /\ fst (fst (compressAndCloseLog w os fs)) = None
  /\ targetFileNameOf (Name w) ∈ snd (fst (compressAndCloseLog w os fs)).
Proof.
  intros Hne Hsrc Hgone.
  destruct (c_openTarget os) as [e |] eqn:Hopen.
  { exfalso. apply Hgone. unfold compressAndCloseLog. rewrite Hopen. exact Hsrc. }
  destruct (decide (copyOutcome os = io_EOF)) as [Heof | Hfail].
  - rewrite (compress_result_copied w os fs Hopen Heof Hsrc) in *.
    destruct (c_remove os (Name w)); cbn [fst snd] in *.
    + exfalso. apply Hgone. apply elem_of_union_l. exact Hsrc.
    + repeat split; [exact Heof |]. set_solver.
  - exfalso. apply Hgone.
    rewrite (compress_result_failed w os fs Hopen Hfail).
    destruct (c_remove os (targetFileNameOf (Name w))); cbn [snd]; set_solver.
Qed.

Lemma source_removed_only_after_full_copy_witness :
  copyOutcome Scenario.smooth = io_EOF
  /\ targetFileNameOf (Name Scenario.rotatedLog)
     ∈ snd (fst (compressAndCloseLog Scenario.rotatedLog Scenario.smooth Scenario.logDir)).
Proof.
  assert (Hsrc : Name Scenario.rotatedLog ∈ Scenario.logDir)
    by (apply elem_of_singleton; reflexivity).
  assert (Hne : targetFileNameOf (Name Scenario.rotatedLog) <> Name Scenario.rotatedLog)
    by (vm_compute; discriminate).
  destruct (source_removed_only_after_full_copy Scenario.rotatedLog Scenario.smooth
              Scenario.logDir Hne Hsrc) as (_ & Heof & _ & Hin).
  - rewrite (compress_result_copied Scenario.rotatedLog Scenario.smooth
               Scenario.logDir eq_refl eq_refl Hsrc). cbn.
    apply removed_is_gone.
  - split; [exact Heof | exact Hin].
Defined.

(** ** Pruning by age and by size *)

Lemma removeEntry_result (os : pruneOS) (es : list FileInfo) (baseDir : string)
    (f : FileInfo) :
  fst (removeEntry os es baseDir (fi_Name f))
  = List.filter (notRemoved (List.filter (Sweep.removes os baseDir) [f])) es.
Proof.
  unfold removeEntry, Sweep.removes. cbv zeta. cbn [List.filter].
  destruct (p_remove os _); cbn.
  - unfold notRemoved. cbn. symmetry. apply filter_true.
  - apply filter_ext. intros e. unfold notRemoved. cbn. rewrite andb_true_r. reflexivity.
Qed.

Lemma notRemoved_app (l1 l2 : list FileInfo) (es : list FileInfo) :
  List.filter (notRemoved l2) (List.filter (notRemoved l1) es)
  = List.filter (notRemoved (l1 ++ l2)) es.
Proof.
  rewrite filter_filter. apply filter_ext. intros e.
  unfold notRemoved. rewrite forallb_app. reflexivity.
Qed.

(** The loop of [pruneByHour], whatever the removals answer: the entries
    left are those that do not bear the name of a file that was old and
    could be removed. *)
Lemma hourLoop_result (os : pruneOS) (baseDir : string) (date : Z)
    (files : list FileInfo) :
  forall es,
    fst (hourLoop os baseDir date files es)
    = List.filter (notRemoved (List.filter (Sweep.removes os baseDir)
                                 (Sweep.olderThan date files))) es.
Proof.
  induction files as [| f r IH]; intros es; cbn.
  - unfold notRemoved. cbn. symmetry. apply filter_true.
  - destruct (fi_ModTime f <? date); cbn.
    + pose proof (removeEntry_result os es baseDir f) as H1.
      destruct (removeEntry os es baseDir (fi_Name f)) as [es1 t1]. cbn [fst] in H1.
      specialize (IH es1).
      destruct (hourLoop os baseDir date r es1) as [es2 t2]. cbn [fst] in *.
      rewrite IH, H1, notRemoved_app. cbn [List.filter app].
      destruct (Sweep.removes os baseDir f); reflexivity.
    + unfold notRemoved. cbn. symmetry. apply filter_true.
Qed.

Lemma olderThan_facts (date : Z) (files : list FileInfo) :
  (forall f, In f (Sweep.olderThan date files) -> In f files /\ fi_ModTime f < date)
  /\ (StronglySorted notNewer files ->
      forall f, In f files -> fi_ModTime f < date -> In f (Sweep.olderThan date files)).
Proof.
  induction files as [| g r [IH1 IH2]]; cbn; [split; [intros f [] | intros _ f []] |].
  destruct (Z.ltb_spec (fi_ModTime g) date) as [Hold | Hnew]; split.
  - intros f [<- | Hf]; [auto |]. destruct (IH1 f Hf). auto.
  - intros Hs f [<- | Hf] Hlt; [left; reflexivity |].
    right. apply IH2; [| assumption | assumption].
    apply StronglySorted_inv in Hs as [Hs _]. exact Hs.
  - intros f [].
  - intros Hs f [<- | Hf] Hlt; [lia |].
    apply StronglySorted_inv in Hs as [_ Hall].
    pose proof (proj1 (List.Forall_forall _ _) Hall f Hf) as Hle.
    unfold notNewer in Hle. lia.
Qed.

Lemma same_name_same_entry (es : list FileInfo) (e f : FileInfo) :
  List.NoDup (map fi_Name es) -> In e es -> In f es -> fi_Name e = fi_Name f -> e = f.
Proof.
  induction es as [| x es IH]; cbn; [intros _ [] |].
  intros Hnd He Hf Heq. apply List.NoDup_cons_iff in Hnd as [Hx Hnd].
  destruct He as [<- | He], Hf as [<- | Hf]; auto.
  - exfalso. apply Hx. rewrite Heq. apply in_map. exact Hf.
  - exfalso. apply Hx. rewrite <- Heq. apply in_map. exact He.
Qed.

Lemma notRemoved_spec (gone : list FileInfo) (e : FileInfo) :
  notRemoved gone e = true <-> forall f, In f gone -> fi_Name f <> fi_Name e.
Proof.
  unfold notRemoved. rewrite forallb_forall. split; intros H f Hf; specialize (H f Hf).
  - unfold otherName in H. intros Heq. rewrite Heq, String.eqb_refl in H. discriminate.
  - unfold otherName. destruct (String.eqb_spec (fi_Name e) (fi_Name f)); [| reflexivity].
    exfalso. apply H. congruence.
Qed.

Lemma removes_always (os : pruneOS) (baseDir : string) (l : list FileInfo) :
  (forall path, p_remove os path = None) ->
  List.filter (Sweep.removes os baseDir) l = l.
Proof.
  intros Hrm. apply forallb_filter_id. apply forallb_forall.
  intros f _. unfold Sweep.removes. rewrite Hrm. reflexivity.
Qed.

(** What [pruneByHour] leaves when the directory can be listed. *)
Lemma pruneByHour_result (os : pruneOS) (entries : list FileInfo)
    (base : string) (hours : Z) :
  p_listErr os = None ->
  exists files,
    ListFilesByDateMatching os entries (snd (patternOf base)) = inl files
    /\ fst (pruneByHour os entries base hours)
       = List.filter
           (notRemoved (List.filter (Sweep.removes os (fst (patternOf base)))
                          (Sweep.olderThan (Sweep.pruneDateOf os hours) files)))
           entries.
Proof.
  intros Hlist. unfold pruneByHour.
  destruct (patternOf base) as [baseDir pattern]. cbn [fst snd].
  destruct (listing_exists os entries pattern Hlist) as [files Hfiles].
  exists files. split; [exact Hfiles |].
  rewrite Hfiles. apply hourLoop_result.
Qed.

(** When every removal succeeds, whatever is in the listing and older
    than the prune date is not among the entries left. *)
Lemma old_files_go (os : pruneOS) (pattern baseDir : string) (date : Z)
    (entries files : list FileInfo) :
  (forall path, p_remove os path = None) ->
  ListFilesByDateMatching os entries pattern = inl files ->
  forall e,
    In e (List.filter (notRemoved (List.filter (Sweep.removes os baseDir)
                                     (Sweep.olderThan date files))) entries) ->
    keepMatching os pattern e = true -> fi_ModTime e < date -> False.
Proof.
  intros Hrm Hfiles e He Hkeep Hlt.
  destruct (listing_facts os entries pattern files Hfiles) as (Hsorted & Hperm & _).
  apply filter_In in He as [He Hnr].
  rewrite removes_always in Hnr by exact Hrm.
  assert (Hef : In e files).
  { eapply Permutation_in; [symmetry; exact Hperm |]. apply filter_In. auto. }
  pose proof (proj1 (notRemoved_spec _ _) Hnr e
                (proj2 (olderThan_facts date files) Hsorted e Hef Hlt)).
  congruence.
Qed.

(** X7: [pruneByHour] in a directory whose names differ: nothing is added;
    an entry that does not match, or was modified at the prune date or
    later, stays, whatever the removals answer; and when every removal
    succeeds, every matching entry modified before the prune date is
    gone. *)
Theorem pruneByHour_removes_the_old (os : pruneOS) (entries : list FileInfo)
    (base : string) (hours : Z) :
  List.NoDup (map fi_Name entries) ->
  p_listErr os = None ->
  let left := fst (pruneByHour os entries base hours) in
  let old e := keepMatching os (snd (patternOf base)) e = true
               /\ fi_ModTime e < Sweep.pruneDateOf os hours in
  (forall e, In e left -> In e entries)
  /\ (forall e, In e entries -> ~ old e -> In e left)
  /\ ((forall path, p_remove os path = None) ->
      forall e, In e left -> ~ old e).
Proof.
  intros Hnd Hlist left old. subst left.
  destruct (pruneByHour_result os entries base hours Hlist) as (files & Hfiles & ->).
  destruct (listing_facts os entries _ files Hfiles) as (_ & _ & Hin & _).
  destruct (olderThan_facts (Sweep.pruneDateOf os hours) files) as [Hold _].
  split; [| split].
  - intros e He. apply filter_In in He as [He _]. exact He.
  - intros e He Hnot. apply filter_In. split; [exact He |].
    apply notRemoved_spec. intros f Hf Heq.
    apply filter_In in Hf as [Hf _]. destruct (Hold f Hf) as [Hff Hlt].
    destruct (Hin f Hff) as [Hfe Hkeep].
    assert (f = e) as -> by exact (same_name_same_entry entries f e Hnd Hfe He Heq).
    apply Hnot. split; assumption.
  - intros Hrm e He [Hkeep Hlt].
    exact (old_files_go os _ _ _ entries files Hrm Hfiles e He Hkeep Hlt).
Qed.

Lemma pruneByHour_removes_the_old_witness :
  In (Scenario.entry "log_3.log" 10 30)
     (fst (pruneByHour Sweep.later Scenario.entries "/tmp/log.log" 2))
  /\ ~ In (Scenario.entry "log_1.log" 10 10)
          (fst (pruneByHour Sweep.later Scenario.entries "/tmp/log.log" 2)).
Proof.
  destruct (pruneByHour_removes_the_old Sweep.later Scenario.entries "/tmp/log.log" 2)
    as (_ & Hkeep & Hgone).
  - vm_compute. repeat constructor; cbn; intuition discriminate.
  - reflexivity.
  - split.
    + apply Hkeep; [cbn; auto |]. intros [_ Hlt]. vm_compute in Hlt. discriminate.
    + intros Hin. apply (Hgone (fun _ => eq_refl) _ Hin). split; reflexivity.
Defined.

(** X8: Between 2562048 and 5124095 hours the duration of [pruneByHour]
    wraps around: the prune date lies after the present, and when the
    removals succeed no matching entry modified up to the present is left. *)
Theorem pruneByHour_hours_wrap (os : pruneOS) (entries : list FileInfo)
    (base : string) (hours : Z) :
  List.NoDup (map fi_Name entries) ->
  p_listErr os = None ->
  (forall path, p_remove os path = None) ->
  2562047 < hours <= 5124095 ->
  Sweep.pruneDateOf os hours = p_now os + (2 ^ 64 - hours * Hour)
  /\ forall e, In e (fst (pruneByHour os entries base hours)) ->
               keepMatching os (snd (patternOf base)) e = true ->
               p_now os < fi_ModTime e.
Proof.
  intros Hnd Hlist Hrm Hh.
  assert (Hdate : Sweep.pruneDateOf os hours = p_now os + (2 ^ 64 - hours * Hour)).
  { unfold Sweep.pruneDateOf. f_equal.
    rewrite (int64_id (- hours)) by (unfold in_int64; lia).
    unfold int64, Hour in *.
    replace (- hours * (3600 * 1000000000) + 2 ^ 63)
      with ((2 ^ 64 - hours * (3600 * 1000000000) + 2 ^ 63) + (-1) * 2 ^ 64) by lia.
    rewrite Z_mod_plus_full. rewrite Z.mod_small; lia. }
  split; [exact Hdate |].
  intros e He Hkeep.
  destruct (pruneByHour_result os entries base hours Hlist) as (files & Hfiles & Hleft).
  rewrite Hleft in He.
  destruct (Z.lt_ge_cases (p_now os) (fi_ModTime e)) as [Hlt | Hge]; [exact Hlt |].
  exfalso. apply (old_files_go os _ _ _ entries files Hrm Hfiles e He Hkeep).
  rewrite Hdate. unfold Hour. lia.
Qed.

Lemma pruneByHour_hours_wrap_witness :
  ~ In (Scenario.entry "log_3.log" 10 30)
       (fst (pruneByHour Scenario.sweep Scenario.entries "/tmp/log.log" 2562048)).
Proof.
  destruct (pruneByHour_hours_wrap Scenario.sweep Scenario.entries "/tmp/log.log" 2562048)
    as [_ H].
  - vm_compute. repeat constructor; cbn; intuition discriminate.
  - reflexivity.
  - intros path. reflexivity.
  - lia.
  - intros Hin. specialize (H _ Hin eq_refl). vm_compute in H. discriminate.
Defined.

(** The loop of [pruneToSize] when every removal succeeds. *)
Lemma sizeLoop_result (os : pruneOS) (baseDir : string) (maxSize : Z)
    (files : list FileInfo) :
  (forall path, p_remove os path = None) ->
  forall total es,
    fst (sizeLoop os baseDir maxSize total files es)
    = List.filter (notRemoved (Sweep.overBudget maxSize total files)) es.
Proof.
  intros Hrm. induction files as [| f r IH]; intros total es; cbn.
  - unfold notRemoved. cbn. symmetry. apply filter_true.
  - destruct (total <=? maxSize); cbn.
    + unfold notRemoved. cbn. symmetry. apply filter_true.
    + pose proof (removeEntry_result os es baseDir f) as H1.
      rewrite removes_always in H1 by exact Hrm.
      destruct (removeEntry os es baseDir (fi_Name f)) as [es1 t1]. cbn [fst] in H1.
      rewrite Hrm.
      specialize (IH (int64 (total - fi_Size f)) es1).
      destruct (sizeLoop os baseDir maxSize _ r es1) as [es2 t2]. cbn [fst] in *.
      rewrite IH, H1, notRemoved_app. reflexivity.
Qed.

Lemma sizeSum_app (l1 l2 : list FileInfo) :
  Sweep.sizeSum (l1 ++ l2) = Sweep.sizeSum l1 + Sweep.sizeSum l2.
Proof. induction l1 as [| f r IH]; cbn; [reflexivity | rewrite IH; lia]. Qed.

Lemma sizeSum_perm (l1 l2 : list FileInfo) :
  Permutation l1 l2 -> Sweep.sizeSum l1 = Sweep.sizeSum l2.
Proof. induction 1; cbn; lia. Qed.

Lemma sizeSum_nonneg (l : list FileInfo) :
  (forall f, In f l -> 0 <= fi_Size f) -> 0 <= Sweep.sizeSum l.
Proof.
  induction l as [| f r IH]; cbn; [lia |]. intros H.
  pose proof (H f (or_introl eq_refl)). specialize (IH (fun g Hg => H g (or_intror Hg))). lia.
Qed.

(** The first loop of [pruneToSize] adds the sizes up as long as they fit. *)
Lemma totalSize_is_sum (files : list FileInfo) :
  (forall f, In f files -> 0 <= fi_Size f) ->
  forall acc, 0 <= acc -> acc + Sweep.sizeSum files < 2 ^ 63 ->
    fold_left (fun acc f => int64 (acc + fi_Size f)) files acc = acc + Sweep.sizeSum files.
Proof.
  induction files as [| f r IH]; intros Hpos acc Hacc Hfit; cbn in *; [lia |].
  pose proof (Hpos f (or_introl eq_refl)) as Hf.
  pose proof (sizeSum_nonneg r (fun g Hg => Hpos g (or_intror Hg))) as Hr.
  rewrite (int64_id (acc + fi_Size f)) by (unfold in_int64; lia).
  rewrite IH; [lia | auto | lia | lia].
Qed.

(** What [pruneToSize] takes for too many is a head of the list, the
    rest fits, and the last file taken was needed. *)
Lemma overBudget_splits (maxSize : Z) (files : list FileInfo) :
  0 <= maxSize ->
  (forall f, In f files -> 0 <= fi_Size f) ->
  Sweep.sizeSum files < 2 ^ 63 ->
  exists rest,
    files = Sweep.overBudget maxSize (Sweep.sizeSum files) files ++ rest
    /\ Sweep.sizeSum rest <= maxSize
    /\ (Sweep.overBudget maxSize (Sweep.sizeSum files) files = []
        \/ exists front last,
             Sweep.overBudget maxSize (Sweep.sizeSum files) files = front ++ [last]
             /\ maxSize < fi_Size last + Sweep.sizeSum rest).
Proof.
  intros Hmax. induction files as [| f r IH]; intros Hpos Hfit.
  - exists []. cbn. split; [reflexivity | split; [lia | left; reflexivity]].
  - pose proof (Hpos f (or_introl eq_refl)) as Hf.
    pose proof (sizeSum_nonneg r (fun g Hg => Hpos g (or_intror Hg))) as Hr.
    cbn [Sweep.overBudget Sweep.sizeSum] in *.
    destruct (Z.leb_spec (fi_Size f + Sweep.sizeSum r) maxSize) as [Hle | Hgt].
    + exists (f :: r). cbn [app Sweep.sizeSum].
      split; [reflexivity | split; [lia | left; reflexivity]].
    + replace (fi_Size f + Sweep.sizeSum r - fi_Size f) with (Sweep.sizeSum r) by lia.
      rewrite (int64_id (Sweep.sizeSum r)) by (unfold in_int64; lia).
      destruct (IH (fun g Hg => Hpos g (or_intror Hg)) ltac:(lia))
        as (rest & Hsplit & Hrest & Hlast).
      exists rest. split; [cbn; f_equal; exact Hsplit | split; [exact Hrest |]].
      right. destruct Hlast as [Hnil | (front & last & Heq & Hneed)].
      * exists [], f. rewrite Hnil in *. cbn in Hsplit. subst rest.
        split; [reflexivity | lia].
      * exists (f :: front), last. rewrite Heq. split; [reflexivity | exact Hneed].
Qed.

Lemma sorted_app_apart (l1 l2 : list FileInfo) :
  StronglySorted notNewer (l1 ++ l2) ->
  forall x y, In x l1 -> In y l2 -> fi_ModTime x <= fi_ModTime y.
Proof.
  induction l1 as [| a l1 IH]; cbn; intros Hs x y Hx Hy; [destruct Hx |].
  apply StronglySorted_inv in Hs as [Hs Hall].
  destruct Hx as [<- | Hx]; [| eauto].
  apply (proj1 (List.Forall_forall _ _) Hall y). apply in_or_app. right. exact Hy.
Qed.

Lemma notRemoved_rest (gone rest : list FileInfo) :
  List.NoDup (map fi_Name (gone ++ rest)) ->
  List.filter (notRemoved gone) (gone ++ rest) = rest.
Proof.
  intros Hnd. rewrite List.filter_app.
  rewrite (notRemoved_gone gone gone) by auto. cbn.
  apply notRemoved_kept. intros g f Hg Hf Heq.
  rewrite map_app in Hnd.
  apply (NoDup_app_apart _ _ Hnd (fi_Name f)).
  - apply in_map. exact Hf.
  - rewrite <- Heq. apply in_map. exact Hg.
Qed.

(** X9: [pruneToSize] when removals succeed, names differ, sizes are not
    negative and their sum fits an int64: the matching entries left sum up
    to at most [maxSize]; entries that do not match stay; every matching
    entry removed is at most as new as every matching entry left; and
    either nothing was removed, or some removed entry would not have
    fitted together with what is left. *)
Theorem pruneToSize_fits_oldest_first (os : pruneOS) (entries : list FileInfo)
    (base : string) (maxSize : Z) :
  List.NoDup (map fi_Name entries) ->
  p_listErr os = None ->
  (forall path, p_remove os path = None) ->
  0 <= maxSize ->
  (forall e, In e entries -> 0 <= fi_Size e) ->
  let matching := List.filter (keepMatching os (snd (patternOf base))) in
  Sweep.sizeSum (matching entries) < 2 ^ 63 ->
  let left := fst (pruneToSize os entries base maxSize) in
  Sweep.sizeSum (matching left) <= maxSize
  /\ (forall e, In e left -> In e entries)
  /\ (forall e, In e entries -> keepMatching os (snd (patternOf base)) e = false ->
                In e left)
  /\ (forall e e', In e (matching entries) -> ~ In e left -> In e' (matching left) ->
                   fi_ModTime e <= fi_ModTime e')
  /\ (left = entries
      \/ exists e, In e (matching entries) /\ ~ In e left
                   /\ maxSize < fi_Size e + Sweep.sizeSum (matching left)).
Proof.
  intros Hnd Hlist Hrm Hmax Hpos matching Hfit left. subst left matching.
  unfold pruneToSize. destruct (patternOf base) as [baseDir pattern] eqn:Hpat.
  cbn [snd] in *.
  destruct (listing_exists os entries pattern Hlist) as [files Hfiles].
  rewrite Hfiles.
  destruct (listing_facts os entries pattern files Hfiles) as (Hsorted & Hperm & Hin & Hndf).
  specialize (Hndf Hnd).
  assert (Hposf : forall f, In f files -> 0 <= fi_Size f)
    by (intros f Hf; apply Hpos, Hin, Hf).
  rewrite <- (sizeSum_perm _ _ Hperm) in Hfit.
  rewrite (totalSize_is_sum files Hposf 0) by lia. rewrite Z.add_0_l.
  rewrite (sizeLoop_result os baseDir maxSize files Hrm).
  destruct (overBudget_splits maxSize files Hmax Hposf Hfit)
    as (rest & Hsplit & Hrest & Hlast).
  set (gone := Sweep.overBudget maxSize (Sweep.sizeSum files) files) in *.
  assert (Hleft : Permutation rest
            (List.filter (keepMatching os pattern) (List.filter (notRemoved gone) entries))).
  { rewrite filter_swap.
    rewrite <- (notRemoved_rest gone rest) by (rewrite <- Hsplit; exact Hndf).
    rewrite <- Hsplit. apply filter_perm. exact Hperm. }
  assert (Hgone : forall e, In e (List.filter (keepMatching os pattern) entries) ->
            ~ In e (List.filter (notRemoved gone) entries) -> In e gone).
  { intros e He Hout.
    assert (Hef : In e files) by (eapply Permutation_in; [symmetry; exact Hperm | exact He]).
    rewrite Hsplit in Hef. apply in_app_or in Hef as [Hg | Hr]; [exact Hg |].
    exfalso. apply Hout.
    apply filter_In in He as [He Hk]. apply filter_In. split; [exact He |].
    assert (Hr' : In e (List.filter (keepMatching os pattern)
                          (List.filter (notRemoved gone) entries)))
      by (eapply Permutation_in; [exact Hleft | exact Hr]).
    apply filter_In in Hr' as [Hr' _]. apply filter_In in Hr' as [_ Hnr]. exact Hnr. }
  split; [| split; [| split; [| split]]].
  - rewrite <- (sizeSum_perm _ _ Hleft). exact Hrest.
  - intros e He. apply filter_In in He as [He _]. exact He.
  - intros e He Hk. apply filter_In. split; [exact He |].
    apply notRemoved_spec. intros f Hf Heq.
    assert (Hff : In f files) by (rewrite Hsplit; apply in_or_app; left; exact Hf).
    destruct (Hin f Hff) as [Hfe Hkeep].
    assert (f = e) as -> by exact (same_name_same_entry entries f e Hnd Hfe He Heq).
    congruence.
  - intros e e' He Hout He'.
    apply (sorted_app_apart gone rest); [rewrite <- Hsplit; exact Hsorted | |].
    + apply Hgone; assumption.
    + eapply Permutation_in; [symmetry; exact Hleft | exact He'].
  - destruct Hlast as [Hnil | (front & last & Heq & Hneed)].
    + left. rewrite Hnil. unfold notRemoved. cbn. apply filter_true.
    + right. exists last.
      assert (Hlg : In last gone) by (rewrite Heq; apply in_or_app; right; left; reflexivity).
      assert (Hlf : In last files) by (rewrite Hsplit; apply in_or_app; left; exact Hlg).
      split; [eapply Permutation_in; [exact Hperm | exact Hlf] |].
      split.
      * intros Hl. apply filter_In in Hl as [_ Hnr].
        pose proof (proj1 (notRemoved_spec _ _) Hnr last Hlg). congruence.
      * rewrite <- (sizeSum_perm _ _ Hleft). exact Hneed.
Qed.


Lemma pruneToSize_fits_oldest_first_witness :
  Sweep.sizeSum
    (List.filter (keepMatching Scenario.sweep (snd (patternOf "/tmp/log.log")))
       (fst (pruneToSize Scenario.sweep Scenario.entries "/tmp/log.log" 22))) <= 22
  /\ fst (pruneToSize Scenario.sweep Scenario.entries "/tmp/log.log" 22)
     <> Scenario.entries.
Proof.
  split.
  - refine (proj1 (pruneToSize_fits_oldest_first Scenario.sweep Scenario.entries
                     "/tmp/log.log" 22 _ _ _ _ _ _)).
    + vm_compute. repeat constructor; cbn; intuition discriminate.
    + reflexivity.
    + intros path. reflexivity.
    + lia.
    + intros e He. cbn in He.
      repeat (destruct He as [<- | He]; [cbn; lia |]). destruct He.
    + vm_compute. reflexivity.
  - vm_compute. discriminate.
Defined.

(** ** Pruning by count when removals fail *)

Lemma attempts_app (t1 t2 : list pruneEvent) :
  Sweep.attempts (t1 ++ t2) = Sweep.attempts t1 ++ Sweep.attempts t2.
Proof.
  induction t1 as [| ev t1 IH]; cbn; [reflexivity |].
  destruct ev; cbn; rewrite IH; reflexivity.
Qed.

Lemma removed_of_app (t1 t2 : list pruneEvent) :
  removed (t1 ++ t2) = removed t1 ++ removed t2.
Proof.
  induction t1 as [| ev t1 IH]; cbn; [reflexivity |].
  destruct ev as [path [e |] | what | what]; cbn; rewrite IH; reflexivity.
Qed.

Lemma removeEntry_trace (os : pruneOS) (es : list FileInfo) (baseDir : string)
    (f : FileInfo) :
  Sweep.attempts (snd (removeEntry os es baseDir (fi_Name f))) = [Sweep.pathOf baseDir f]
  /\ removed (snd (removeEntry os es baseDir (fi_Name f)))
     = map (Sweep.pathOf baseDir) (List.filter (Sweep.removes os baseDir) [f]).
Proof.
  unfold removeEntry, Sweep.removes, Sweep.pathOf. cbv zeta. cbn [List.filter].
  destruct (p_remove os _); cbn; split; reflexivity.
Qed.

(** The loop of [pruneByCount] within the list: it does not panic, tries
    the first [k] files in turn, and leaves the entries that do not bear
    the name of one it could remove. *)
Lemma countLoop_result (os : pruneOS) (baseDir : string) :
  forall (k : nat) (files es : list FileInfo),
    (k <= length files)%nat ->
    exists t,
      countLoop os baseDir k files es
      = Done (List.filter (notRemoved (List.filter (Sweep.removes os baseDir)
                                         (firstn k files))) es, t)
      /\ Sweep.attempts t = map (Sweep.pathOf baseDir) (firstn k files)
      /\ removed t = map (Sweep.pathOf baseDir)
                       (List.filter (Sweep.removes os baseDir) (firstn k files)).
Proof.
  induction k as [| k IH]; intros files es Hk.
  - exists []. cbn. unfold notRemoved. cbn. rewrite filter_true. auto.
  - destruct files as [| f r]; [cbn in Hk; lia |]. cbn [countLoop].
    pose proof (removeEntry_result os es baseDir f) as H1.
    destruct (removeEntry_trace os es baseDir f) as [H2 H3].
    destruct (removeEntry os es baseDir (fi_Name f)) as [es1 t1]. cbn [fst snd] in *.
    destruct (IH r es1 ltac:(cbn in Hk; lia)) as (t & Hrun & Hatt & Hrem).
    rewrite Hrun. exists (t1 ++ t). rewrite H1, notRemoved_app.
    rewrite attempts_app, removed_of_app, H2, H3, Hatt, Hrem.
    cbn [firstn List.filter app map].
    destruct (Sweep.removes os baseDir f); cbn; auto.
Qed.

Lemma countLoop_past_the_end (os : pruneOS) (baseDir : string) :
  forall (k : nat) (files es : list FileInfo),
    (length files < k)%nat ->
    exists why, countLoop os baseDir k files es = Panic why.
Proof.
  induction k as [| k IH]; intros files es Hk; [lia |].
  destruct files as [| f r]; cbn [countLoop]; [eauto |].
  destruct (removeEntry os es baseDir (fi_Name f)) as [es1 t1].
  destruct (IH r es1 ltac:(cbn in Hk; lia)) as [why Hwhy]. rewrite Hwhy. eauto.
Qed.

Lemma pathOf_inj (baseDir : string) (e f : FileInfo) :
  Sweep.pathOf baseDir e = Sweep.pathOf baseDir f -> fi_Name e = fi_Name f.
Proof.
  unfold Sweep.pathOf. induction baseDir as [| c b IH]; cbn; intros H.
  - cbn in H. injection H as H. exact H.
  - injection H as H. auto.
Qed.

Lemma sorted_split (k : nat) (files : list FileInfo) :
  StronglySorted notNewer files ->
  forall x y, In x (firstn k files) -> In y (skipn k files) ->
              fi_ModTime x <= fi_ModTime y.
Proof.
  intros Hs. apply sorted_app_apart. rewrite firstn_skipn. exact Hs.
Qed.

(** X10: [pruneByCount] with a count that is not negative, in a directory
    whose names differ, whatever the removals answer: it does not panic;
    it tries as many removals as there are matching entries above the
    count; the entries left are those whose path was not removed; and
    every entry it tried is at most as new as every matching entry it did
    not try. *)
Theorem pruneByCount_goes_on_after_failures (os : pruneOS) (entries : list FileInfo)
    (base : string) (count : Z) :
  0 <= count -> in_int64 count ->
  Z.of_nat (length entries) < 2 ^ 63 ->
  List.NoDup (map fi_Name entries) ->
  p_listErr os = None ->
  let matching := List.filter (keepMatching os (snd (patternOf base))) in
  let path := Sweep.pathOf (fst (patternOf base)) in
  exists left t,
    pruneByCount os entries base count = Done (left, t)
    /\ Z.of_nat (length (Sweep.attempts t))
       = Z.max 0 (Z.of_nat (length (matching entries)) - count)
    /\ (forall e, In e left <-> In e entries /\ ~ In (path e) (removed t))
    /\ (forall e e', In e entries -> In (path e) (Sweep.attempts t) ->
                     In e' (matching entries) -> ~ In (path e') (Sweep.attempts t) ->
                     fi_ModTime e <= fi_ModTime e').
Proof.
  intros Hc Hcr Hlen Hnd Hlist matching path. subst matching path.
  unfold pruneByCount. destruct (patternOf base) as [baseDir pattern].
  cbn [fst snd].
  destruct (listing_exists os entries pattern Hlist) as [files Hfiles].
  rewrite Hfiles.
  destruct (listing_facts os entries pattern files Hfiles) as (Hsorted & Hperm & Hin & Hndf).
  pose proof (filter_length_le (keepMatching os pattern) entries) as Hle.
  pose proof (Permutation_length Hperm) as Hcount.
  assert (Hint : int (Z.of_nat (length files) - count) = Z.of_nat (length files) - count).
  { apply int64_id. unfold in_int64 in *. lia. }
  rewrite Hint. rewrite <- Hcount.
  assert (Hname : forall e f, In e entries -> In f files ->
            Sweep.pathOf baseDir e = Sweep.pathOf baseDir f -> e = f).
  { intros e f He Hf Heq. apply pathOf_inj in Heq.
    exact (same_name_same_entry entries e f Hnd He (proj1 (Hin f Hf)) Heq). }
  destruct (Z.ltb_spec (Z.of_nat (length files) - count) 1) as [Hfew | Hmany].
  - exists entries, []. cbn. split; [reflexivity |]. split; [lia |].
    split; [intros e; tauto | intros e e' _ []].
  - set (k := Z.to_nat (Z.of_nat (length files) - count)).
    assert (Hk : (k <= length files)%nat) by lia.
    destruct (countLoop_result os baseDir k files entries Hk) as (t & Hrun & Hatt & Hrem).
    eexists. exists t. split; [exact Hrun |].
    split; [rewrite Hatt, length_map, length_firstn; lia |].
    split.
    + intros e. rewrite filter_In, Hrem. split.
      * intros [He Hnr]. split; [exact He |]. intros Hp.
        apply in_map_iff in Hp as (f & Heq & Hf).
        pose proof (proj1 (notRemoved_spec _ _) Hnr f Hf) as Hdiff.
        apply Hdiff. apply pathOf_inj in Heq. exact Heq.
      * intros [He Hout]. split; [exact He |].
        apply notRemoved_spec. intros f Hf Heq. apply Hout.
        apply in_map_iff. exists f. split; [| exact Hf].
        unfold Sweep.pathOf. rewrite Heq. reflexivity.
    + intros e e' He Htried He' Hnot. rewrite Hatt in Htried, Hnot.
      apply in_map_iff in Htried as (f & Heq & Hf).
      assert (Hff : In f files).
      { rewrite <- (firstn_skipn k files). apply in_or_app. left. exact Hf. }
      assert (e = f) as -> by (apply Hname; auto).
      assert (He'f : In e' files)
        by (eapply Permutation_in; [symmetry; exact Hperm | exact He']).
      rewrite <- (firstn_skipn k files) in He'f.
      apply in_app_or in He'f as [Hhead | Htail].
      * exfalso. apply Hnot. apply in_map. exact Hhead.
      * exact (sorted_split k files Hsorted f e' Hf Htail).
Qed.

Lemma pruneByCount_goes_on_after_failures_witness :
  exists left t,
    pruneByCount Sweep.stubborn Scenario.entries "/tmp/log.log" 1 = Done (left, t)
    /\ Z.of_nat (length (Sweep.attempts t)) = 3
    /\ length (removed t) = 2%nat.
Proof.
  destruct (pruneByCount_goes_on_after_failures Sweep.stubborn Scenario.entries
              "/tmp/log.log" 1) as (left & t & Hrun & Hatt & _).
  - lia.
  - unfold in_int64. lia.
  - cbn. lia.
  - vm_compute. repeat constructor; cbn; intuition discriminate.
  - reflexivity.
  - exists left, t. split; [exact Hrun |]. split; [exact Hatt |].
    vm_compute in Hrun. injection Hrun as _ <-. reflexivity.
Defined.

(** X11: Called with a negative count (above the least int), [pruneByCount]
    runs past the end of the listing and panics. *)
Theorem pruneByCount_negative_count_panics (os : pruneOS) (entries : list FileInfo)
    (base : string) (count : Z) :
  - 2 ^ 63 < count < 0 ->
  Z.of_nat (length entries) < 2 ^ 63 + count ->
  p_listErr os = None ->
  exists why, pruneByCount os entries base count = Panic why.
Proof.
  intros Hc Hlen Hlist.
  unfold pruneByCount. destruct (patternOf base) as [baseDir pattern].
  destruct (listing_exists os entries pattern Hlist) as [files Hfiles].
  rewrite Hfiles.
  destruct (listing_facts os entries pattern files Hfiles) as (_ & Hperm & _).
  pose proof (filter_length_le (keepMatching os pattern) entries) as Hle.
  pose proof (Permutation_length Hperm) as Hcount.
  assert (Hint : int (Z.of_nat (length files) - count) = Z.of_nat (length files) - count).
  { apply int64_id. unfold in_int64. lia. }
  rewrite Hint.
  destruct (Z.ltb_spec (Z.of_nat (length files) - count) 1) as [Hfew | Hmany]; [lia |].
  apply countLoop_past_the_end. lia.
Qed.

Lemma pruneByCount_negative_count_panics_witness :
  exists why, pruneByCount Scenario.sweep Scenario.entries "/tmp/log.log" (-1) = Panic why.
Proof.
  apply pruneByCount_negative_count_panics; [lia | cbn; lia | reflexivity].
Defined.

(** ** The maps of the producer *)

Lemma basePath_setMaps (core : Core) (prod : File) (byStream : gmap Z nat)
    (byPath : gmap string nat) (st : gmap nat fileState) (streamID : Z) :
  logFileBasePathOf core (setMaps prod byStream byPath st) streamID
  = logFileBasePathOf core prod streamID.
Proof. reflexivity. Qed.

Lemma extends_refl (prod : File) : Shape.extends prod prod.
Proof. repeat split; auto. Qed.

Lemma extends_trans (p1 p2 p3 : File) :
  Shape.extends p1 p2 -> Shape.extends p2 p3 -> Shape.extends p1 p3.
Proof.
  intros (A1 & A2 & A3) (B1 & B2 & B3). repeat split; auto.
  intros core s. rewrite B3. apply A3.
Qed.

Lemma shape_update (core : Core) (prod : File) (a : nat) (st st' : fileState) :
  store prod !! a = Some st ->
  Shape.mapped core prod -> Shape.allocated prod ->
  let prod' := setStore prod (<[a := st']> (store prod)) in
  Shape.mapped core prod' /\ Shape.allocated prod' /\ Shape.extends prod prod'
  /\ is_Some (store prod' !! a).
Proof.
  intros Ha Hm Hal prod'. subst prod'. unfold setStore.
  split; [| split; [| split]].
  - intros s b Hs. cbn in *. rewrite basePath_setMaps. apply Hm. exact Hs.
  - intros p b Hp. cbn in *. apply lookup_insert_is_Some'. right. eapply Hal. exact Hp.
  - repeat split; auto.
  - cbn. rewrite lookup_insert_eq. eauto.
Qed.

Lemma consult_result (core : Core) (prod : File) (a : nat) (force : bool) :
  is_Some (store prod !! a) ->
  exists st st' r,
    store prod !! a = Some st
    /\ consult core prod a force
       = Done (setStore prod (<[a := st']> (store prod)), r).
Proof.
  intros [st Hst]. unfold consult. rewrite Hst.
  destruct (needsRotate core st (rotate prod) force) as [st' r]. eauto.
Qed.

(** [openLog] on a state that exists: it returns no state only together
    with an error, and otherwise the state it was given. *)
Lemma openLog_result (os : OS) (prod : File) (a : nat)
    (dir name ext base : string) :
  is_Some (store prod !! a) ->
  exists prod' t r,
    openLog os prod a dir name ext base = Done (prod', t, r)
    /\ ((prod' = prod /\ fst r = None /\ snd r <> None)
        \/ (exists st st', store prod !! a = Some st
                           /\ prod' = setStore prod (<[a := st']> (store prod))
                           /\ fst r = Some a)).
Proof.
  intros [st Hst]. unfold openLog.
  destruct (os_MkdirAll os dir) as [err |].
  - eexists _, _, _. split; [reflexivity |]. left. cbn. auto.
  - rewrite Hst. destruct (os_OpenFile os _ _) as [err |];
      (eexists _, _, _; split; [reflexivity |]; right; eexists _, _; cbn; eauto).
Qed.

Lemma openLog_shape (core : Core) (os : OS) (prod : File) (a : nat)
    (dir name ext base : string) (streamID : Z) :
  Shape.mapped core prod -> Shape.allocated prod ->
  filesByStream prod !! streamID = Some a ->
  exists prod' t r,
    openLog os prod a dir name ext base = Done (prod', t, r)
    /\ Shape.mapped core prod' /\ Shape.allocated prod' /\ Shape.extends prod prod'
    /\ match fst r with
       | Some b => b = a /\ is_Some (store prod' !! b)
       | None => snd r <> None
       end.
Proof.
  intros Hm Hal Hs.
  assert (Ha : is_Some (store prod !! a)) by (eapply Hal, Hm, Hs).
  destruct (openLog_result os prod a dir name ext base Ha)
    as (prod' & t & r & Hrun & [(-> & Hn & He) | (st & st' & Hst & -> & Hr)]).
  - exists prod, t, r. rewrite Hn.
    split; [exact Hrun |]. split; [exact Hm |]. split; [exact Hal |].
    split; [apply extends_refl | exact He].
  - destruct (shape_update core prod a st st' Hst Hm Hal) as (H1 & H2 & H3 & H4).
    eexists _, t, r. rewrite Hr.
    split; [exact Hrun |]. split; [exact H1 |]. split; [exact H2 |].
    split; [exact H3 | split; [reflexivity | exact H4]].
Qed.

Lemma getFileState_shape (core : Core) (os : OS) (prod : File) (streamID : Z)
    (force : bool) :
  Shape.mapped core prod -> Shape.allocated prod ->
  exists prod' t r,
    getFileState core os prod streamID force = Done (prod', t, r)
    /\ Shape.mapped core prod' /\ Shape.allocated prod'
    /\ Shape.extends prod prod'
    /\ match fst r with
       | Some a =>
           filesByStream prod' !! streamID = Some a
           /\ files prod' !! logFileBasePathOf core prod streamID = Some a
           /\ is_Some (store prod' !! a)
       | None => snd r <> None
       end.
Proof.
  intros Hm Hal. unfold getFileState.
  destruct (filesByStream prod !! streamID) as [a |] eqn:Hs.
  - (* the stream is mapped *)
    pose proof (Hm _ _ Hs) as Hp.
    destruct (consult_result core prod a force (Hal _ _ Hp))
      as (st & st' & [rot err] & Hst & Hrun).
    rewrite Hrun.
    destruct (shape_update core prod a st st' Hst Hm Hal) as (H1 & H2 & H3 & H4).
    set (prod1 := setStore prod (<[a := st']> (store prod))) in *.
    destruct rot; cbn [negb].
    + unfold mapAndOpen.
      change (resolveNames core prod1 streamID) with (resolveNames core prod streamID).
      pose proof Hp as Hp'. unfold logFileBasePathOf in Hp'.
      destruct (resolveNames core prod streamID) as [[dir name] ext].
      change (files prod1) with (files prod). rewrite Hp'.
      change (filesByStream prod1) with (filesByStream prod). rewrite Hs.
      destruct (openLog_shape core os prod1 a dir name ext
                  (dir +:+ "/" +:+ name +:+ ext) streamID H1 H2 Hs)
        as (prod' & t & r & Hopen & G1 & G2 & G3 & G4).
      exists prod', t, r. split; [exact Hopen |].
      split; [exact G1 |]. split; [exact G2 |].
      split; [exact (extends_trans _ _ _ H3 G3) |].
      destruct (fst r) as [b |]; [| exact G4].
      destruct G4 as [-> Hb]. split; [apply G3; exact Hs |].
      split; [apply G3; exact Hp | exact Hb].
    + eexists _, _, _. split; [reflexivity |]. cbn [fst snd].
      split; [exact H1 |]. split; [exact H2 |]. split; [exact H3 |].
      split; [exact Hs |]. split; [exact Hp | exact H4].
  - (* the stream is not mapped yet *)
    unfold mapAndOpen.
    pose proof (eq_refl (logFileBasePathOf core prod streamID)) as Hbase.
    unfold logFileBasePathOf at 1 in Hbase.
    destruct (resolveNames core prod streamID) as [[dir name] ext].
    set (base := dir +:+ "/" +:+ name +:+ ext) in *.
    destruct (files prod !! base) as [a |] eqn:Hp.
    + (* the state exists: map the stream to it *)
      rewrite Hs.
      set (prod1 := setMaps prod (<[streamID := a]> (filesByStream prod))
                      (files prod) (store prod)).
      assert (Hm1 : Shape.mapped core prod1).
      { intros s b Hb. subst prod1. cbn in Hb. rewrite basePath_setMaps. cbn.
        destruct (decide (s = streamID)) as [-> | Hne].
        - rewrite lookup_insert_eq in Hb. injection Hb as <-.
          rewrite <- Hbase. exact Hp.
        - rewrite lookup_insert_ne in Hb by congruence. apply Hm. exact Hb. }
      assert (Hal1 : Shape.allocated prod1) by exact Hal.
      assert (Hx1 : Shape.extends prod prod1).
      { split; [intros ? ? H; exact H |]. split; [| reflexivity].
        intros s b Hb. subst prod1. cbn.
        rewrite lookup_insert_ne by congruence. exact Hb. }
      assert (Hs1 : filesByStream prod1 !! streamID = Some a)
        by (subst prod1; cbn; apply lookup_insert_eq).
      destruct (consult_result core prod1 a force (Hal _ _ Hp))
        as (st & st' & [rot err] & Hst & Hrun).
      rewrite Hrun.
      destruct (shape_update core prod1 a st st' Hst Hm1 Hal1) as (H1 & H2 & H3 & H4).
      set (prod2 := setStore prod1 (<[a := st']> (store prod1))) in *.
      destruct rot; cbn [negb].
      * destruct (openLog_shape core os prod2 a dir name ext base streamID H1 H2 Hs1)
          as (prod' & t & r & Hopen & G1 & G2 & G3 & G4).
        exists prod', t, r. split; [exact Hopen |].
        split; [exact G1 |]. split; [exact G2 |].
        split; [exact (extends_trans _ _ _ Hx1 (extends_trans _ _ _ H3 G3)) |].
        destruct (fst r) as [b |]; [| exact G4].
        destruct G4 as [-> Hb]. split; [apply G3; exact Hs1 |].
        split; [rewrite <- Hbase; apply G3; exact Hp | exact Hb].
      * eexists _, _, _. split; [reflexivity |]. cbn [fst snd].
        split; [exact H1 |]. split; [exact H2 |].
        split; [exact (extends_trans _ _ _ Hx1 H3) |].
        split; [exact Hs1 |]. split; [rewrite <- Hbase; exact Hp | exact H4].
    + (* no state for the path: make one *)
      set (a := fresh (dom (store prod))).
      set (prod1 := setMaps prod (<[streamID := a]> (filesByStream prod))
                      (<[base := a]> (files prod))
                      (<[a := newFileState (batchMaxCount prod)]> (store prod))).
      assert (Hm1 : Shape.mapped core prod1).
      { intros s b Hb. subst prod1. cbn in Hb. rewrite basePath_setMaps. cbn.
        destruct (decide (s = streamID)) as [-> | Hne].
        - rewrite lookup_insert_eq in Hb. injection Hb as <-.
          rewrite <- Hbase. apply lookup_insert_eq.
        - rewrite lookup_insert_ne in Hb by congruence.
          pose proof (Hm _ _ Hb) as Hb'.
          rewrite lookup_insert_ne; [exact Hb' |].
          intros Heq. rewrite <- Heq in Hb'. congruence. }
      assert (Hal1 : Shape.allocated prod1).
      { intros p b Hb. subst prod1. cbn in *. apply lookup_insert_is_Some'.
        destruct (decide (p = base)) as [-> | Hne].
        - rewrite lookup_insert_eq in Hb. injection Hb as <-. left. reflexivity.
        - rewrite lookup_insert_ne in Hb by congruence. right. eapply Hal. exact Hb. }
      assert (Hx1 : Shape.extends prod prod1).
      { split; [| split; [| reflexivity]];
          intros k b Hb; subst prod1; cbn; rewrite lookup_insert_ne; congruence. }
      assert (Hs1 : filesByStream prod1 !! streamID = Some a)
        by (subst prod1; cbn; apply lookup_insert_eq).
      assert (Hp1 : files prod1 !! base = Some a)
        by (subst prod1; cbn; apply lookup_insert_eq).
      destruct (openLog_shape core os prod1 a dir name ext base streamID Hm1 Hal1 Hs1)
        as (prod' & t & r & Hopen & G1 & G2 & G3 & G4).
      exists prod', t, r. split; [exact Hopen |].
      split; [exact G1 |]. split; [exact G2 |].
      split; [exact (extends_trans _ _ _ Hx1 G3) |].
      destruct (fst r) as [b |]; [| exact G4].
      destruct G4 as [-> Hb]. split; [apply G3; exact Hs1 |].
      split; [rewrite <- Hbase; apply G3; exact Hp1 | exact Hb].
Qed.

Lemma configured_shape :
  Shape.mapped Scenario.core Scenario.configured
  /\ Shape.allocated Scenario.configured.
Proof.
  split.
  - intros s a H. vm_compute in H. discriminate.
  - intros p a H. vm_compute in H. discriminate.
Qed.

(** X13: Two streams with the same base path get the same state: when
    [getFileState] returns a state for the one and then for the other,
    it is one state, and both streams are mapped to it. *)
Theorem streams_of_one_path_share_a_state (core : Core) (os1 os2 : OS) (prod : File)
    (s1 s2 : Z) (force1 force2 : bool) :
  Shape.mapped core prod -> Shape.allocated prod ->
  logFileBasePathOf core prod s1 = logFileBasePathOf core prod s2 ->
  exists prod1 t1 r1 prod2 t2 r2,
    getFileState core os1 prod s1 force1 = Done (prod1, t1, r1)
    /\ getFileState core os2 prod1 s2 force2 = Done (prod2, t2, r2)
    /\ forall a1 a2, fst r1 = Some a1 -> fst r2 = Some a2 ->
         a1 = a2
         /\ filesByStream prod2 !! s1 = Some a1
         /\ filesByStream prod2 !! s2 = Some a1.
Proof.
  intros Hm Hal Hbase.
  destruct (getFileState_shape core os1 prod s1 force1 Hm Hal)
    as (prod1 & t1 & r1 & Hrun1 & Hm1 & Hal1 & Hx1 & Hr1).
  destruct (getFileState_shape core os2 prod1 s2 force2 Hm1 Hal1)
    as (prod2 & t2 & r2 & Hrun2 & Hm2 & Hal2 & Hx2 & Hr2).
  exists prod1, t1, r1, prod2, t2, r2. split; [exact Hrun1 |]. split; [exact Hrun2 |].
  intros a1 a2 E1 E2. rewrite E1 in Hr1. rewrite E2 in Hr2.
  destruct Hr1 as (Hs1 & Hp1 & _). destruct Hr2 as (Hs2 & Hp2 & _).
  destruct Hx1 as (_ & _ & Hb1). destruct Hx2 as (Hf2 & Hg2 & _).
  rewrite Hb1, <- Hbase in Hp2.
  pose proof (Hf2 _ _ Hp1) as Hp1'.
  assert (a1 = a2) as <- by congruence.
  split; [reflexivity |]. split; [apply Hg2; exact Hs1 | exact Hs2].
Qed.

Lemma streams_of_one_path_share_a_state_witness :
  exists prod1 t1 prod2 t2 a,
    getFileState Scenario.core Scenario.os2001 Scenario.configured 3 false
    = Done (prod1, t1, (Some a, None))
    /\ getFileState Scenario.core Scenario.os2001 prod1 4 false
       = Done (prod2, t2, (Some a, None))
    /\ filesByStream prod2 !! 3 = Some a
    /\ filesByStream prod2 !! 4 = Some a.
Proof.
  destruct (streams_of_one_path_share_a_state Scenario.core Scenario.os2001
              Scenario.os2001 Scenario.configured 3 4 false false
              (proj1 configured_shape) (proj2 configured_shape) eq_refl)
    as (prod1 & t1 & r1 & prod2 & t2 & r2 & Hrun1 & Hrun2 & Hsame).
  pose proof Hrun1 as Hc1. vm_compute in Hc1. injection Hc1 as Hp1 _ Hr1.
  pose proof Hrun2 as Hc2. rewrite <- Hp1 in Hc2. vm_compute in Hc2.
  injection Hc2 as _ _ Hr2.
  destruct (Hsame 0%nat 0%nat) as (_ & H3 & H4);
    [rewrite <- Hr1; reflexivity | rewrite <- Hr2; reflexivity |].
  exists prod1, t1, prod2, t2, 0%nat.
  split; [rewrite Hrun1, <- Hr1; reflexivity |].
  split; [rewrite Hrun2, <- Hr2; reflexivity |].
  split; [exact H3 | exact H4].
Defined.

(** ** Batches across [getFileState] *)












Lemma fallbacks_app (msg : nat) (t1 t2 : list Event) :
  Traces.fallbacks msg (t1 ++ t2)
  = (Traces.fallbacks msg t1 + Traces.fallbacks msg t2)%nat.
Proof.
  induction t1 as [| ev t1 IH]; cbn; [reflexivity |].
  destruct ev; cbn; rewrite IH; lia.
Qed.

Lemma openLog_no_fallback (os : OS) (prod prod' : File) (a : nat)
    (dir name ext base : string) (t : list Event) (r : option nat * option error)
    (msg : nat) :
  openLog os prod a dir name ext base = Done (prod', t, r) ->
  Traces.fallbacks msg t = 0%nat.
Proof.
  unfold openLog.
  destruct (os_MkdirAll os dir).
  { intros H. injection H as <- <- <-. reflexivity. }
  destruct (store prod !! a) as [st |]; [| discriminate].
  destruct (os_OpenFile os _ _); intros H; injection H as <- <- <-;
    destruct (enabled (rotate prod)), (writer st); reflexivity.
Qed.

Lemma mapAndOpen_no_fallback (core : Core) (os : OS) (prod prod' : File)
    (streamID : Z) (force : bool) (t : list Event) (r : option nat * option error)
    (msg : nat) :
  mapAndOpen core os prod streamID force = Done (prod', t, r) ->
  Traces.fallbacks msg t = 0%nat.
Proof.
  unfold mapAndOpen.
  destruct (resolveNames core prod streamID) as [[dir name] ext].
  destruct (files prod !! _) as [a |].
  - destruct (filesByStream prod !! streamID).
    + apply openLog_no_fallback.
    + destruct (consult core _ a force) as [[prod2 [rot err]] |]; [| discriminate].
      destruct rot; cbn [negb].
      * apply openLog_no_fallback.
      * intros H. injection H as <- <- <-. reflexivity.
  - apply openLog_no_fallback.
Qed.

(** [getFileState] hands no message to the fallback. *)
Lemma getFileState_no_fallback (core : Core) (os : OS) (prod prod' : File)
    (streamID : Z) (force : bool) (t : list Event) (r : option nat * option error)
    (msg : nat) :
  getFileState core os prod streamID force = Done (prod', t, r) ->
  Traces.fallbacks msg t = 0%nat.
Proof.
  unfold getFileState.
  destruct (filesByStream prod !! streamID) as [a |].
  - destruct (consult core prod a force) as [[prod1 [rot err]] |]; [| discriminate].
    destruct rot; cbn [negb].
    + apply mapAndOpen_no_fallback.
    + intros H. injection H as <- <- <-. reflexivity.
  - apply mapAndOpen_no_fallback.
Qed.

(** X12: [getFileState] on a producer whose streams are mapped to the states
    of their base paths, all of which exist: it does not panic and keeps
    the maps that way; mappings made once stay; a state returned is the
    one the stream and its base path are mapped to afterwards; no state
    is returned only together with an error; no message is handed to the
    fallback; and the batches stay as they are when [needsRotate] leaves
    them alone. *)
Theorem getFileState_returns_the_mapped_state (core : Core) (os : OS) (prod : File)
    (streamID : Z) (force : bool) :
  Shape.mapped core prod -> Shape.allocated prod ->
  exists prod' t r,
    getFileState core os prod streamID force = Done (prod', t, r)
    /\ Shape.mapped core prod' /\ Shape.allocated prod'
    /\ Shape.extends prod prod'
    /\ match fst r with
       | Some a =>
           filesByStream prod' !! streamID = Some a
           /\ files prod' !! logFileBasePathOf core prod streamID = Some a
           /\ is_Some (store prod' !! a)
       | None => snd r <> None
       end
    /\ (forall msg, Traces.fallbacks msg t = 0%nat)
    /\ (keepsBatch core -> forall base, buffered prod' base = buffered prod base).
Proof.
  intros Hm Hal.
  destruct (getFileState_shape core os prod streamID force Hm Hal)
    as (prod' & t & r & Hrun & Hm' & Hal' & Hx & Hr).
  exists prod', t, r.
  split; [exact Hrun |]. split; [exact Hm' |]. split; [exact Hal' |].
  split; [exact Hx |]. split; [exact Hr |]. split.
  - intros msg. exact (getFileState_no_fallback _ _ _ _ _ _ _ _ msg Hrun).
  - intros Hkeep. exact (getFileState_frame _ _ _ _ _ _ _ _ Hkeep Hrun).
Qed.

Lemma getFileState_returns_the_mapped_state_witness :
  exists prod' t a,
    getFileState Scenario.core Scenario.os2001 Scenario.configured 3 false
    = Done (prod', t, (Some a, None))
    /\ filesByStream prod' !! 3 = Some a
    /\ files prod' !! "/tmp/log.log" = Some a.
Proof.
  destruct (getFileState_returns_the_mapped_state Scenario.core Scenario.os2001
              Scenario.configured 3 false (proj1 configured_shape) (proj2 configured_shape))
    as (prod' & t & r & Hrun & _ & _ & _ & Hr & _).
  assert (Hres : r = (Some (fresh (dom (store Scenario.configured))), None)).
  { vm_compute in Hrun. injection Hrun as _ _ <-. reflexivity. }
  subst r. cbn [fst] in Hr. destruct Hr as (H1 & H2 & _).
  eexists prod', t, _. split; [exact Hrun |]. split; [exact H1 | exact H2].
Defined.




(** ** Counters written and read back *)

Lemma of_uint_acc_grows (d : Decimal.uint) :
  forall acc, (acc <= Pos.of_uint_acc d acc)%positive.
Proof.
  induction d; intros acc; cbn [Pos.of_uint_acc]; [lia | ..];
    (etransitivity; [| apply IHd]); lia.
Qed.

Lemma append_cons (c : ascii) (s r : string) : String c s +:+ r = String c (s +:+ r).
Proof. reflexivity. Qed.

Lemma BtoiLoop_stops (rest : string) (n : Z) :
  Names.startsWithDigit rest = false -> tgo.BtoiLoop rest n = n.
Proof. destruct rest as [| c r]; cbn; [reflexivity |]. intros ->. reflexivity. Qed.

(** [Btoi] on the digits of a decimal number, followed by something that
    is no digit, from an accumulator on. *)
Lemma BtoiLoop_digits (rest : string) (d : Decimal.uint) :
  Names.startsWithDigit rest = false ->
  forall acc : positive,
    Z.pos (Pos.of_uint_acc d acc) < 2 ^ 64 ->
    tgo.BtoiLoop (DecimalString.NilEmpty.string_of_uint d +:+ rest) (Z.pos acc)
    = Z.pos (Pos.of_uint_acc d acc).
Proof.
  intros Hrest. induction d; intros acc Hfit;
    cbn [DecimalString.NilEmpty.string_of_uint Pos.of_uint_acc] in *;
    [apply BtoiLoop_stops; exact Hrest | ..];
    (rewrite append_cons; cbn [tgo.BtoiLoop];
     match goal with
     | |- context [isDigit ?c] => change (isDigit c) with true; cbv iota
     end;
     match goal with
     | H : Z.pos (Pos.of_uint_acc d ?a) < _ |- _ =>
         pose proof (of_uint_acc_grows d a) as Hg
     end;
     rewrite (uint64_id (Z.pos acc * 10)) by (unfold in_uint64; lia);
     match goal with
     | |- context [digitVal ?c] =>
         let v := eval vm_compute in (digitVal c) in change (digitVal c) with v
     end;
     rewrite uint64_id by (unfold in_uint64; lia);
     match goal with
     | |- tgo.BtoiLoop _ ?z = Z.pos (Pos.of_uint_acc d ?a) =>
         replace z with (Z.pos a) by lia
     end;
     apply IHd; exact Hfit).
Qed.

Lemma BtoiLoop_number (rest : string) (d : Decimal.uint) :
  Names.startsWithDigit rest = false ->
  Z.of_N (Pos.of_uint d) < 2 ^ 64 ->
  tgo.BtoiLoop (DecimalString.NilEmpty.string_of_uint d +:+ rest) 0
  = Z.of_N (Pos.of_uint d).
Proof.
  intros Hrest. induction d; intros Hfit;
    cbn [DecimalString.NilEmpty.string_of_uint Pos.of_uint] in *;
    [apply BtoiLoop_stops; exact Hrest | ..];
    rewrite append_cons; cbn [tgo.BtoiLoop];
    match goal with
    | |- context [isDigit ?c] => change (isDigit c) with true; cbv iota
    end;
    match goal with
    | |- context [digitVal ?c] =>
        let v := eval vm_compute in (digitVal c) in change (digitVal c) with v
    end;
    change (uint64 (uint64 (0 * 10) + 0)) with 0;
    [apply IHd; exact Hfit | ..];
    match goal with
    | |- context [uint64 (uint64 (0 * 10) + ?v)] =>
        change (uint64 (uint64 (0 * 10) + v)) with v
    end;
    apply (BtoiLoop_digits rest d Hrest); exact Hfit.
Qed.

Lemma append_assoc3 (a b c : string) : (a +:+ b) +:+ c = a +:+ (b +:+ c).
Proof. induction a as [| x a IH]; [reflexivity |]. rewrite !append_cons, IH. reflexivity. Qed.

Lemma digits_of_N (n : N) :
  DecimalString.NilZero.string_of_uint (N.to_uint n)
  = DecimalString.NilEmpty.string_of_uint (N.to_uint n).
Proof.
  destruct n as [| p]; [reflexivity |]. cbn [N.to_uint].
  pose proof (DecimalPos.Unsigned.to_uint_nonnil p) as Hnn.
  destruct (Pos.to_uint p); [congruence | reflexivity ..].
Qed.

Lemma BtoiLoop_zeros (k : nat) (s : string) :
  tgo.BtoiLoop (zeros k +:+ s) 0 = tgo.BtoiLoop s 0.
Proof.
  induction k as [| k IH]; [reflexivity |].
  change (zeros (S k)) with (String "0" (zeros k)). rewrite append_cons.
  cbn [tgo.BtoiLoop]. change (isDigit "0") with true. cbv iota.
  change (uint64 (uint64 (0 * 10) + digitVal "0")) with 0. exact IH.
Qed.

(** [Btoi] reads back the counter that [%d] or [%0kd] has written, when
    what follows is no digit. *)
Lemma Btoi_reads_itoa (n width : Z) (rest : string) :
  0 <= n < 2 ^ 64 ->
  Names.startsWithDigit rest = false ->
  tgo.Btoi (itoa n +:+ rest) = n
  /\ tgo.Btoi (itoaPad width n +:+ rest) = n.
Proof.
  intros Hn Hrest.
  assert (Hdigits : tgo.BtoiLoop
            (DecimalString.NilZero.string_of_uint (N.to_uint (Z.to_N n)) +:+ rest) 0 = n).
  { rewrite digits_of_N, (BtoiLoop_number rest _ Hrest);
      change (Pos.of_uint (N.to_uint (Z.to_N n))) with (N.of_uint (N.to_uint (Z.to_N n)));
      rewrite DecimalN.Unsigned.of_to; lia. }
  unfold tgo.Btoi, itoa, itoaPad.
  destruct (Z.ltb_spec n 0) as [Hneg | _]; [lia |].
  split; [exact Hdigits |].
  rewrite Z.abs_eq by lia.
  change ("" +:+ ?x) with x.
  rewrite append_assoc3, BtoiLoop_zeros. exact Hdigits.
Qed.

Lemma HasPrefix_append (s rest : string) : HasPrefix (s +:+ rest) s = true.
Proof.
  unfold HasPrefix. induction s as [| c s IH]; [destruct rest; reflexivity |].
  rewrite append_cons. cbn. rewrite IH.
  destruct (ascii_dec c c); [reflexivity | congruence].
Qed.

Lemma length_append (a b : string) :
  String.length (a +:+ b) = (String.length a + String.length b)%nat.
Proof. induction a as [| c a IH]; [reflexivity |]. rewrite append_cons. cbn. rewrite IH. reflexivity. Qed.

Lemma sliceFrom_append (a b : string) : sliceFrom (String.length a) (a +:+ b) = b.
Proof. induction a as [| c a IH]; [destruct b; reflexivity |]. rewrite append_cons. exact IH. Qed.

(** The counter [getFileState] reads off a name it has made itself. *)
Lemma counterOf_own_name (signature digits ext : string) (n : Z) :
  tgo.Btoi (digits +:+ ext) = n ->
  counterOf signature (signature +:+ "_" +:+ digits +:+ ext) = n.
Proof.
  intros Hn. unfold counterOf.
  rewrite length_append. change ("_" +:+ digits +:+ ext) with (String "_" (digits +:+ ext)).
  cbn [String.length].
  destruct (Nat.ltb_spec (String.length signature)
              (String.length signature + S (String.length (digits +:+ ext)))) as [_ | Hge];
    [| lia].
  replace (S (String.length signature)) with (String.length (signature +:+ "_"))
    by (rewrite length_append; cbn; lia).
  replace (signature +:+ String "_" (digits +:+ ext))
    with ((signature +:+ "_") +:+ (digits +:+ ext))
    by (rewrite append_assoc3; reflexivity).
  rewrite sliceFrom_append. exact Hn.
Qed.

(** X15: With rotation on, the name [getFileState] gives the new log is the
    name of no file in the directory, as long as the counters of the
    files with the same signature stay below 2^63 - 1 and the extension
    does not start with a digit. *)
Theorem new_log_name_is_not_taken (prod : File) (os : OS) (dir name ext : string) :
  enabled (rotate prod) = true ->
  (forall existing, In existing (os_ReadDir os dir) ->
     HasPrefix existing (signatureOf prod os name) = true ->
     counterOf (signatureOf prod os name) existing < 2 ^ 63 - 1) ->
  Names.startsWithDigit ext = false ->
  ~ In (logFileNameOf prod os dir name ext) (os_ReadDir os dir).
Proof.
  intros Hen Hsmall Hext Hin.
  unfold logFileNameOf in Hin. rewrite Hen in Hin. cbn [negb] in Hin.
  set (signature := signatureOf prod os name) in *.
  destruct (suffix_loop signature (os_ReadDir os dir) 0 ltac:(lia) Hsmall)
    as (Hrange & Hbelow & _).
  unfold counterChosen, maxSuffixOf in Hin.
  set (maxSuffix := fold_left (suffixStep signature) (os_ReadDir os dir) 0) in *.
  destruct (Z.eqb_spec maxSuffix 0) as [Hzero | Hpos].
  - specialize (Hbelow _ Hin (HasPrefix_append signature ext)).
    pose proof (counterOf_range signature (signature +:+ ext)) as Hr.
    unfold in_uint64 in Hr. lia.
  - assert (Hint : int maxSuffix = maxSuffix) by (apply int64_id; unfold in_int64; lia).
    rewrite Hint in Hin.
    destruct (Btoi_reads_itoa maxSuffix (zeroPad (rotate prod)) ext ltac:(lia) Hext)
      as [Hplain Hpad].
    set (digits := if 0 <? zeroPad (rotate prod)
                   then itoaPad (zeroPad (rotate prod)) maxSuffix
                   else itoa maxSuffix) in *.
    assert (Hread : tgo.Btoi (digits +:+ ext) = maxSuffix)
      by (subst digits; destruct (0 <? zeroPad (rotate prod)); assumption).
    pose proof (counterOf_own_name signature digits ext maxSuffix Hread) as Hown.
    assert (Hpre : HasPrefix (signature +:+ "_" +:+ digits +:+ ext) signature = true)
      by apply HasPrefix_append.
    specialize (Hbelow _ Hin Hpre). lia.
Qed.


Lemma new_log_name_is_not_taken_witness :
  logFileNameOf Scenario.configured Scenario.os2001 "/tmp" "log" ".log" = "log_2001_2.log"
  /\ ~ In (logFileNameOf Scenario.configured Scenario.os2001 "/tmp" "log" ".log")
          (os_ReadDir Scenario.os2001 "/tmp").
Proof.
  split; [vm_compute; reflexivity |].
  apply new_log_name_is_not_taken.
  - vm_compute. reflexivity.
  - intros existing Hin _. cbn in Hin.
    repeat (destruct Hin as [<- | Hin]; [vm_compute; reflexivity |]). destruct Hin.
  - reflexivity.
Defined.

(** ** Rolling over *)

Lemma opened_app (t1 t2 : list Event) :
  Traces.opened (t1 ++ t2) = Traces.opened t1 ++ Traces.opened t2.
Proof.
  induction t1 as [| ev t1 IH]; cbn; [reflexivity |].
  destruct ev as [| | | | | path flags perm [e |] | | | | |]; cbn; rewrite IH; reflexivity.
Qed.

(** [openLog] leaves the maps alone, and opens one file when the
    operating system lets it. *)
Lemma openLog_maps (os : OS) (prod prod' : File) (a : nat)
    (dir name ext base : string) (t : list Event) (r : option nat * option error) :
  openLog os prod a dir name ext base = Done (prod', t, r) ->
  files prod' = files prod /\ filesByStream prod' = filesByStream prod
  /\ (Roll.obliging os -> length (Traces.opened t) = 1%nat).
Proof.
  unfold openLog.
  destruct (os_MkdirAll os dir) eqn:Hmk.
  { intros H. injection H as <- <- <-. repeat split. intros [Hob _]. congruence. }
  destruct (store prod !! a) as [st |]; [| discriminate].
  destruct (os_OpenFile os _ _) eqn:Hopen; intros H; injection H as <- <- <-;
    (split; [reflexivity |]); (split; [reflexivity |]); intros [_ Hob].
  - congruence.
  - destruct (enabled (rotate prod)), (writer st); reflexivity.
Qed.

(** [getFileState] for a stream that is mapped: the maps stay, and a
    forced rotation opens one file when the operating system lets it. *)
Lemma getFileState_mapped (core : Core) (os : OS) (prod prod' : File) (streamID : Z)
    (force : bool) (t : list Event) (r : option nat * option error) :
  Shape.mapped core prod ->
  is_Some (filesByStream prod !! streamID) ->
  getFileState core os prod streamID force = Done (prod', t, r) ->
  files prod' = files prod /\ filesByStream prod' = filesByStream prod
  /\ (force = true -> Roll.honoursForce core -> Roll.obliging os ->
      length (Traces.opened t) = 1%nat).
Proof.
  intros Hm [a Hs]. unfold getFileState. rewrite Hs.
  pose proof (Hm _ _ Hs) as Hp.
  unfold consult. destruct (store prod !! a) as [st |]; [| discriminate].
  destruct (needsRotate core st (rotate prod) force) as [st' [rot err]] eqn:Hneeds.
  destruct rot; cbn [negb].
  - unfold mapAndOpen.
    change (resolveNames core (setStore prod (<[a:=st']> (store prod))) streamID)
      with (resolveNames core prod streamID).
    unfold logFileBasePathOf in Hp.
    destruct (resolveNames core prod streamID) as [[dir name] ext].
    change (files (setStore prod (<[a:=st']> (store prod)))) with (files prod).
    rewrite Hp.
    change (filesByStream (setStore prod (<[a:=st']> (store prod))))
      with (filesByStream prod).
    rewrite Hs.
    intros H. apply openLog_maps in H as (H1 & H2 & H3).
    split; [exact H1 |]. split; [exact H2 |]. intros _ _. exact H3.
  - intros H. injection H as <- <- <-. repeat split.
    intros -> Hforce _. specialize (Hforce st (rotate prod)).
    rewrite Hneeds in Hforce. discriminate.
Qed.

Lemma rotateLog_run (core : Core) (order : list (Z * OS)) :
  keepsBatch core ->
  forall prod,
    Shape.mapped core prod -> Shape.allocated prod ->
    (forall s os, In (s, os) order -> is_Some (filesByStream prod !! s)) ->
    exists prod' t,
      Roll.rotateLog core prod order = Done (prod', t)
      /\ files prod' = files prod /\ filesByStream prod' = filesByStream prod
      /\ (forall base, buffered prod' base = buffered prod base)
      /\ (forall msg, Traces.fallbacks msg t = 0%nat)
      /\ (Roll.honoursForce core ->
          (forall s os, In (s, os) order -> Roll.obliging os) ->
          length (Traces.opened t) = length order).
Proof.
  intros Hkeep. induction order as [| [s os] rest IH]; intros prod Hm Hal Hin.
  - exists prod, []. cbn. repeat split; auto.
  - cbn [Roll.rotateLog].
    destruct (getFileState_shape core os prod s true Hm Hal)
      as (prod1 & t & [ra err] & Hrun & Hm1 & Hal1 & _ & _).
    rewrite Hrun.
    destruct (getFileState_mapped core os prod prod1 s true t (ra, err) Hm
                (Hin s os (or_introl eq_refl)) Hrun) as (Hf1 & Hs1 & Hopen1).
    pose proof (getFileState_frame _ _ _ _ _ _ _ _ Hkeep Hrun) as Hb1.
    pose proof (fun msg => getFileState_no_fallback _ _ _ _ _ _ _ _ msg Hrun) as Hq1.
    destruct (IH prod1 Hm1 Hal1) as (prod2 & t2 & Hrest & Hf2 & Hs2 & Hb2 & Hq2 & Hopen2).
    { intros s' os' Hin'. rewrite Hs1. apply (Hin s' os'). right. exact Hin'. }
    rewrite Hrest. eexists _, _. split; [reflexivity |].
    split; [congruence |]. split; [congruence |].
    split; [intros base; rewrite Hb2; apply Hb1 |].
    split.
    + intros msg. rewrite !fallbacks_app, Hq1, Hq2. destruct err; reflexivity.
    + intros Hforce Hob. rewrite !opened_app, !length_app.
      rewrite (Hopen1 eq_refl Hforce (Hob s os (or_introl eq_refl))).
      rewrite (Hopen2 Hforce (fun s' os' H => Hob s' os' (or_intror H))).
      destruct err; cbn; lia.
Qed.

(** X16: [rotateLog] on a producer whose maps are sound: it does not panic,
    maps no stream and no path anew, leaves every batch as it is and hands
    nothing to the fallback; and when a forced rotation is never refused
    and the operating system opens every file, it opens as many files as
    there are streams, also where streams share a log. *)
Theorem rotateLog_opens_a_log_per_stream (core : Core) (prod : File)
    (order : list (Z * OS)) :
  keepsBatch core ->
  Shape.mapped core prod -> Shape.allocated prod ->
  Roll.visitsAll prod order ->
  exists prod' t,
    Roll.rotateLog core prod order = Done (prod', t)
    /\ files prod' = files prod /\ filesByStream prod' = filesByStream prod
    /\ (forall base, buffered prod' base = buffered prod base)
    /\ (forall msg, Traces.fallbacks msg t = 0%nat)
    /\ (Roll.honoursForce core ->
        (forall s os, In (s, os) order -> Roll.obliging os) ->
        length (Traces.opened t) = size (filesByStream prod)).
Proof.
  intros Hkeep Hm Hal Hvisit.
  assert (Hin : forall s os, In (s, os) order -> is_Some (filesByStream prod !! s)).
  { intros s os H.
    assert (Hs : In s (map fst (map_to_list (filesByStream prod)))).
    { eapply Permutation_in; [exact Hvisit |]. apply (in_map fst) in H. exact H. }
    apply in_map_iff in Hs as ([s' a] & <- & Ha).
    apply list_elem_of_In, elem_of_map_to_list in Ha. cbn. eauto. }
  destruct (rotateLog_run core order Hkeep prod Hm Hal Hin)
    as (prod' & t & Hrun & Hf & Hs & Hb & Hq & Hopen).
  exists prod', t. repeat (split; [assumption |]).
  intros Hforce Hob. rewrite (Hopen Hforce Hob).
  rewrite <- (length_map fst order), (Permutation_length Hvisit), length_map.
  apply length_map_to_list.
Qed.

Lemma twoStreams_shape :
  Shape.mapped Scenario.core Roll.twoStreams /\ Shape.allocated Roll.twoStreams.
Proof.
  destruct configured_shape as [Hm Hal].
  destruct (getFileState_shape Scenario.core Scenario.os2001 Scenario.configured 3 false
              Hm Hal) as (p1 & t1 & r1 & Hrun1 & Hm1 & Hal1 & _).
  assert (E1 : Roll.oneStream = p1) by (unfold Roll.oneStream; rewrite Hrun1; reflexivity).
  destruct (getFileState_shape Scenario.core Scenario.os2001 p1 4 false Hm1 Hal1)
    as (p2 & t2 & r2 & Hrun2 & Hm2 & Hal2 & _).
  assert (E2 : Roll.twoStreams = p2)
    by (unfold Roll.twoStreams; rewrite E1, Hrun2; reflexivity).
  rewrite E2. split; assumption.
Qed.

Lemma rotateLog_opens_a_log_per_stream_witness :
  exists prod' t,
    Roll.rotateLog Scenario.core Roll.twoStreams
      [(3, Scenario.os2001); (4, Scenario.os2001)] = Done (prod', t)
    /\ length (Traces.opened t) = 2%nat
    /\ size (files Roll.twoStreams) = 1%nat.
Proof.
  destruct (rotateLog_opens_a_log_per_stream Scenario.core Roll.twoStreams
              [(3, Scenario.os2001); (4, Scenario.os2001)])
    as (prod' & t & Hrun & _ & _ & _ & _ & Hopen).
  - exact Scenario_core_keepsBatch.
  - exact (proj1 twoStreams_shape).
  - exact (proj2 twoStreams_shape).
  - unfold Roll.visitsAll. vm_compute. apply Permutation_refl.
  - exists prod', t. split; [exact Hrun |]. split; [| vm_compute; reflexivity].
    rewrite Hopen.
    + vm_compute. reflexivity.
    + intros st rot. reflexivity.
    + intros s os Hin. cbn in Hin.
      destruct Hin as [H | [H | []]]; injection H as _ <-; split; reflexivity.
Defined.

(** ** What [Configure] settles *)

Lemma extRev_is_suffix (r : list ascii) :
  forall acc, exists x, rev (filepath.takeElem r) ++ acc = x ++ filepath.extRev r acc.
Proof.
  induction r as [| c r IH]; intros acc; cbn [filepath.takeElem filepath.extRev].
  - exists acc. rewrite app_nil_r. reflexivity.
  - destruct (filepath.isSep c) eqn:Hsep.
    + exists acc. rewrite app_nil_r. reflexivity.
    + destruct (Ascii.eqb c ".").
      * exists (rev (filepath.takeElem r)). cbn [rev]. rewrite <- app_assoc. reflexivity.
      * destruct (IH (c :: acc)) as [x Hx]. exists x. rewrite <- Hx.
        cbn [rev]. rewrite <- app_assoc. reflexivity.
Qed.

Lemma str_app (a b : list ascii) : str (a ++ b) = str a +:+ str b.
Proof.
  unfold str. induction a as [| c a IH]; [reflexivity |].
  cbn [app string_of_list_ascii]. rewrite IH. reflexivity.
Qed.

Lemma substring_front (a b : string) :
  String.substring 0 (String.length a) (a +:+ b) = a.
Proof.
  induction a as [| c a IH].
  - destruct b; reflexivity.
  - rewrite append_cons. cbn [String.length String.substring]. rewrite IH. reflexivity.
Qed.

Lemma append_empty_r (a : string) : a +:+ "" = a.
Proof. induction a as [| c a IH]; [reflexivity |]. rewrite append_cons, IH. reflexivity. Qed.

(** The base name of a path ends with the extension of the path. *)
Lemma Base_ends_with_Ext (path : string) :
  exists front, filepath.Base path = front +:+ filepath.Ext path.
Proof.
  unfold filepath.Ext, filepath.Base.
  destruct path as [| a p]; [exists "."; reflexivity |].
  remember (rev (chars (String a p))) as r eqn:Hr.
  destruct r as [| c r'].
  - exists "/". reflexivity.
  - destruct (filepath.isSep c) eqn:Hc.
    + rewrite extRev_after_sep by exact Hc. eexists. rewrite append_empty_r. reflexivity.
    + cbn [filepath.dropSeps]. rewrite Hc.
      destruct (extRev_is_suffix (c :: r') []) as [x Hx]. rewrite app_nil_r in Hx.
      destruct (rev (filepath.takeElem (c :: r'))) as [| y e] eqn:He.
      * apply (f_equal (@length ascii)) in He. rewrite length_rev in He.
        cbn in He. rewrite Hc in He. cbn in He. lia.
      * exists (str x). rewrite Hx, str_app. reflexivity.
Qed.

Lemma parseUintLoop_nonneg (bitSize : Z) (s : string) :
  0 <= bitSize ->
  forall n, 0 <= n -> 0 <= fst (strconv.parseUintLoop bitSize s n).
Proof.
  intros Hb. induction s as [| c s IH]; intros n Hn; cbn [strconv.parseUintLoop]; [exact Hn |].
  assert (Hpow : 0 < 2 ^ bitSize) by (apply Z.pow_pos_nonneg; lia).
  destruct (isDigit c) eqn:Hd; cbn [negb]; [| cbn; lia].
  destruct (strconv.maxUint64 / 10 + 1 <=? n); [cbn; lia |].
  destruct (2 ^ bitSize - 1 <? n * 10 + digitVal c); [cbn; lia |].
  apply IH. unfold isDigit in Hd. unfold digitVal.
  apply andb_prop in Hd as [Hlo _]. apply N.leb_le in Hlo. lia.
Qed.

(** [strconv.ParseInt(s, 10, 8)] stays within an int8, whatever [s] is. *)
Lemma ParseInt_8_range (s : string) : - 128 <= fst (strconv.ParseInt s 8) <= 127.
Proof.
  unfold strconv.ParseInt. destruct s as [| c r]; [cbn; lia |].
  cbv zeta.
  set (digits := if Ascii.eqb c "+" || Ascii.eqb c "-" then r else String c r).
  assert (Hun : 0 <= fst (strconv.ParseUint digits 8)).
  { unfold strconv.ParseUint. destruct digits; [cbn; lia |].
    apply parseUintLoop_nonneg; lia. }
  destruct (strconv.ParseUint digits 8) as [un [[|] |]]; cbn [fst] in *; [cbn; lia | |];
    change (2 ^ (8 - 1)) with 128;
    destruct (Ascii.eqb c "-"); cbn [negb andb];
    destruct (Z.leb_spec 128 un); destruct (Z.ltb_spec 128 un); cbn [fst]; lia.
Qed.

Lemma Configure_result (conf : gmap string string) (prod prod' : File) :
  Configure conf prod = Done prod' ->
  let logFile := GetString conf "File" "/var/log/gollum.log" in
  fileName prod' +:+ fileExt prod' = filepath.Base logFile
  /\ fileDir prod' = filepath.Dir logFile
  /\ wildcardPath prod' = containsByte "*" logFile
  /\ batchFlushCount prod' = Z.min (batchFlushCount prod) (batchMaxCount prod')
  /\ filesByStream prod' = ∅ /\ files prod' = ∅
  /\ - 128 <= atHour (rotate prod') <= 127
  /\ - 128 <= atMinute (rotate prod') <= 127
  /\ (GetString conf "Rotation/At" "" = "" ->
      atHour (rotate prod') = -1 /\ atMinute (rotate prod') = -1).
Proof.
  intros Hrun logFile. unfold Configure in Hrun. fold logFile in Hrun.
  destruct (Base_ends_with_Ext logFile) as [front Hfront].
  unfold sliceTo in Hrun.
  pose proof (Ext_not_longer_than_Base logFile) as Hle. unfold len in Hrun.
  destruct (Z.ltb_spec (Z.of_nat (String.length (filepath.Base logFile))
                        - Z.of_nat (String.length (filepath.Ext logFile))) 0);
    [lia |].
  destruct (Z.ltb_spec (Z.of_nat (String.length (filepath.Base logFile)))
              (Z.of_nat (String.length (filepath.Base logFile))
               - Z.of_nat (String.length (filepath.Ext logFile)))); [lia |].
  cbn [orb] in Hrun.
  assert (Hname : String.substring 0
            (Z.to_nat (Z.of_nat (String.length (filepath.Base logFile))
                       - Z.of_nat (String.length (filepath.Ext logFile))))
            (filepath.Base logFile) = front).
  { rewrite Hfront at 1 2. rewrite length_append.
    replace (Z.to_nat _) with (String.length front) by lia.
    apply substring_front. }
  rewrite Hname in Hrun.
  unfold parseRotateAt in Hrun.
  destruct (String.eqb_spec (GetString conf "Rotation/At" "") "") as [Hempty | Hset].
  - injection Hrun as <-. cbn.
    repeat split; try reflexivity; try lia. symmetry. exact Hfront.
  - destruct (index (Split (GetString conf "Rotation/At" "") ":") 0) as [p0 |];
      [| discriminate].
    destruct (index (Split (GetString conf "Rotation/At" "") ":") 1) as [p1 |];
      [| discriminate].
    injection Hrun as <-. cbn.
    pose proof (ParseInt_8_range p0) as Hh. pose proof (ParseInt_8_range p1) as Hmin.
    unfold int. rewrite !int64_id by (unfold in_int64; lia).
    repeat split; try reflexivity; try lia; congruence.
Qed.

(** X17: When [Configure] returns: the file name and the extension put
    together are the base name of the configured path; the flush count is
    at most the maximum count of a batch; no stream and no path is mapped;
    the hour and the minute to rotate at lie within an int8, and are both
    -1 when [Rotation/At] is not set. *)
Theorem Configure_settles_the_fields (conf : gmap string string) (prod prod' : File) :
  Configure conf prod = Done prod' ->
  fileName prod' +:+ fileExt prod'
  = filepath.Base (GetString conf "File" "/var/log/gollum.log")
  /\ batchFlushCount prod' <= batchMaxCount prod'
  /\ batchFlushCount prod' <= batchFlushCount prod
  /\ filesByStream prod' = ∅ /\ files prod' = ∅
  /\ - 128 <= atHour (rotate prod') <= 127
  /\ - 128 <= atMinute (rotate prod') <= 127
  /\ (GetString conf "Rotation/At" "" = "" ->
      atHour (rotate prod') = -1 /\ atMinute (rotate prod') = -1).
Proof.
  intros Hrun.
  destruct (Configure_result conf prod prod' Hrun)
    as (H1 & _ & _ & H4 & H5 & H6 & H7 & H8 & H9).
  assert (Hmax : batchMaxCount prod' = batchMaxCount prod).
  { unfold Configure in Hrun.
    destruct (sliceTo _ _); [| discriminate].
    destruct (parseRotateAt _) as [[h m] |]; [| discriminate].
    injection Hrun as <-. reflexivity. }
  repeat (split; [first [assumption | lia] |]). exact H9.
Qed.

Lemma Configure_settles_the_fields_witness :
  exists prod',
    Configure Settings.conf Settings.bound = Done prod'
    /\ (fileName prod' = "out.log" /\ fileExt prod' = ".gz"
        /\ batchFlushCount prod' = 8192
        /\ atHour (rotate prod') = 127 /\ atMinute (rotate prod') = 99)
    /\ fileName prod' +:+ fileExt prod'
       = filepath.Base (GetString Settings.conf "File" "/var/log/gollum.log")
    /\ batchFlushCount prod' <= batchMaxCount prod'
    /\ batchFlushCount prod' <= batchFlushCount Settings.bound
    /\ filesByStream prod' = ∅ /\ files prod' = ∅
    /\ - 128 <= atHour (rotate prod') <= 127
    /\ - 128 <= atMinute (rotate prod') <= 127
    /\ (GetString Settings.conf "Rotation/At" "" = "" ->
        atHour (rotate prod') = -1 /\ atMinute (rotate prod') = -1).
Proof.
  destruct (Configure Settings.conf Settings.bound) as [prod' | why] eqn:Hrun;
    [| vm_compute in Hrun; discriminate].
  exists prod'. split; [reflexivity |].
  split; [| exact (Configure_settles_the_fields _ _ _ Hrun)].
  vm_compute in Hrun. injection Hrun as <-. repeat split; reflexivity.
Defined.

(** ** Closing a writer *)




(** ** What a sweep leaves alone *)

(** The loops of the pruner remove nothing but files of the listing. *)
Lemma hourLoop_within (os : pruneOS) (baseDir : string) (date : Z)
    (files es : list FileInfo) :
  exists gone, (forall g, In g gone -> In g files)
               /\ fst (hourLoop os baseDir date files es)
                  = List.filter (notRemoved gone) es.
Proof.
  eexists. split; [| apply hourLoop_result].
  intros g Hg. apply filter_In in Hg as [Hg _].
  apply (proj1 (olderThan_facts date files)) in Hg as [Hg _]. exact Hg.
Qed.

Lemma countLoop_within (os : pruneOS) (baseDir : string) :
  forall (k : nat) (files es es' : list FileInfo) (t : list pruneEvent),
    countLoop os baseDir k files es = Done (es', t) ->
    exists gone, (forall g, In g gone -> In g files)
                 /\ es' = List.filter (notRemoved gone) es.
Proof.
  induction k as [| k IH]; intros files es es' t; cbn [countLoop].
  - intros H. injection H as <- _. exists []. split; [intros g [] |].
    unfold notRemoved. cbn. symmetry. apply filter_true.
  - destruct files as [| f r]; [discriminate |].
    pose proof (removeEntry_result os es baseDir f) as H1.
    destruct (removeEntry os es baseDir (fi_Name f)) as [es1 t1]. cbn [fst] in H1.
    destruct (countLoop os baseDir k r es1) as [[es2 t2] |] eqn:Hrest; [| discriminate].
    intros H. injection H as <- _.
    destruct (IH r es1 es2 t2 Hrest) as (gone & Hsub & ->).
    exists (List.filter (Sweep.removes os baseDir) [f] ++ gone). split.
    + intros g Hg. apply in_app_or in Hg as [Hg | Hg].
      * apply filter_In in Hg as [[<- | []] _]. left. reflexivity.
      * right. apply Hsub. exact Hg.
    + rewrite H1. apply notRemoved_app.
Qed.

Lemma sizeLoop_within (os : pruneOS) (baseDir : string) (maxSize : Z)
    (files : list FileInfo) :
  forall total es,
    exists gone, (forall g, In g gone -> In g files)
                 /\ fst (sizeLoop os baseDir maxSize total files es)
                    = List.filter (notRemoved gone) es.
Proof.
  induction files as [| f r IH]; intros total es; cbn [sizeLoop].
  - exists []. split; [intros g [] |].
    unfold notRemoved. cbn. symmetry. apply filter_true.
  - destruct (total <=? maxSize).
    + exists []. split; [intros g [] |].
      unfold notRemoved. cbn. symmetry. apply filter_true.
    + pose proof (removeEntry_result os es baseDir f) as H1.
      destruct (removeEntry os es baseDir (fi_Name f)) as [es1 t1]. cbn [fst] in H1.
      match goal with
      | |- context [sizeLoop os baseDir maxSize ?tot r es1] =>
          destruct (IH tot es1) as (gone & Hsub & Hres);
          destruct (sizeLoop os baseDir maxSize tot r es1) as [es2 t2]
      end.
      cbn [fst] in *.
      exists (List.filter (Sweep.removes os baseDir) [f] ++ gone). split.
      * intros g Hg. apply in_app_or in Hg as [Hg | Hg].
        -- apply filter_In in Hg as [[<- | []] _]. left. reflexivity.
        -- right. apply Hsub. exact Hg.
      * rewrite Hres, H1. apply notRemoved_app.
Qed.

(** Removing files of the listing leaves the entries that do not match
    where they are, in a directory whose names differ. *)
Lemma others_stay (os : pruneOS) (pattern : string) (es files gone : list FileInfo) :
  List.NoDup (map fi_Name es) ->
  (forall f, In f files -> In f es /\ keepMatching os pattern f = true) ->
  (forall g, In g gone -> In g files) ->
  let es' := List.filter (notRemoved gone) es in
  List.NoDup (map fi_Name es')
  /\ (forall e, In e es' -> In e es)
  /\ (forall e, In e es -> keepMatching os pattern e = false -> In e es').
Proof.
  intros Hnd Hin Hsub es'. subst es'.
  split; [apply NoDup_names_filter; exact Hnd |].
  split; [intros e He; apply filter_In in He as [He _]; exact He |].
  intros e He Hk. apply filter_In. split; [exact He |].
  apply notRemoved_spec. intros f Hf Heq.
  destruct (Hin f (Hsub f Hf)) as [Hfe Hkeep].
  assert (f = e) as -> by exact (same_name_same_entry es f e Hnd Hfe He Heq).
  congruence.
Qed.

Lemma nothing_gone (es : list FileInfo) : List.filter (notRemoved []) es = es.
Proof. unfold notRemoved. cbn. apply filter_true. Qed.

Ltac nothing_listed :=
  exists [], []; cbn [fst]; rewrite nothing_gone;
  split; [intros ? [] | split; [intros ? [] | reflexivity]].

(** X19: [Prune], whatever its three policies are set to and whatever the
    operating system answers: in a directory whose names differ it adds
    no entry, and every entry that does not match the pattern of the log
    is still there afterwards. *)
Theorem Prune_spares_what_does_not_match (pruner : filePruner) (os : pruneOS) (entries : list FileInfo)
    (base : string) (entries' : list FileInfo) (t : list pruneEvent) :
  List.NoDup (map fi_Name entries) ->
  Prune pruner os entries base = Done (entries', t) ->
  (forall e, In e entries' -> In e entries)
  /\ (forall e, In e entries -> keepMatching os (snd (patternOf base)) e = false ->
                In e entries').
Proof.
  intros Hnd. unfold Prune.
  (* by age *)
  assert (H1 : exists gone files,
            (forall f, In f files -> In f entries
                                     /\ keepMatching os (snd (patternOf base)) f = true)
            /\ (forall g, In g gone -> In g files)
            /\ fst (if 0 <? pruneHours pruner
                    then pruneByHour os entries base (pruneHours pruner)
                    else (entries, []))
               = List.filter (notRemoved gone) entries).
  { destruct (0 <? pruneHours pruner);
      [| nothing_listed].
    unfold pruneByHour. destruct (patternOf base) as [baseDir pattern]. cbn [snd].
    destruct (ListFilesByDateMatching os entries pattern) as [files | err] eqn:Hl;
      [| nothing_listed].
    destruct (listing_facts os entries pattern files Hl) as (_ & _ & Hin & _).
    destruct (hourLoop_within os baseDir
                (p_now os + int64 (int64 (- pruneHours pruner) * Hour)) files entries)
      as (gone & Hsub & Hres).
    exists gone, files. auto. }
  destruct H1 as (gone1 & files1 & Hin1 & Hsub1 & Hres1).
  destruct (if 0 <? pruneHours pruner then _ else _) as [entries1 t1].
  cbn [fst] in Hres1. subst entries1.
  destruct (others_stay os _ entries files1 gone1 Hnd Hin1 Hsub1) as (Hnd1 & Hback1 & Hstay1).
  set (entries1 := List.filter (notRemoved gone1) entries) in *.
  (* by count *)
  destruct (if 0 <? pruneCount pruner then _ else _) as [[entries2 t2] | why] eqn:Hcount;
    [| discriminate].
  assert (H2 : exists gone files,
            (forall f, In f files -> In f entries1
                                     /\ keepMatching os (snd (patternOf base)) f = true)
            /\ (forall g, In g gone -> In g files)
            /\ entries2 = List.filter (notRemoved gone) entries1).
  { destruct (0 <? pruneCount pruner);
      [| injection Hcount as <- _; nothing_listed].
    unfold pruneByCount in Hcount. destruct (patternOf base) as [baseDir pattern].
    cbn [snd].
    destruct (ListFilesByDateMatching os entries1 pattern) as [files | err] eqn:Hl;
      [| injection Hcount as <- _; nothing_listed].
    destruct (listing_facts os entries1 pattern files Hl) as (_ & _ & Hin & _).
    destruct (int (Z.of_nat (length files) - pruneCount pruner) <? 1);
      [injection Hcount as <- _; exists [], files; rewrite nothing_gone;
       split; [exact Hin | split; [intros ? [] | reflexivity]] |].
    destruct (countLoop_within os baseDir _ files entries1 entries2 t2 Hcount)
      as (gone & Hsub & Hres).
    exists gone, files. auto. }
  destruct H2 as (gone2 & files2 & Hin2 & Hsub2 & ->).
  destruct (others_stay os _ entries1 files2 gone2 Hnd1 Hin2 Hsub2)
    as (Hnd2 & Hback2 & Hstay2).
  set (entries2 := List.filter (notRemoved gone2) entries1) in *.
  (* by size *)
  assert (H3 : exists gone files,
            (forall f, In f files -> In f entries2
                                     /\ keepMatching os (snd (patternOf base)) f = true)
            /\ (forall g, In g gone -> In g files)
            /\ fst (if 0 <? pruneSize pruner
                    then pruneToSize os entries2 base (pruneSize pruner)
                    else (entries2, []))
               = List.filter (notRemoved gone) entries2).
  { destruct (0 <? pruneSize pruner);
      [| nothing_listed].
    unfold pruneToSize. destruct (patternOf base) as [baseDir pattern]. cbn [snd].
    destruct (ListFilesByDateMatching os entries2 pattern) as [files | err] eqn:Hl;
      [| nothing_listed].
    destruct (listing_facts os entries2 pattern files Hl) as (_ & _ & Hin & _).
    destruct (sizeLoop_within os baseDir (pruneSize pruner) files
                (fold_left (fun acc f => int64 (acc + fi_Size f)) files 0) entries2)
      as (gone & Hsub & Hres).
    exists gone, files. auto. }
  destruct H3 as (gone3 & files3 & Hin3 & Hsub3 & Hres3).
  destruct (if 0 <? pruneSize pruner then _ else _) as [entries3 t3].
  cbn [fst] in Hres3. subst entries3.
  destruct (others_stay os _ entries2 files3 gone3 Hnd2 Hin3 Hsub3)
    as (_ & Hback3 & Hstay3).
  intros H. injection H as <- _. split.
  - intros e He. auto.
  - intros e He Hk. auto.
Qed.


Lemma Prune_spares_what_does_not_match_witness :
  exists entries' t,
    Prune (Scenario.byCount 1) Sweep.stubborn Scenario.entries "/tmp/log.log"
    = Done (entries', t)
    /\ In (Scenario.entry "other" 1 1) entries'.
Proof.
  destruct (Prune (Scenario.byCount 1) Sweep.stubborn Scenario.entries "/tmp/log.log")
    as [[entries' t] | why] eqn:Hrun; [| vm_compute in Hrun; discriminate].
  exists entries', t. split; [reflexivity |].
  refine (proj2 (Prune_spares_what_does_not_match _ _ _ _ _ _ _ Hrun) _ _ _).
  - vm_compute. repeat constructor; cbn; intuition discriminate.
  - cbn. auto.
  - reflexivity.
Defined.

(** ** The formatters *)

Lemma copy_fits (dst src : list ascii) :
  (length src <= length dst)%nat ->
  GoSlice.copy dst src = (src ++ skipn (length src) dst, GoSlice.len src).
Proof.
  intros Hle. unfold GoSlice.copy, GoSlice.len.
  rewrite Nat.min_r by exact Hle. rewrite firstn_all. reflexivity.
Qed.

Lemma copyAt_fits (s src : list ascii) (k : nat) :
  (k + length src <= length s)%nat ->
  GoSlice.copyAt s (Z.of_nat k) src
  = Done (firstn k s ++ src ++ skipn (k + length src) s, GoSlice.len src).
Proof.
  intros Hle. unfold GoSlice.copyAt, GoSlice.len.
  destruct (Z.ltb_spec (Z.of_nat k) 0); [lia |].
  destruct (Z.ltb_spec (Z.of_nat (length s)) (Z.of_nat k)); [lia |].
  cbn [orb]. rewrite Nat2Z.id.
  rewrite copy_fits by (rewrite length_skipn; lia).
  rewrite skipn_skipn. rewrite (Nat.add_comm (length src) k). reflexivity.
Qed.

(** Three copies in a row fill a slice of the right length with the
    three sources, whatever it held. *)
Lemma three_copies (payload a b c : list ascii) :
  length payload = (length a + length b + length c)%nat ->
  Z.of_nat (length payload) < 2 ^ 63 ->
  GoSlice.copy payload a = (a ++ skipn (length a) payload, GoSlice.len a)
  /\ GoSlice.copyAt (a ++ skipn (length a) payload) (GoSlice.len a) b
     = Done (a ++ b ++ skipn (length a + length b) payload, GoSlice.len b)
  /\ GoSlice.copyAt (a ++ b ++ skipn (length a + length b) payload)
       (int (GoSlice.len a + GoSlice.len b)) c
     = Done (a ++ b ++ c, GoSlice.len c).
Proof.
  intros Hlen Hfit.
  split; [apply copy_fits; lia |].
  split.
  - unfold GoSlice.len at 1.
    rewrite copyAt_fits by (rewrite length_app, length_skipn; lia).
    rewrite firstn_app, firstn_all, Nat.sub_diag, firstn_0, app_nil_r.
    rewrite skipn_app, (skipn_all2 a) by lia. cbn [app].
    replace (length a + length b - length a)%nat with (length b) by lia.
    rewrite skipn_skipn. rewrite (Nat.add_comm (length b) (length a)). reflexivity.
  - unfold int. rewrite int64_id by (unfold in_int64, GoSlice.len; lia).
    unfold GoSlice.len at 1 2. rewrite <- Nat2Z.inj_add.
    rewrite copyAt_fits
      by (rewrite !length_app, length_skipn; lia).
    assert (Hhead : firstn (length a + length b)
                      (a ++ b ++ skipn (length a + length b) payload) = a ++ b).
    { rewrite app_assoc. rewrite <- (length_app a b). apply take_app_length. }
    assert (Htail : skipn (length a + length b + length c)
                      (a ++ b ++ skipn (length a + length b) payload) = []).
    { apply skipn_all2. rewrite !length_app, length_skipn. lia. }
    rewrite Hhead, Htail, app_nil_r, <- app_assoc. reflexivity.
Qed.

Lemma str_chars (s : string) : str (chars s) = s.
Proof. unfold str, chars. apply string_of_list_ascii_of_string. Qed.

(** X20: [Runlength.ApplyFormatter] with a pool that hands out slices of
    the length asked for: the payload is the decimal length of the
    content, the separator and the content, whatever the pooled slice
    held, or the length alone when only the run length is stored; and
    when separator and content do not go on with a digit, [Btoi] reads
    the length of the content off the payload, and the content follows
    the separator. *)
Theorem Runlength_frames_the_content (format : format.Runlength)
    (pool : Z -> list ascii) (content : list ascii) :
  (forall n, 0 <= n -> length (pool n) = Z.to_nat n) ->
  let lengthStr := chars (itoa (GoSlice.len content)) in
  let sep := format.separator format in
  GoSlice.len lengthStr + GoSlice.len sep + GoSlice.len content < 2 ^ 63 ->
  exists payload,
    format.ApplyFormatter format pool content = Done payload
    /\ (format.storeRunlengthOnly format = true -> payload = lengthStr)
    /\ (format.storeRunlengthOnly format = false ->
        payload = lengthStr ++ sep ++ content
        /\ (Names.startsWithDigit (str (sep ++ content)) = false ->
            tgo.Btoi (str payload) = GoSlice.len content
            /\ skipn (length lengthStr + length sep) payload = content)).
Proof.
  intros Hpool lengthStr sep Hfit. unfold format.ApplyFormatter.
  fold lengthStr. fold sep.
  destruct (format.storeRunlengthOnly format); cbn [negb].
  - exists lengthStr. split; [reflexivity |]. split; [reflexivity | discriminate].
  - unfold GoSlice.len in Hfit.
    assert (Hsize : int (int (GoSlice.len lengthStr + GoSlice.len sep)
                         + GoSlice.len content)
                    = Z.of_nat (length lengthStr + length sep + length content)).
    { unfold int, GoSlice.len.
      rewrite (int64_id (Z.of_nat (length lengthStr) + Z.of_nat (length sep)))
        by (unfold in_int64; lia).
      rewrite int64_id by (unfold in_int64; lia). lia. }
    rewrite Hsize.
    set (payload := pool (Z.of_nat (length lengthStr + length sep + length content))).
    assert (Hlen : length payload
                   = (length lengthStr + length sep + length content)%nat)
      by (subst payload; rewrite Hpool by lia; lia).
    destruct (three_copies payload lengthStr sep content Hlen ltac:(lia))
      as (H1 & H2 & H3).
    rewrite H1, H2, H3.
    exists (lengthStr ++ sep ++ content).
    split; [reflexivity |]. split; [discriminate |]. intros _.
    split; [reflexivity |]. intros Hrest. split.
    + rewrite str_app. subst lengthStr. rewrite str_chars.
      apply (Btoi_reads_itoa (GoSlice.len content) 0); [| exact Hrest].
      unfold GoSlice.len. lia.
    + rewrite app_assoc, skipn_app, skipn_all2 by (rewrite length_app; lia).
      rewrite length_app, Nat.sub_diag. reflexivity.
Qed.

Lemma Runlength_frames_the_content_witness :
  format.ApplyFormatter
    {| format.separator := chars ":"; format.storeRunlengthOnly := false |}
    format.stale (chars "hello world")
  = Done (chars "11:hello world")
  /\ tgo.Btoi "11:hello world" = 11.
Proof.
  destruct (Runlength_frames_the_content
              {| format.separator := chars ":"; format.storeRunlengthOnly := false |}
              format.stale (chars "hello world"))
    as (payload & Hrun & _ & Hpay).
  - intros n Hn. unfold format.stale. apply repeat_length.
  - vm_compute. reflexivity.
  - destruct (Hpay eq_refl) as [-> Hread].
    split; [exact Hrun |]. exact (proj1 (Hread eq_refl)).
Defined.

(** X21: [Double.Format] with a [Resize] that makes the payload a slice of
    the length asked for: the payload becomes what the left formatters
    make of the message, the separator, and what the right formatters make
    of the message as it came in (not of what the left side made of it),
    whatever the resized slice held; the stream is that of the side
    chosen.  With no formatter on either side the payload is doubled. *)
Theorem Double_glues_both_sides (format : format.Double)
    (resize : format.Msg -> Z -> list ascii) (msg : format.Msg) :
  (forall m n, 0 <= n -> length (resize m n) = Z.to_nat n) ->
  let leftMsg := format.applyAll (format.left format) msg in
  let rightMsg := format.applyAll (format.right format) msg in
  let sep := format.d_separator format in
  GoSlice.len (format.data leftMsg) + GoSlice.len sep
  + GoSlice.len (format.data rightMsg) < 2 ^ 63 ->
  format.Format format resize msg
  = Done {| format.data := format.data leftMsg ++ sep ++ format.data rightMsg;
            format.streamID := if format.leftStreamID format
                               then format.streamID leftMsg
                               else format.streamID rightMsg |}
  /\ (format.left format = [] -> format.right format = [] ->
      format.Format format resize msg
      = Done {| format.data := format.data msg ++ sep ++ format.data msg;
                format.streamID := format.streamID msg |}).
Proof.
  intros Hresize leftMsg rightMsg sep Hfit.
  assert (Hrun : format.Format format resize msg
                 = Done {| format.data := format.data leftMsg ++ sep ++ format.data rightMsg;
                           format.streamID := if format.leftStreamID format
                                              then format.streamID leftMsg
                                              else format.streamID rightMsg |}).
  { unfold format.Format. fold leftMsg. fold rightMsg. fold sep.
    unfold GoSlice.len in Hfit.
    assert (Hsize : int (int (GoSlice.len (format.data leftMsg) + GoSlice.len sep)
                         + GoSlice.len (format.data rightMsg))
                    = Z.of_nat (length (format.data leftMsg) + length sep
                                + length (format.data rightMsg))).
    { unfold int, GoSlice.len.
      rewrite (int64_id (Z.of_nat (length (format.data leftMsg))
                         + Z.of_nat (length sep))) by (unfold in_int64; lia).
      rewrite int64_id by (unfold in_int64; lia). lia. }
    rewrite Hsize.
    set (payload := resize msg _).
    assert (Hlen : length payload
                   = (length (format.data leftMsg) + length sep
                      + length (format.data rightMsg))%nat)
      by (subst payload; rewrite Hresize by lia; lia).
    destruct (three_copies payload (format.data leftMsg) sep (format.data rightMsg)
                Hlen ltac:(lia)) as (H1 & H2 & H3).
    rewrite H1, H2, H3. reflexivity. }
  split; [exact Hrun |].
  intros Hl Hr. rewrite Hrun. subst leftMsg rightMsg. rewrite Hl, Hr. cbn.
  destruct (format.leftStreamID format); reflexivity.
Qed.

Lemma Double_glues_both_sides_witness :
  format.Format
    {| format.d_separator := chars "|"; format.leftStreamID := true;
       format.left := [fun m => {| format.data := chars "L" ++ format.data m;
                                   format.streamID := 1 |}];
       format.right := [] |}
    (fun _ => format.stale)
    {| format.data := chars "msg"; format.streamID := 9 |}
  = Done {| format.data := chars "Lmsg|msg"; format.streamID := 1 |}.
Proof.
  refine (proj1 (Double_glues_both_sides _ (fun _ => format.stale) _ _ _)).
  - intros m n Hn. unfold format.stale. apply repeat_length.
  - vm_compute. reflexivity.
Defined.

(** ** The byte buffer of the S3 producer *)

Lemma Write_within (spare : nat -> nat -> nat) (buf : awss3.s3ByteBuffer)
    (p : list ascii) :
  awss3.wellFormed buf ->
  0 <= awss3.position buf <= Z.of_nat (awss3.blen buf) ->
  awss3.position buf + GoSlice.len p < 2 ^ 63 ->
  exists buf',
    awss3.Write spare buf p = Done (buf', (GoSlice.len p, None))
    /\ awss3.bytesOf buf'
       = firstn (Z.to_nat (awss3.position buf)) (awss3.bytesOf buf) ++ p
    /\ awss3.position buf' = Z.of_nat (awss3.blen buf')
    /\ awss3.position buf' = awss3.position buf + GoSlice.len p
    /\ awss3.wellFormed buf'.
Proof.
  unfold awss3.wellFormed, GoSlice.len. intros Hwf Hpos Hfit.
  unfold awss3.Write, GoSlice.len.
  destruct (Z.ltb_spec (awss3.position buf) 0); [lia |].
  destruct (Z.ltb_spec (Z.of_nat (length (awss3.arr buf))) (awss3.position buf)); [lia |].
  cbn [orb]. eexists. split; [reflexivity |].
  set (pos := Z.to_nat (awss3.position buf)).
  assert (Hhead : firstn pos (awss3.bytesOf buf) = firstn pos (awss3.arr buf)).
  { unfold awss3.bytesOf. rewrite firstn_firstn. f_equal. lia. }
  assert (Htake : forall tail,
            firstn (pos + length p) (firstn pos (awss3.arr buf) ++ p ++ tail)
            = firstn pos (awss3.arr buf) ++ p).
  { intros tail. rewrite app_assoc.
    replace (pos + length p)%nat
      with (length (firstn pos (awss3.arr buf) ++ p))
      by (rewrite length_app, length_firstn; lia).
    apply take_app_length. }
  unfold awss3.bytesOf at 1. cbn [awss3.arr awss3.blen awss3.position].
  fold pos. rewrite Hhead.
  split.
  - destruct (pos + length p <=? length (awss3.arr buf))%nat; apply Htake.
  - rewrite (int64_id (Z.of_nat (length p))) by (unfold in_int64; lia).
    rewrite int64_id by (unfold in_int64; lia).
    split; [lia |]. split; [reflexivity |].
    destruct (Nat.leb_spec (pos + length p) (length (awss3.arr buf)));
      rewrite !length_app, length_firstn; [rewrite length_skipn |]; lia.
Qed.

(** X22: [Write] at a position within the slice: what lay behind the position
    is gone, also when less is written than lay there; the position is
    the end of the slice afterwards. *)
Theorem s3_Write_cuts_the_tail (spare : nat -> nat -> nat) (buf : awss3.s3ByteBuffer)
    (p : list ascii) :
  awss3.wellFormed buf ->
  0 <= awss3.position buf <= Z.of_nat (awss3.blen buf) ->
  awss3.position buf + GoSlice.len p < 2 ^ 63 ->
  exists buf',
    awss3.Write spare buf p = Done (buf', (GoSlice.len p, None))
    /\ fst (awss3.Bytes buf')
       = firstn (Z.to_nat (awss3.position buf)) (fst (awss3.Bytes buf)) ++ p
    /\ fst (awss3.Size buf') = awss3.position buf + GoSlice.len p
    /\ awss3.position buf' = fst (awss3.Size buf')
    /\ awss3.wellFormed buf'.
Proof.
  intros Hwf Hpos Hfit.
  destruct (Write_within spare buf p Hwf Hpos Hfit) as (buf' & Hrun & Hb & Hp & Hq & Hwf').
  exists buf'. split; [exact Hrun |]. split; [exact Hb |].
  unfold awss3.Size. cbn [fst]. split; [lia |]. split; [lia | exact Hwf'].
Qed.

Lemma s3_Write_cuts_the_tail_witness :
  exists buf1 buf2,
    awss3.Write awss3.doubling awss3.newS3ByteBuffer (chars "hello world")
    = Done (buf1, (11, None))
    /\ awss3.Write awss3.doubling (fst (awss3.Seek buf1 5 0)) (chars "!")
       = Done (buf2, (1, None))
    /\ fst (awss3.Bytes buf2) = chars "hello!".
Proof.
  destruct (awss3.Write awss3.doubling awss3.newS3ByteBuffer (chars "hello world"))
    as [[buf1 r1] | why] eqn:Hrun1; [| vm_compute in Hrun1; discriminate].
  assert (E1 : buf1 = {| awss3.position := 11;
                         awss3.arr := chars "hello world"
                                      ++ repeat "000"%char 11;
                         awss3.blen := 11 |} /\ r1 = (11, None))
    by (vm_compute in Hrun1; injection Hrun1 as <- <-; split; reflexivity).
  destruct E1 as [-> ->].
  destruct (s3_Write_cuts_the_tail awss3.doubling
              (fst (awss3.Seek {| awss3.position := 11;
                                  awss3.arr := chars "hello world"
                                               ++ repeat "000"%char 11;
                                  awss3.blen := 11 |} 5 0)) (chars "!"))
    as (buf2 & Hrun2 & Hbytes & _).
  - unfold awss3.wellFormed. vm_compute. lia.
  - split; vm_compute; discriminate.
  - vm_compute. reflexivity.
  - eexists _, buf2. split; [reflexivity |]. split; [exact Hrun2 | exact Hbytes].
Defined.

Lemma bytesOf_length (buf : awss3.s3ByteBuffer) :
  awss3.wellFormed buf -> length (awss3.bytesOf buf) = awss3.blen buf.
Proof. unfold awss3.wellFormed, awss3.bytesOf. intros H. rewrite length_firstn. lia. Qed.

Lemma writeAll_appends (spare : nat -> nat -> nat) (chunks : list (list ascii)) :
  forall buf,
    awss3.wellFormed buf ->
    awss3.position buf = Z.of_nat (awss3.blen buf) ->
    Z.of_nat (awss3.blen buf + length (concat chunks)) < 2 ^ 63 ->
    exists buf',
      awss3.writeAll spare buf chunks = Done buf'
      /\ awss3.bytesOf buf' = awss3.bytesOf buf ++ concat chunks
      /\ awss3.position buf' = Z.of_nat (awss3.blen buf')
      /\ awss3.wellFormed buf'.
Proof.
  induction chunks as [| p rest IH]; intros buf Hwf Hpos Hfit.
  - exists buf. cbn. rewrite app_nil_r. auto.
  - cbn [awss3.writeAll concat] in *. rewrite length_app in Hfit.
    destruct (Write_within spare buf p Hwf ltac:(lia)
                ltac:(unfold GoSlice.len; lia))
      as (buf1 & Hrun & Hb & Hp & Hq & Hwf1).
    rewrite Hrun.
    assert (Hlen1 : awss3.blen buf1 = (awss3.blen buf + length p)%nat)
      by (unfold GoSlice.len in Hq; lia).
    destruct (IH buf1 Hwf1 Hp ltac:(lia)) as (buf' & Hrest & Hb' & Hp' & Hwf').
    exists buf'. split; [exact Hrest |]. split; [| auto].
    rewrite Hb', Hb, Hpos, Nat2Z.id.
    rewrite firstn_all2 by (rewrite bytesOf_length by exact Hwf; lia).
    rewrite <- app_assoc. reflexivity.
Qed.

Lemma bytesOf_moved (buf : awss3.s3ByteBuffer) (pos : Z) :
  awss3.bytesOf {| awss3.position := pos; awss3.arr := awss3.arr buf;
                   awss3.blen := awss3.blen buf |} = awss3.bytesOf buf.
Proof. reflexivity. Qed.

(** [Read] at a position within the slice. *)
Lemma Read_within (buf : awss3.s3ByteBuffer) (p : list ascii) :
  awss3.wellFormed buf ->
  0 <= awss3.position buf <= Z.of_nat (awss3.blen buf) ->
  Z.of_nat (awss3.blen buf) < 2 ^ 63 ->
  let rest := skipn (Z.to_nat (awss3.position buf)) (awss3.bytesOf buf) in
  let n := Nat.min (length p) (length rest) in
  awss3.Read buf p
  = Done ({| awss3.position := awss3.position buf + Z.of_nat n;
             awss3.arr := awss3.arr buf; awss3.blen := awss3.blen buf |},
          firstn n rest ++ skipn n p,
          (Z.of_nat n,
           if awss3.position buf + Z.of_nat n =? Z.of_nat (awss3.blen buf)
           then Some io_EOF else None)).
Proof.
  intros Hwf Hpos Hfit rest n. unfold awss3.Read.
  destruct (Z.ltb_spec (awss3.position buf) 0); [lia |].
  destruct (Z.ltb_spec (Z.of_nat (awss3.blen buf)) (awss3.position buf)); [lia |].
  cbn [orb]. unfold GoSlice.copy. fold rest. fold n.
  assert (Hrest : length rest = (awss3.blen buf - Z.to_nat (awss3.position buf))%nat)
    by (subst rest; rewrite length_skipn, bytesOf_length by exact Hwf; reflexivity).
  assert (Hn : (n <= length rest)%nat) by (subst n; lia).
  rewrite (int64_id (Z.of_nat n)) by (unfold in_int64; lia).
  rewrite (int64_id (awss3.position buf + Z.of_nat n)) by (unfold in_int64; lia).
  rewrite (int64_id (Z.of_nat (awss3.blen buf))) by (unfold in_int64; lia).
  reflexivity.
Qed.

(** X23: Chunks written one after the other to a new buffer, or to one that
    [CloseAndDelete] has emptied, are its bytes, in order; a [Read] at
    the end reads nothing and reports end-of-input;
    after [Seek(0, 0)] a [Read] into a slice that is long enough gets all
    the bytes together with end-of-input, and a [Read] into a shorter
    slice fills it from the front of the bytes without end-of-input. *)
Theorem s3_reads_back_what_was_written (spare : nat -> nat -> nat)
    (chunks : list (list ascii)) (p : list ascii) :
  let written := concat chunks in
  Z.of_nat (length written) < 2 ^ 63 ->
  exists buf,
    awss3.writeAll spare awss3.newS3ByteBuffer chunks = Done buf
    /\ (forall used, awss3.writeAll spare (fst (awss3.CloseAndDelete used)) chunks
                     = Done buf)
    /\ fst (awss3.Bytes buf) = written
    /\ fst (awss3.Size buf) = GoSlice.len written
    /\ awss3.Read buf p = Done (buf, p, (0, Some io_EOF))
    /\ (length written <= length p ->
        exists buf',
          awss3.Read (fst (awss3.Seek buf 0 0)) p
          = Done (buf', written ++ skipn (length written) p,
                  (GoSlice.len written, Some io_EOF)))%nat
    /\ (length p < length written ->
        exists buf',
          awss3.Read (fst (awss3.Seek buf 0 0)) p
          = Done (buf', firstn (length p) written, (GoSlice.len p, None)))%nat.
Proof.
  intros written Hfit. subst written.
  destruct (writeAll_appends spare chunks awss3.newS3ByteBuffer)
    as (buf & Hrun & Hb & Hp & Hwf).
  { unfold awss3.wellFormed. cbn. lia. }
  { reflexivity. }
  { cbn [awss3.newS3ByteBuffer awss3.blen]. lia. }
  cbn in Hb.
  pose proof (bytesOf_length buf Hwf) as Hlen. rewrite Hb in Hlen.
  exists buf. split; [exact Hrun |]. split; [intros used; exact Hrun |].
  split; [exact Hb |].
  split; [unfold awss3.Size, GoSlice.len; cbn; lia |].
  split; [| split].
  - rewrite (Read_within buf p Hwf) by lia.
    rewrite skipn_all2 by (rewrite Hb, Hp; lia).
    cbn [length]. rewrite Nat.min_0_r. cbn [firstn skipn app Z.of_nat].
    rewrite Z.add_0_r.
    destruct buf as [pos a l]. cbn [awss3.position awss3.arr awss3.blen] in *.
    subst pos. rewrite Z.eqb_refl. reflexivity.
  - intros Hroom. eexists.
    unfold awss3.Seek. cbn [Z.eqb Z.ltb Z.compare fst].
    rewrite Read_within; cbn [awss3.position awss3.arr awss3.blen];
      [| exact Hwf | lia | lia].
    change (Z.to_nat 0) with 0%nat. cbn [skipn].
    rewrite bytesOf_moved, Hb, !drop_0.
    rewrite Nat.min_r by exact Hroom. rewrite firstn_all.
    rewrite Z.add_0_l, <- Hlen, Z.eqb_refl. reflexivity.
  - intros Hshort. eexists.
    unfold awss3.Seek. cbn [Z.eqb Z.ltb Z.compare fst].
    rewrite Read_within; cbn [awss3.position awss3.arr awss3.blen];
      [| exact Hwf | lia | lia].
    change (Z.to_nat 0) with 0%nat. cbn [skipn].
    rewrite bytesOf_moved, Hb, !drop_0.
    rewrite Nat.min_l by lia. rewrite skipn_all, app_nil_r.
    rewrite Z.add_0_l.
    destruct (Z.eqb_spec (Z.of_nat (length p)) (Z.of_nat (awss3.blen buf))); [lia |].
    reflexivity.
Qed.

Lemma s3_reads_back_what_was_written_witness :
  exists buf buf',
    awss3.writeAll awss3.doubling awss3.newS3ByteBuffer [chars "ab"; chars ""; chars "cde"]
    = Done buf
    /\ awss3.Read (fst (awss3.Seek buf 0 0)) (chars "........")
       = Done (buf', chars "abcde...", (5, Some io_EOF)).
Proof.
  destruct (s3_reads_back_what_was_written awss3.doubling
              [chars "ab"; chars ""; chars "cde"] (chars "........"))
    as (buf & Hrun & _ & _ & _ & _ & Hall & _).
  - vm_compute. reflexivity.
  - destruct Hall as [buf' Hread]; [vm_compute; lia |].
    exists buf, buf'. split; [exact Hrun | exact Hread].
Defined.

(** X24: [Seek] checks the sign of the position and nothing else.  A
    position behind the end of the bytes is taken: a [Read] there panics;
    a [Write] there panics when the position lies behind the capacity of
    the slice, and otherwise brings back the bytes of the backing array
    between the end of the slice and the position.  A negative position
    is refused and the buffer stays as it is; a [whence] other than 0, 1
    and 2 is no error and moves to the start, whatever the offset. *)
Theorem s3_Seek_checks_only_the_sign (spare : nat -> nat -> nat) (buf : awss3.s3ByteBuffer)
    (offset : Z) (p : list ascii) :
  awss3.wellFormed buf ->
  Z.of_nat (awss3.blen buf) < offset ->
  let moved := fst (awss3.Seek buf offset 0) in
  awss3.Seek buf offset 0
  = ({| awss3.position := offset; awss3.arr := awss3.arr buf;
        awss3.blen := awss3.blen buf |}, (offset, None))
  /\ (exists why, awss3.Read moved p = Panic why)
  /\ (Z.of_nat (length (awss3.arr buf)) < offset ->
      exists why, awss3.Write spare moved p = Panic why)
  /\ (offset <= Z.of_nat (length (awss3.arr buf)) ->
      exists buf',
        awss3.Write spare moved p = Done (buf', (GoSlice.len p, None))
        /\ fst (awss3.Bytes buf')
           = fst (awss3.Bytes buf)
             ++ firstn (Z.to_nat offset - awss3.blen buf)
                  (skipn (awss3.blen buf) (awss3.arr buf))
             ++ p)
  /\ (forall back, back < 0 ->
      awss3.Seek buf back 0
      = (buf, (0, Some (Errorf ("S3Buffer bad seek result " +:+ itoa back)))))
  /\ (forall any whence, whence <> 0 -> whence <> 1 -> whence <> 2 ->
      awss3.Seek buf any whence
      = ({| awss3.position := 0; awss3.arr := awss3.arr buf;
            awss3.blen := awss3.blen buf |}, (0, None))).
Proof.
  intros Hwf Hpast moved. subst moved. unfold awss3.wellFormed in Hwf.
  assert (Hseek : awss3.Seek buf offset 0
                  = ({| awss3.position := offset; awss3.arr := awss3.arr buf;
                        awss3.blen := awss3.blen buf |}, (offset, None))).
  { unfold awss3.Seek. cbn [Z.eqb].
    destruct (Z.ltb_spec offset 0); [lia | reflexivity]. }
  rewrite Hseek. cbn [fst].
  split; [reflexivity |]. split; [| split; [| split; [| split]]].
  - unfold awss3.Read. cbn [awss3.position awss3.blen].
    destruct (Z.ltb_spec offset 0); [lia |].
    destruct (Z.ltb_spec (Z.of_nat (awss3.blen buf)) offset); [| lia].
    cbn. eauto.
  - intros Hcap. unfold awss3.Write. cbn [awss3.position awss3.arr].
    destruct (Z.ltb_spec offset 0); [lia |].
    destruct (Z.ltb_spec (Z.of_nat (length (awss3.arr buf))) offset); [| lia].
    cbn. eauto.
  - intros Hcap. unfold awss3.Write. cbn [awss3.position awss3.arr].
    destruct (Z.ltb_spec offset 0); [lia |].
    destruct (Z.ltb_spec (Z.of_nat (length (awss3.arr buf))) offset); [lia |].
    cbn [orb]. eexists. split; [reflexivity |].
    unfold awss3.Bytes, awss3.bytesOf. cbn [fst awss3.arr awss3.blen].
    set (pos := Z.to_nat offset).
    assert (Htake : forall tail,
              firstn (pos + length p) (firstn pos (awss3.arr buf) ++ p ++ tail)
              = firstn pos (awss3.arr buf) ++ p).
    { intros tail. rewrite app_assoc.
      replace (pos + length p)%nat
        with (length (firstn pos (awss3.arr buf) ++ p))
        by (rewrite length_app, length_firstn; lia).
      apply take_app_length. }
    assert (Hsplit : firstn pos (awss3.arr buf)
                     = firstn (awss3.blen buf) (awss3.arr buf)
                       ++ firstn (pos - awss3.blen buf)
                            (skipn (awss3.blen buf) (awss3.arr buf))).
    { rewrite <- (firstn_skipn (awss3.blen buf) (awss3.arr buf)) at 1.
      rewrite firstn_app, length_firstn.
      rewrite Nat.min_l by lia.
      rewrite firstn_firstn, Nat.min_r by lia. reflexivity. }
    rewrite (app_assoc (firstn (awss3.blen buf) (awss3.arr buf)) _ p), <- Hsplit.
    destruct (pos + length p <=? length (awss3.arr buf))%nat; apply Htake.
  - intros back Hneg. unfold awss3.Seek. cbn [Z.eqb].
    destruct (Z.ltb_spec back 0); [reflexivity | lia].
  - intros any whence H0 H1 H2. unfold awss3.Seek.
    destruct (Z.eqb_spec whence 0); [contradiction |].
    destruct (Z.eqb_spec whence 1); [contradiction |].
    destruct (Z.eqb_spec whence 2); [contradiction |]. reflexivity.
Qed.

Lemma s3_Seek_checks_only_the_sign_witness :
  exists buf1 buf2 buf3,
    awss3.Write awss3.doubling awss3.newS3ByteBuffer (chars "secret") = Done (buf1, (6, None))
    /\ awss3.Write awss3.doubling (fst (awss3.Seek buf1 0 0)) (chars "ok")
       = Done (buf2, (2, None))
    /\ fst (awss3.Bytes buf2) = chars "ok"
    /\ awss3.Write awss3.doubling (fst (awss3.Seek buf2 6 0)) (chars "!")
       = Done (buf3, (1, None))
    /\ fst (awss3.Bytes buf3) = chars "okcret!".
Proof.
  set (buf1 := {| awss3.position := 6;
                  awss3.arr := chars "secret" ++ repeat "000"%char 6;
                  awss3.blen := 6 |}).
  set (buf2 := {| awss3.position := 2;
                  awss3.arr := chars "okcret" ++ repeat "000"%char 6;
                  awss3.blen := 2 |}).
  destruct (s3_Seek_checks_only_the_sign awss3.doubling buf2 6 (chars "!"))
    as (_ & _ & _ & Hwrite & _).
  - unfold awss3.wellFormed. vm_compute. lia.
  - vm_compute. reflexivity.
  - destruct Hwrite as (buf3 & Hrun3 & Hbytes); [vm_compute; discriminate |].
    exists buf1, buf2, buf3.
    split; [vm_compute; reflexivity |]. split; [vm_compute; reflexivity |].
    split; [vm_compute; reflexivity |]. split; [exact Hrun3 |].
    rewrite Hbytes. vm_compute. reflexivity.
Defined.

(** ** The time of day to rotate at *)

(** Every hour and minute an int8 holds, written with two digits or
    without padding, is read back by the part of [Configure] that reads
    [Rotation/At]. *)
Lemma all_times_read :
  forallb
    (fun h =>
       forallb
         (fun m =>
            match parseRotateAt (itoaPad 2 h +:+ ":" +:+ itoaPad 2 m),
                  parseRotateAt (itoa h +:+ ":" +:+ itoa m) with
            | Done (h1, m1), Done (h2, m2) =>
                (h1 =? h) && (m1 =? m) && (h2 =? h) && (m2 =? m)
            | _, _ => false
            end)
         (map Z.of_nat (seq 0 128)))
    (map Z.of_nat (seq 0 128)) = true.
Proof. vm_compute. reflexivity. Qed.

Lemma in_int8_range (n : Z) : 0 <= n <= 127 -> In n (map Z.of_nat (seq 0 128)).
Proof.
  intros Hn. apply in_map_iff. exists (Z.to_nat n). split; [lia |].
  apply in_seq. lia.
Qed.

(** X25: [Configure] reads a [Rotation/At] of the form HH:MM, with or
    without leading zeros, as the hour HH and the minute MM, for every
    value from 0 to 127: the hour is not held against 23, nor the minute
    against 59. *)
Theorem Rotation_At_reads_hour_and_minute (conf : gmap string string) (prod : File)
    (h m : Z) :
  0 <= h <= 127 -> 0 <= m <= 127 ->
  GetString conf "Rotation/At" "" = itoaPad 2 h +:+ ":" +:+ itoaPad 2 m
  \/ GetString conf "Rotation/At" "" = itoa h +:+ ":" +:+ itoa m ->
  exists prod',
    Configure conf prod = Done prod'
    /\ atHour (rotate prod') = h /\ atMinute (rotate prod') = m.
Proof.
  intros Hh Hm Hat.
  pose proof all_times_read as Hall.
  rewrite forallb_forall in Hall. specialize (Hall h (in_int8_range h Hh)).
  rewrite forallb_forall in Hall. specialize (Hall m (in_int8_range m Hm)).
  destruct (sliceTo_base_in_range (GetString conf "File" "/var/log/gollum.log"))
    as [name Hname].
  unfold Configure. rewrite Hname.
  destruct (parseRotateAt (itoaPad 2 h +:+ ":" +:+ itoaPad 2 m))
    as [[h1 m1] |] eqn:Hpad; [| discriminate].
  destruct (parseRotateAt (itoa h +:+ ":" +:+ itoa m))
    as [[h2 m2] |] eqn:Hplain; [| discriminate].
  apply andb_prop in Hall as [Hall E4]. apply andb_prop in Hall as [Hall E3].
  apply andb_prop in Hall as [E1 E2].
  apply Z.eqb_eq in E1, E2, E3, E4. subst h1 m1 h2 m2.
  destruct Hat as [-> | ->]; [rewrite Hpad | rewrite Hplain];
    eexists; (split; [reflexivity |]); cbn; auto.
Qed.

Lemma Rotation_At_reads_hour_and_minute_witness :
  exists prod',
    Configure {[ "Rotation/At" := "07:45" ]}
              (boundFile {[ "Rotation/At" := "07:45" ]} Scenario.rotation) = Done prod'
    /\ atHour (rotate prod') = 7 /\ atMinute (rotate prod') = 45.
Proof.
  apply Rotation_At_reads_hour_and_minute; [lia | lia |].
  left. vm_compute. reflexivity.
Defined.
